(** * DJ query compiler: the AST (dj/sql/parsing/ast.py) and the query
    builder (dj/construction/build.py), embedded shallowly.

    Python objects live in an explicit object store; every method of the
    source that mutates an object is a function from store to store.
    Recursion that follows references through the store is bounded by a
    recursion limit, as in the interpreter: running out of it raises
    [RecursionError]. *)

From Stdlib Require Import ZArith QArith Qreduction Ascii String List Bool Lia.
From stdpp Require Import base list option.
Import ListNotations.
Set Warnings "-register-all".

(** ** Python builtins used by the AST *)
Module py.

(** The identity of an object: its place in the store. *)
Abbreviation loc := nat.

(** Exceptions that the modelled code can raise. *)
Inductive exn :=
| ValueError
| TypeError
| AttributeError
| KeyError
| IndexError
| RecursionError
| OverflowError
| DJParseException (msg : string)
| DJException (msg : string).

(** A Python float: a finite binary64 value kept as the exact rational it
    denotes, an infinity, or a NaN.  Signed zeros are not distinguished. *)
Inductive pyfloat :=
| FFin (q : Q)
| FInf (neg : bool)
| FNan.

Section Binary64.
Local Open Scope Z_scope.

Definition round_half_even (num den : Z) : Z :=
  let fl := num / den in
  match 2 * (num mod den) ?= den with
  | Lt => fl
  | Gt => fl + 1
  | Eq => if Z.even fl then fl else fl + 1
  end.

(** floor (log2 (n / d)) for positive [n], [d]. *)
Definition floor_log2 (n d : Z) : Z :=
  let e0 := Z.log2 n - Z.log2 d in
  let below := if 0 <=? e0 then d * 2 ^ e0 <=? n else d <=? n * 2 ^ (- e0) in
  if below then e0 else e0 - 1.

(** Round the positive rational [n / d] to the nearest binary64 value, ties
    to even; 53 bits of precision, subnormals down to 2^-1074, overflow to
    infinity. *)
Definition round_pos (n d : Z) : pyfloat :=
  let s := Z.max (floor_log2 n d - 52) (-1074) in
  if 0 <=? s then
    let m := round_half_even n (d * 2 ^ s) in
    if 2 ^ 1024 <=? m * 2 ^ s then FInf false else FFin (inject_Z (m * 2 ^ s))
  else
    let m := round_half_even (n * 2 ^ (- s)) d in
    FFin (Qred (m # Z.to_pos (2 ^ (- s)))).

Definition fneg (f : pyfloat) : pyfloat :=
  match f with
  | FFin q => FFin (Qred (Qopp q))
  | FInf b => FInf (negb b)
  | FNan => FNan
  end.

Definition round_binary64 (q : Q) : pyfloat :=
  match Qnum q with
  | Z0 => FFin 0%Q
  | Zpos n => round_pos (Zpos n) (Zpos (Qden q))
  | Zneg n => fneg (round_pos (Zpos n) (Zpos (Qden q)))
  end.

(** [a + b] on floats: the exact sum rounded once. *)
Definition float_add (a b : pyfloat) : pyfloat :=
  match a, b with
  | FNan, _ | _, FNan => FNan
  | FInf x, FInf y => if Bool.eqb x y then FInf x else FNan
  | FInf x, FFin _ | FFin _, FInf x => FInf x
  | FFin p, FFin q => round_binary64 (Qplus p q)
  end.

(** The float that an int is converted to when it meets a float; [None]
    is the OverflowError of an int beyond the floats. *)
Definition float_of_int (z : Z) : option pyfloat :=
  match round_binary64 (inject_Z z) with
  | FInf _ => None
  | f => Some f
  end.

End Binary64.

(** *** Scanning numeric literals *)

Definition is_space (c : ascii) : bool :=
  let n := nat_of_ascii c in
  ((9 <=? n) && (n <=? 13)) || ((28 <=? n) && (n <=? 32)).

Fixpoint lstrip (s : list ascii) : list ascii :=
  match s with
  | c :: s' => if is_space c then lstrip s' else s
  | [] => []
  end.

Definition strip (s : list ascii) : list ascii :=
  rev (lstrip (rev (lstrip s))).

Definition digit (c : ascii) : option Z :=
  let n := nat_of_ascii c in
  if (48 <=? n) && (n <=? 57) then Some (Z.of_nat (n - 48)) else None.

Definition lower (c : ascii) : ascii :=
  let n := nat_of_ascii c in
  if (65 <=? n) && (n <=? 90) then ascii_of_nat (n + 32) else c.

(** The rest of a digit part: digits, each optionally preceded by one
    underscore.  Returns the value, the number of digits read and the
    unread input. *)
Fixpoint digitpart_rest (s : list ascii) (acc : Z) (n : nat)
  : Z * nat * list ascii :=
  match s with
  | c :: s' =>
      match digit c with
      | Some d => digitpart_rest s' (10 * acc + d)%Z (S n)
      | None =>
          if Ascii.eqb c "_"%char then
            match s' with
            | c2 :: s'' =>
                match digit c2 with
                | Some d => digitpart_rest s'' (10 * acc + d)%Z (S n)
                | None => (acc, n, s)
                end
            | [] => (acc, n, s)
            end
          else (acc, n, s)
      end
  | [] => (acc, n, s)
  end.

Definition digitpart (s : list ascii) : option (Z * nat * list ascii) :=
  match s with
  | c :: s' =>
      match digit c with
      | Some d => Some (digitpart_rest s' d 1)
      | None => None
      end
  | [] => None
  end.

(** An optional sign: [true] for minus. *)
Definition sign (s : list ascii) : bool * list ascii :=
  match s with
  | c :: s' =>
      if Ascii.eqb c "-"%char then (true, s')
      else if Ascii.eqb c "+"%char then (false, s')
      else (false, s)
  | [] => (false, s)
  end.

(** [int(s)] for a string, base 10: [None] is ValueError.  Whitespace and
    digits are the ASCII ones. *)
Definition int_of_string (s : string) : option Z :=
  let '(neg, r) := sign (strip (list_ascii_of_string s)) in
  match digitpart r with
  | Some (v, _, []) => Some (if neg then (- v)%Z else v)
  | _ => None
  end.

Definition ascii_list_eqb (a b : list ascii) : bool :=
  String.eqb (string_of_list_ascii a) (string_of_list_ascii b).

(** The exponent part of a decimal literal, if any. *)
Definition exponent (s : list ascii) : option (Z * list ascii) :=
  match s with
  | c :: s' =>
      if Ascii.eqb (lower c) "e"%char then
        let '(neg, r) := sign s' in
        match digitpart r with
        | Some (v, _, r') => Some (if neg then (- v)%Z else v, r')
        | None => None
        end
      else Some (0%Z, s)
  | [] => Some (0%Z, s)
  end.

(** Mantissa, number of fraction digits and the unread input of
    [digits [. [digits]]] or [. digits]. *)
Definition mantissa (s : list ascii) : option (Z * nat * list ascii) :=
  match digitpart s with
  | Some (i, _, r) =>
      match r with
      | c :: r' =>
          if Ascii.eqb c "."%char then
            match digitpart r' with
            | Some _ => Some (digitpart_rest r' i 0)
            | None => Some (i, 0, r')
            end
          else Some (i, 0, r)
      | [] => Some (i, 0, r)
      end
  | None =>
      match s with
      | c :: r' =>
          if Ascii.eqb c "."%char then
            match digitpart r' with
            | Some _ => Some (digitpart_rest r' 0%Z 0)
            | None => None
            end
          else None
      | [] => None
      end
  end.

Definition decimal_value (m : Z) (e10 : Z) : Q :=
  if (0 <=? e10)%Z then inject_Z (m * 10 ^ e10)
  else (m # Z.to_pos (10 ^ (- e10)))%Q.

(** [float(s)] for a string: [None] is ValueError.  The decimal literal
    is rounded to the nearest binary64 value. *)
Definition float_of_string (s : string) : option pyfloat :=
  let '(neg, r) := sign (strip (list_ascii_of_string s)) in
  let low := map lower r in
  let signed f := if neg then fneg f else f in
  if ascii_list_eqb low (list_ascii_of_string "inf")
     || ascii_list_eqb low (list_ascii_of_string "infinity")
  then Some (signed (FInf false))
  else if ascii_list_eqb low (list_ascii_of_string "nan") then Some FNan
  else
    match mantissa r with
    | Some (m, k, r') =>
        match exponent r' with
        | Some (e, []) =>
            Some (signed (round_binary64 (decimal_value m (e - Z.of_nat k))))
        | _ => None
        end
    | None => None
    end.

End py.

(** ** dj/sql/parsing/ast.py *)
Module ast.
Import py.
Local Open Scope string_scope.
Local Open Scope list_scope.

Module UnaryOpKind.
Inductive t := Plus | Minus | Not.
End UnaryOpKind.

Module BinaryOpKind.
Inductive t :=
| And | Or | Is | Eq | NotEq | Gt | Lt | GtEq | LtEq
| BitwiseOr | BitwiseAnd | BitwiseXor
| Multiply | Divide | Plus | Minus | Modulo.
End BinaryOpKind.

Module JoinKind.
Inductive t := Inner | LeftOuter | RightOuter | FullOuter | CrossJoin.
End JoinKind.

(** A member of one of the three DJEnum classes. *)
Inductive enum :=
| EUnaryOp (k : UnaryOpKind.t)
| EBinaryOp (k : BinaryOpKind.t)
| EJoin (k : JoinKind.t).

Inductive enum_class := UnaryOpKind_cls | BinaryOpKind_cls | JoinKind_cls.

Definition enum_type (e : enum) : enum_class :=
  match e with
  | EUnaryOp _ => UnaryOpKind_cls
  | EBinaryOp _ => BinaryOpKind_cls
  | EJoin _ => JoinKind_cls
  end.

(** The member's name, which is what [Enum.__hash__] hashes. *)
Definition member_name (e : enum) : string :=
  match e with
  | EUnaryOp UnaryOpKind.Plus => "Plus"
  | EUnaryOp UnaryOpKind.Minus => "Minus"
  | EUnaryOp UnaryOpKind.Not => "Not"
  | EBinaryOp BinaryOpKind.And => "And"
  | EBinaryOp BinaryOpKind.Or => "Or"
  | EBinaryOp BinaryOpKind.Is => "Is"
  | EBinaryOp BinaryOpKind.Eq => "Eq"
  | EBinaryOp BinaryOpKind.NotEq => "NotEq"
  | EBinaryOp BinaryOpKind.Gt => "Gt"
  | EBinaryOp BinaryOpKind.Lt => "Lt"
  | EBinaryOp BinaryOpKind.GtEq => "GtEq"
  | EBinaryOp BinaryOpKind.LtEq => "LtEq"
  | EBinaryOp BinaryOpKind.BitwiseOr => "BitwiseOr"
  | EBinaryOp BinaryOpKind.BitwiseAnd => "BitwiseAnd"
  | EBinaryOp BinaryOpKind.BitwiseXor => "BitwiseXor"
  | EBinaryOp BinaryOpKind.Multiply => "Multiply"
  | EBinaryOp BinaryOpKind.Divide => "Divide"
  | EBinaryOp BinaryOpKind.Plus => "Plus"
  | EBinaryOp BinaryOpKind.Minus => "Minus"
  | EBinaryOp BinaryOpKind.Modulo => "Modulo"
  | EJoin JoinKind.Inner => "Inner"
  | EJoin JoinKind.LeftOuter => "LeftOuter"
  | EJoin JoinKind.RightOuter => "RightOuter"
  | EJoin JoinKind.FullOuter => "FullOuter"
  | EJoin JoinKind.CrossJoin => "CrossJoin"
  end.

(** The concrete node classes. *)
Inductive cls :=
| Name | Namespace | UnaryOp | BinaryOp | Between | Case | Function | IsNull
| Number | String | Boolean | Alias | Column | Wildcard | Table | Join
| From | Select | Query.

#[global] Instance cls_eq_dec : EqDecision cls.
Proof. solve_decision. Defined.

#[global] Instance enum_class_eq_dec : EqDecision enum_class.
Proof. solve_decision. Defined.

(** What an attribute can hold: a primitive, an enum member, a list, or a
    reference to a node in the store. *)
Inductive value :=
| VNone
| VBool (b : bool)
| VInt (z : Z)
| VFloat (f : pyfloat)
| VStr (s : string)
| VEnum (e : enum)
| VList (l : list value)
| VRef (l : loc).

Inductive pytype :=
| TNoneType | TBool | TInt | TFloat | TStr
| TEnum (c : enum_class)
| TList
| TNode (c : cls)
| TDangling.

#[global] Instance pytype_eq_dec : EqDecision pytype.
Proof. solve_decision. Defined.

(** A set of nodes, as CPython keeps it: the elements in insertion order,
    each with the hash it had when it was inserted. *)
Abbreviation pyset := (list (Z * loc)).

(** A node object.  [ofields] holds the dataclass fields in declaration
    order; [oparents] is the [_parents] attribute, which is set by
    [__post_init__] and is not a dataclass field. *)
Record obj := mk_obj {
  ocls : cls;
  ofields : list value;
  oparents : pyset;
  (** Modelled from the spec: the flag that [set_api_column] sets on a
      Column; ast.py has no such attribute. *)
  oapi_column : bool
}.

(** The object store. *)
Abbreviation heap := (list obj).

(** *** Results of calls *)

Inductive outcome (A : Type) :=
| Return (a : A)
| Throw (e : exn).
Arguments Return {A} a.
Arguments Throw {A} e.

Definition obind {A B} (x : outcome A) (f : A -> outcome B) : outcome B :=
  match x with
  | Return a => f a
  | Throw e => Throw e
  end.

(** A call that can mutate the store: the store is threaded through, and
    survives a raised exception. *)
Definition M (A : Type) := heap -> outcome A * heap.

Definition ret {A} (a : A) : M A := fun h => (Return a, h).
Definition raise {A} (e : exn) : M A := fun h => (Throw e, h).
Definition bind {A B} (m : M A) (f : A -> M B) : M B :=
  fun h =>
    match m h with
    | (Return a, h') => f a h'
    | (Throw e, h') => (Throw e, h')
    end.
Definition lift {A} (x : outcome A) : M A := fun h => (x, h).
Definition get : M heap := fun h => (Return h, h).

Declare Scope py_scope.
Delimit Scope py_scope with py.
Notation "x <- m ;; k" := (bind m (fun x => k))
  (at level 100, m at next level, right associativity) : py_scope.
Notation "m ;;; k" := (bind m (fun _ => k))
  (at level 100, right associativity) : py_scope.
Notation "x <-? m ;; k" := (obind m (fun x => k))
  (at level 100, m at next level, right associativity) : py_scope.
Local Open Scope py_scope.

(** [for x in xs: body x] *)
Fixpoint for_each {A} (xs : list A) (body : A -> M unit) : M unit :=
  match xs with
  | [] => ret tt
  | x :: xs' => body x ;;; for_each xs' body
  end.

(** *** Dataclass fields *)

(** The fields of each dataclass in the order [dataclasses.fields] yields
    them (inherited fields first), each with its default when it has one.
    [String] and [Boolean] carry no decorator of their own and inherit the
    field and the constructor of [Value].  The default of [Alias.child] is
    [default_factory=Node]: calling the abstract class raises TypeError,
    as a missing argument does, so the field is listed without default. *)
Definition dataclass_fields (c : cls) : list (string * option value) :=
  match c with
  | Name => [("name", None); ("quote_style", Some (VStr ""))]
  | Namespace => [("names", None)]
  | UnaryOp => [("op", None); ("expr", None)]
  | BinaryOp => [("left", None); ("op", None); ("right", None)]
  | Between => [("expr", None); ("low", None); ("high", None)]
  | Case =>
      [("conditions", Some (VList [])); ("else_result", Some VNone);
       ("operand", Some VNone); ("results", Some (VList []))]
  | Function =>
      [("name", None); ("_namespace", Some VNone); ("args", Some (VList []))]
  | IsNull => [("expr", None)]
  | Number | String | Boolean => [("value", None)]
  | Alias => [("name", None); ("_namespace", Some VNone); ("child", None)]
  | Column =>
      [("name", None); ("_namespace", Some VNone); ("_table", Some VNone)]
  | Wildcard => [("_table", Some VNone)]
  | Table =>
      [("name", None); ("_namespace", Some VNone);
       ("_columns", Some (VList []))]
  | Join => [("kind", None); ("table", None); ("on", None)]
  | From => [("table", None); ("joins", Some (VList []))]
  | Select =>
      [("distinct", None); ("from_", None); ("group_by", Some (VList []));
       ("having", Some VNone); ("projection", Some (VList []));
       ("where", Some VNone); ("limit", Some VNone)]
  | Query => [("select", None); ("ctes", Some (VList []))]
  end.

Definition field_names (c : cls) : list string :=
  map fst (dataclass_fields c).

Fixpoint index_of (name : string) (names : list string) : option nat :=
  match names with
  | [] => None
  | n :: names' =>
      if String.eqb n name then Some 0
      else S <$> index_of name names'
  end.

(** [self.__dict__[name]] for a dataclass field. *)
Definition getfield (o : obj) (name : string) : option value :=
  i ← index_of name (field_names (ocls o)); ofields o !! i.

Definition setfield (o : obj) (name : string) (v : value) : obj :=
  match index_of name (field_names (ocls o)) with
  | Some i => mk_obj (ocls o) (<[i:=v]> (ofields o)) (oparents o) (oapi_column o)
  | None => o
  end.

(** [self.name] read from the store; a missing object or attribute is an
    AttributeError. *)
Definition getattr (l : loc) (name : string) : M value :=
  fun h =>
    match h !! l with
    | Some o =>
        match getfield o name with
        | Some v => (Return v, h)
        | None => (Throw AttributeError, h)
        end
    | None => (Throw AttributeError, h)
    end.

(** [self.name = v] for a dataclass field. *)
Definition setattr (l : loc) (name : string) (v : value) : M unit :=
  fun h =>
    match h !! l with
    | Some o => (Return tt, <[l:=setfield o name v]> h)
    | None => (Throw AttributeError, h)
    end.


(** *** Node.fields and Node.children *)

(** The module-level [flatten] on attribute values: it descends into
    lists, the only iterables among them (the source descends into
    tuples, sets and iterators as well, which no dataclass field of the
    AST holds). *)
Fixpoint flatten (maybe_iterables : value) : list value :=
  match maybe_iterables with
  | VList l => flat_map flatten l
  | _ => [maybe_iterables]
  end.

Definition startswith_underscore (name : string) : bool :=
  String.prefix "_" name.

Definition isinstance_Node (child : value) : bool :=
  match child with
  | VRef _ => true
  | _ => false
  end.

Definition is_not_None (child : value) : bool :=
  match child with
  | VNone => false
  | _ => true
  end.

(** [Node.fields(flat, nodes_only, obfuscated, nones)] *)
Definition fields (flat nodes_only obfuscated nones : bool) (self : obj)
  : list value :=
  let child_generator :=
    map snd
      (List.filter
         (fun nv => if obfuscated then true
                    else negb (startswith_underscore (fst nv)))
         (zip (field_names (ocls self)) (ofields self))) in
  let child_generator :=
    if flat then flat_map flatten child_generator else child_generator in
  let child_generator :=
    if nodes_only then List.filter isinstance_Node child_generator
    else child_generator in
  if nones then child_generator
  else List.filter is_not_None child_generator.

Definition refs (vs : list value) : list loc :=
  omap (fun v => match v with VRef l => Some l | _ => None end) vs.

(** [Node.children] *)
Definition children (h : heap) (self : loc) : list loc :=
  match h !! self with
  | Some o => refs (fields true true false false o)
  | None => []
  end.

(** *** Node.__eq__ *)

Definition type_of (h : heap) (v : value) : pytype :=
  match v with
  | VNone => TNoneType
  | VBool _ => TBool
  | VInt _ => TInt
  | VFloat _ => TFloat
  | VStr _ => TStr
  | VEnum e => TEnum (enum_type e)
  | VList _ => TList
  | VRef l =>
      match h !! l with
      | Some o => TNode (ocls o)
      | None => TDangling
      end
  end.

(** [type(s) in {int, float, str, bool, type(None)}] *)
Definition primitives (t : pytype) : bool :=
  match t with
  | TInt | TFloat | TStr | TBool | TNoneType => true
  | _ => false
  end.

(** The number a bool, int or float denotes; ints are exact. *)
Definition num_of (v : value) : option pyfloat :=
  match v with
  | VBool b => Some (FFin (inject_Z (if b then 1 else 0)))
  | VInt z => Some (FFin (inject_Z z))
  | VFloat f => Some f
  | _ => None
  end.

Definition float_eqb (a b : pyfloat) : bool :=
  match a, b with
  | FFin p, FFin q => Qeq_bool p q
  | FInf x, FInf y => Bool.eqb x y
  | _, _ => false
  end.

(** [s == o] for [s] of a primitive type: numbers compare across bool,
    int and float; a string or None equals only its like. *)
Definition py_eq (s o : value) : bool :=
  match s, o with
  | VNone, VNone => true
  | VStr a, VStr b => String.eqb a b
  | _, _ =>
      match num_of s, num_of o with
      | Some x, Some y => float_eqb x y
      | _, _ => false
      end
  end.

Definition field_eq (h : heap) (s o : value) : bool :=
  if primitives (type_of h s) then py_eq s o
  else bool_decide (type_of h s = type_of h o).

(** [Node.__eq__]: "top level" equality. *)
Definition __eq__ (h : heap) (self : loc) (other : value) : bool :=
  match h !! self, other with
  | Some so, VRef o =>
      match h !! o with
      | Some oo =>
          bool_decide (ocls so = ocls oo)
          && forallb (fun so => field_eq h (fst so) (snd so))
               (zip (fields false false false true so)
                    (fields false false false true oo))
      | None => false
      end
  | _, _ => false
  end.

(** [self != other] where either side may be None: Node defines no
    [__ne__], so the result is the negation of [__eq__], reflected when the
    left side is None. *)
Definition ne (h : heap) (self other : option loc) : bool :=
  match self, other with
  | Some a, Some b => negb (__eq__ h a (VRef b))
  | Some a, None => negb (__eq__ h a VNone)
  | None, Some b => negb (__eq__ h b VNone)
  | None, None => false
  end.

(** *** Hashing *)

(** What the builtin [hash] is applied to. [KHashed z] is an object whose
    [__hash__] returns [z]; [KClassId c] is the integer [id(c)]. *)
Inductive hkey :=
| KNone
| KNum (q : Q)
| KInf (neg : bool)
| KNan
| KStr (s : string)
| KType (c : cls)
| KClassId (c : cls)
| KHashed (z : Z)
| KTuple (ks : list hkey).

Definition float_key (f : pyfloat) : hkey :=
  match f with
  | FFin q => KNum (Qred q)
  | FInf b => KInf b
  | FNan => KNan
  end.

Fixpoint ofold {A S} (f : S -> A -> outcome S) (xs : list A) (s : S)
  : outcome S :=
  match xs with
  | [] => Return s
  | x :: xs' => s' <-? f s x ;; ofold f xs' s'
  end.

Fixpoint omapM {A B} (f : A -> outcome B) (xs : list A) : outcome (list B) :=
  match xs with
  | [] => Return []
  | x :: xs' => y <-? f x ;; ys <-? omapM f xs' ;; Return (y :: ys)
  end.

(** A bool or an int, as the int it is. *)
Definition int_of (v : value) : option Z :=
  match v with
  | VBool b => Some (if b then 1 else 0)%Z
  | VInt z => Some z
  | _ => None
  end.

(** [a + b] on attribute values: strings and lists are concatenated;
    bools, ints and floats are added, an int that meets a float being
    converted first; None, enum members, nodes and mixed operands raise
    TypeError. *)
Definition py_add (a b : value) : outcome value :=
  match a, b with
  | VStr x, VStr y => Return (VStr (x ++ y))
  | VList x, VList y => Return (VList (x ++ y))
  | VFloat x, VFloat y => Return (VFloat (float_add x y))
  | VFloat x, _ =>
      match int_of b with
      | Some z =>
          match float_of_int z with
          | Some y => Return (VFloat (float_add x y))
          | None => Throw OverflowError
          end
      | None => Throw TypeError
      end
  | _, VFloat y =>
      match int_of a with
      | Some z =>
          match float_of_int z with
          | Some x => Return (VFloat (float_add x y))
          | None => Throw OverflowError
          end
      | None => Throw TypeError
      end
  | _, _ =>
      match int_of a, int_of b with
      | Some x, Some y => Return (VInt (x + y))
      | _, _ => Throw TypeError
      end
  end.

Section Hashing.

(** The interpreter's [hash] on strings, numbers, None, types and tuples:
    any function; equal numbers have one key. *)
Context (builtin_hash : hkey -> Z).

(** The key of an attribute value, given the hash of nodes. *)
Definition value_key (node_hash : loc -> outcome Z) (v : value)
  : outcome hkey :=
  match v with
  | VNone => Return KNone
  | VBool _ | VInt _ | VFloat _ =>
      match num_of v with
      | Some f => Return (float_key f)
      | None => Throw TypeError
      end
  | VStr s => Return (KStr s)
  | VEnum e => Return (KStr (member_name e))
  | VList _ => Throw TypeError
  | VRef l => z <-? node_hash l ;; Return (KHashed z)
  end.

(** Each class's [__hash__].  [attr] reads a field of [self];
    [Name.__hash__] hashes [self.name + self.quote_style], which is a
    string, a number, or a list, and a list is not hashable. *)
Fixpoint __hash__ (fuel : nat) (h : heap) (self : loc) : outcome Z :=
  match fuel with
  | 0 => Throw RecursionError
  | S n =>
      match h !! self with
      | None => Throw AttributeError
      | Some o =>
          let attr name := default VNone (getfield o name) in
          let tuple_of vs :=
            ks <-? omapM (value_key (__hash__ n h)) vs ;;
            Return (builtin_hash (KTuple (KType (ocls o) :: ks))) in
          match ocls o with
          | Name =>
              v <-? py_add (attr "name") (attr "quote_style") ;;
              k <-? value_key (fun _ => Throw TypeError) v ;;
              Return (builtin_hash k)
          | Namespace | Function | IsNull =>
              Return (builtin_hash (KType (ocls o)))
          | UnaryOp | BinaryOp => tuple_of [attr "op"]
          | Between => tuple_of [attr "low"; attr "high"]
          | Case | From | Select | Query => Return (Z.of_nat self)
          | Number | String | Boolean => tuple_of [attr "value"]
          | Alias | Column | Table => tuple_of [attr "name"]
          | Wildcard => Return (builtin_hash (KClassId Wildcard))
          | Join => tuple_of [attr "kind"]
          end
      end
  end.

(** *** Sets of nodes *)

(** Membership: an entry with the same stored hash that is the same
    object or [==] to it. *)
Definition set_contains (h : heap) (s : pyset) (hx : Z) (x : loc) : bool :=
  existsb
    (fun e => Z.eqb (fst e) hx
              && (Nat.eqb (snd e) x || __eq__ h (snd e) (VRef x)))
    s.

Definition set_insert (h : heap) (s : pyset) (hx : Z) (x : loc) : pyset :=
  if set_contains h s hx x then s else s ++ [(hx, x)].

(** [set(xs)] *)
Definition set_of_list (fuel : nat) (h : heap) (xs : list loc)
  : outcome pyset :=
  ofold (fun s x => hx <-? __hash__ fuel h x ;; Return (set_insert h s hx x))
    xs [].

(** *** Parents *)

Definition with_parents (o : obj) (s : pyset) : obj :=
  mk_obj (ocls o) (ofields o) s (oapi_column o).

(** [Node.parents] *)
Definition parents (h : heap) (self : loc) : pyset :=
  match h !! self with
  | Some o => oparents o
  | None => []
  end.

(** [Node.clear_parents] *)
Definition clear_parents (self : loc) : M loc :=
  fun h =>
    match h !! self with
    | Some o => (Return self, <[self:=with_parents o []]> h)
    | None => (Throw AttributeError, h)
    end.

(** One step of [self.parents.update(parents)]: add [p] to the set. *)
Definition parents_add (fuel : nat) (self p : loc) : M unit :=
  fun h =>
    match h !! self with
    | Some o =>
        match __hash__ fuel h p with
        | Return hp =>
            if set_contains h (oparents o) hp p then (Return tt, h)
            else (Return tt, <[self:=with_parents o (oparents o ++ [(hp, p)])]> h)
        | Throw e => (Throw e, h)
        end
    | None => (Throw AttributeError, h)
    end.

(** [Node.add_parents] *)
Definition add_parents (fuel : nat) (self : loc) (parents : list loc)
  : M loc :=
  for_each parents (parents_add fuel self) ;;; ret self.

(** [Node.add_self_as_parent] *)
Definition add_self_as_parent (fuel : nat) (self : loc) : M loc :=
  h <- get ;;
  for_each (children h self)
    (fun child => add_parents fuel child [self] ;;; ret tt) ;;;
  ret self.

(** [Node.apply]: [func] on the node, then on each child in turn.  The
    children are those the node has once [func] has run on it. *)
Fixpoint apply (fuel : nat) (func : loc -> M unit) (self : loc) : M unit :=
  match fuel with
  | 0 => raise RecursionError
  | S n =>
      func self ;;;
      h <- get ;;
      for_each (children h self) (apply n func)
  end.

(** [Node.compile_parents] *)
Definition compile_parents (fuel : nat) (self : loc) : M loc :=
  apply fuel (fun node => add_self_as_parent fuel node ;;; ret tt) self ;;;
  ret self.

End Hashing.

(** *** Traversals that do not mutate *)

(** [Node.filter], as the list the generator yields. *)
Fixpoint filter (fuel : nat) (func : heap -> loc -> bool) (h : heap)
  (self : loc) : outcome (list loc) :=
  match fuel with
  | 0 => Throw RecursionError
  | S n =>
      rest <-? omapM (filter n func h) (children h self) ;;
      Return ((if func h self then [self] else []) ++ concat rest)
  end.

(** [Node.find_all] for a concrete class (no concrete class has a
    subclass). *)
Definition find_all (fuel : nat) (node_type : cls) (h : heap) (self : loc)
  : outcome (list loc) :=
  filter fuel (fun h n => bool_decide (type_of h (VRef n) = TNode node_type))
    h self.

(** [Node.flatten] *)
Definition Node_flatten (fuel : nat) (h : heap) (self : loc)
  : outcome (list loc) :=
  filter fuel (fun _ _ => true) h self.

Fixpoint zip_longest {A B} (xs : list A) (ys : list B)
  : list (option A * option B) :=
  match xs with
  | [] => map (fun y => (None, Some y)) ys
  | x :: xs' =>
      match ys with
      | [] => (Some x, None) :: zip_longest xs' []
      | y :: ys' => (Some x, Some y) :: zip_longest xs' ys'
      end
  end.

Abbreviation pair_ := (option loc * option loc)%type.

(** The inner [_diff] of [Node.diff]; [diffs] is the list it appends to. *)
Fixpoint _diff (fuel : nat) (h : heap) (self other : option loc)
  (diffs : list pair_) : outcome (list pair_) :=
  match fuel with
  | 0 => Throw RecursionError
  | S n =>
      if ne h self other then Return (diffs ++ [(self, other)])
      else
        match self, other with
        | Some a, Some b =>
            ofold (fun diffs co => _diff n h (fst co) (snd co) diffs)
              (zip_longest (children h a) (children h b)) diffs
        | _, _ => Throw AttributeError
        end
  end.

(** [Node.diff] *)
Definition diff (fuel : nat) (h : heap) (self other : loc)
  : outcome (list pair_) :=
  _diff fuel h (Some self) (Some other) [].

(** [Node.compare] *)
Definition compare (fuel : nat) (h : heap) (self other : loc)
  : outcome bool :=
  diffs <-? diff fuel h self other ;;
  Return (match diffs with [] => true | _ => false end).


(** *** Constructors *)

(** The builtin [int(v)]. *)
Definition py_int (v : value) : outcome Z :=
  match v with
  | VInt z => Return z
  | VBool b => Return (if b then 1 else 0)%Z
  | VFloat (FFin q) => Return (Z.quot (Qnum q) (Zpos (Qden q)))
  | VFloat (FInf _) => Throw OverflowError
  | VFloat FNan => Throw ValueError
  | VStr s =>
      match int_of_string s with
      | Some z => Return z
      | None => Throw ValueError
      end
  | VNone | VEnum _ | VList _ | VRef _ => Throw TypeError
  end.

(** The builtin [float(v)]. *)
Definition py_float (v : value) : outcome pyfloat :=
  match v with
  | VFloat f => Return f
  | VInt z => Return (round_binary64 (inject_Z z))
  | VBool b => Return (FFin (inject_Z (if b then 1 else 0)))
  | VStr s =>
      match float_of_string s with
      | Some f => Return f
      | None => Throw ValueError
      end
  | VNone | VEnum _ | VList _ | VRef _ => Throw TypeError
  end.

(** The part of [Number.__post_init__] after [super().__post_init__()]:
    the new [self.value]. *)
Definition Number__post_init__ (v : value) : outcome value :=
  match v with
  | VFloat _ | VInt _ => Return v
  | _ =>
      match py_int v with
      | Return z => Return (VInt z)
      | Throw ValueError => f <-? py_float v ;; Return (VFloat f)
      | Throw e => Throw e
      end
  end.

Definition has_key {V} (name : string) (kwargs : list (string * V)) : bool :=
  existsb (fun kv => String.eqb (fst kv) name) kwargs.

Fixpoint lookup_key {V} (name : string) (kwargs : list (string * V))
  : option V :=
  match kwargs with
  | [] => None
  | (k, v) :: kwargs' =>
      if String.eqb k name then Some v else lookup_key name kwargs'
  end.

(** Binding of positional and keyword arguments to the parameters of the
    generated [__init__], which are the fields by name and in order. *)
Fixpoint bind_args (params : list (string * option value))
  (args : list value) (kwargs : list (string * value))
  : outcome (list value) :=
  match params with
  | [] =>
      match args with
      | [] => Return []
      | _ :: _ => Throw TypeError
      end
  | (name, dflt) :: params' =>
      match args with
      | a :: args' =>
          if has_key name kwargs then Throw TypeError
          else vs <-? bind_args params' args' kwargs ;; Return (a :: vs)
      | [] =>
          match lookup_key name kwargs, dflt with
          | Some v, _ | None, Some v =>
              vs <-? bind_args params' [] kwargs ;; Return (v :: vs)
          | None, None => Throw TypeError
          end
      end
  end.

(** A call of the node class [c] with positional and keyword arguments: the generated [__init__]
    followed by [__post_init__], which sets [_parents] to the empty set
    and, for a Number, normalizes the value.  The new object's identity is
    the next free place of the store. *)
Definition new (c : cls) (args : list value) (kwargs : list (string * value))
  : M loc :=
  fun h =>
    if negb (forallb (fun kv => has_key (fst kv) (dataclass_fields c)) kwargs)
    then (Throw TypeError, h)
    else
      match bind_args (dataclass_fields c) args kwargs with
      | Throw e => (Throw e, h)
      | Return vs =>
          let self := mk_obj c vs [] false in
          match c with
          | Number =>
              match Number__post_init__ (default VNone (getfield self "value")) with
              | Return v =>
                  (Return (length h), h ++ [setfield self "value" v])
              | Throw e => (Throw e, h)
              end
          | _ => (Return (length h), h ++ [self])
          end
      end.

(** *** Back-references *)

(** [Named.add_namespace] *)
Definition add_namespace (self : loc) (namespace : value) : M loc :=
  ns <- getattr self "_namespace" ;;
  match ns with
  | VNone => setattr self "_namespace" namespace
  | _ => ret tt
  end ;;;
  ret self.

(** [Column.add_table] and [Wildcard.add_table] *)
Definition add_table (self : loc) (table : value) : M loc :=
  t <- getattr self "_table" ;;
  match t with
  | VNone => setattr self "_table" table
  | _ => ret tt
  end ;;;
  ret self.

(** [Column.table] and [Wildcard.table] *)
Definition table (h : heap) (self : loc) : option value :=
  o ← h !! self; getfield o "_table".

(** [Named.namespace] *)
Definition namespace (h : heap) (self : loc) : option value :=
  o ← h !! self; getfield o "_namespace".

(** [Table.add_columns] *)
Definition add_columns (self : loc) (columns : list loc) : M loc :=
  for_each columns
    (fun column =>
       cs <- getattr self "_columns" ;;
       match cs with
       | VList l => setattr self "_columns" (VList (l ++ [VRef column]))
       | _ => raise AttributeError
       end ;;;
       add_table column (VRef self) ;;; ret tt) ;;;
  ret self.

(** Truth value of an attribute: nodes and enum members are always true. *)
Definition truthy (v : value) : bool :=
  match v with
  | VNone => false
  | VBool b => b
  | VInt z => negb (Z.eqb z 0)
  | VFloat (FFin q) => negb (Qeq_bool q 0)
  | VFloat _ => true
  | VStr s => negb (String.eqb s "")
  | VEnum _ => true
  | VList l => match l with [] => false | _ => true end
  | VRef _ => true
  end.

(** [l.pop()]: the last element and the list without it. *)
Definition pop (l : list value) : option (value * list value) :=
  match rev l with
  | [] => None
  | x :: r => Some (x, rev r)
  end.

Section Methods.
Context (builtin_hash : hkey -> Z).

(** [self.names.pop().clear_parents()] of [Namespace]: removes the last
    name from the list held by [self] and clears its parents. *)
Definition pop_name (self : loc) : M loc :=
  names <- getattr self "names" ;;
  match names with
  | VList l =>
      match pop l with
      | Some (VRef last, l') =>
          setattr self "names" (VList l') ;;;
          clear_parents last
      | Some (_, l') => setattr self "names" (VList l') ;;; raise AttributeError
      | None => raise IndexError
      end
  | _ => raise AttributeError
  end.

(** [Namespace.to_column] *)
Definition Namespace_to_column (fuel : nat) (self : loc) : M loc :=
  names <- getattr self "names" ;;
  if negb (truthy names) then raise (DJParseException "Namespace is empty")
  else
    last <- pop_name self ;;
    col <- new Column [VRef last] [] ;;
    col <- add_self_as_parent builtin_hash fuel col ;;
    names <- getattr self "names" ;;
    (if truthy names then add_namespace col (VRef self) else ret col) ;;;
    ret col.

(** [Namespace.to_table] *)
Definition Namespace_to_table (fuel : nat) (self : loc) : M loc :=
  names <- getattr self "names" ;;
  if negb (truthy names) then raise (DJParseException "Namespace is empty")
  else
    last <- pop_name self ;;
    table <- new Table [VRef last] [] ;;
    table <- add_self_as_parent builtin_hash fuel table ;;
    names <- getattr self "names" ;;
    (if truthy names then add_namespace table (VRef self) else ret table) ;;;
    ret table.

(** [Namespace.pop_self] *)
Definition pop_self (self : loc) : M (loc * loc) :=
  last <- pop_name self ;; ret (last, self).

(** [Name.to_column], [Name.to_table] and [Name.to_namespace] *)
Definition Name_to_column (fuel : nat) (self : loc) : M loc :=
  col <- new Column [VRef self] [] ;;
  add_self_as_parent builtin_hash fuel col.

Definition Name_to_table (fuel : nat) (self : loc) : M loc :=
  t <- new Table [VRef self] [] ;;
  add_self_as_parent builtin_hash fuel t.

Definition Name_to_namespace (fuel : nat) (self : loc) : M loc :=
  ns <- new Namespace [VList [VRef self]] [] ;;
  add_self_as_parent builtin_hash fuel ns.

End Methods.

(** *** Parents taken away, and the name under an alias *)

(** [s.discard(x)]: the entry that [x] is found equal to is removed.
    Entries are looked at in insertion order; a set holds at most one
    entry equal to a given node as long as the compared fields of its
    elements stay as they were when they were inserted. *)
Fixpoint set_discard (h : heap) (s : pyset) (hx : Z) (x : loc) : pyset :=
  match s with
  | [] => []
  | e :: s' =>
      if Z.eqb (fst e) hx && (Nat.eqb (snd e) x || __eq__ h (snd e) (VRef x))
      then s'
      else e :: set_discard h s' hx x
  end.

(** [s -= other]: each element of [other] is discarded from [s], under
    the hash [other] stores for it. *)
Definition set_difference_update (h : heap) (s other : pyset) : pyset :=
  fold_left (fun s e => set_discard h s (fst e) (snd e)) other s.

Section Removal.
Context (builtin_hash : hkey -> Z).

(** [Node.remove_parents]: [self._parents -= set(parents)] *)
Definition remove_parents (fuel : nat) (self : loc) (parents : list loc)
  : M loc :=
  fun h =>
    match h !! self with
    | Some o =>
        match set_of_list builtin_hash fuel h parents with
        | Return other =>
            (Return self,
             <[self:=with_parents o
                       (set_difference_update h (oparents o) other)]> h)
        | Throw e => (Throw e, h)
        end
    | None => (Throw AttributeError, h)
    end.

End Removal.

(** The classes that inherit from [Named]. *)
Definition is_Named (c : cls) : bool :=
  match c with
  | Function | Alias | Column | Table => true
  | _ => false
  end.

(** [Named.alias_or_name]; it returns the [name] attribute, which holds a
    Name node. *)
Definition alias_or_name (self : loc) : M value :=
  h <- get ;;
  match h !! self with
  | Some o =>
      if is_Named (ocls o) then
        match oparents o with
        | [(_, parent)] =>
            if bool_decide (type_of h (VRef parent) = TNode Alias)
            then getattr parent "name"
            else getattr self "name"
        | _ => getattr self "name"
        end
      else raise AttributeError
  | None => raise AttributeError
  end.

End ast.

(** ** dj/construction/build.py *)
Module build.
Import py ast.
Local Open Scope string_scope.
Local Open Scope list_scope.
Local Open Scope py_scope.

(** *** The metadata models read by the builder *)

(** Modelled from the spec: dj.models is not among the source files.  The
    records below hold the attributes build.py reads.  A NodeRevision is
    identified by [revision_id], which stands for its identity as a
    dictionary key and in [col.dimension.current == dim_node];
    [column_dimension] is the identity of [col.dimension.current], absent
    when [col.dimension] is. *)
Record Database := mk_database {
  database_id : Z
}.

Record PhysicalTable := mk_table {
  table_database : Database;
  table_table : string;
  table_catalog : option string;
  table_schema_ : option string
}.

Record ColumnDecl := mk_column {
  column_name : string;
  column_dimension : option nat;
  column_dimension_column : option string
}.

Inductive NodeType := SOURCE | TRANSFORM | METRIC | DIMENSION | CUBE.

#[global] Instance NodeType_eq_dec : EqDecision NodeType.
Proof. solve_decision. Defined.

Record NodeRevision := mk_revision {
  revision_id : nat;
  node_name : string;
  node_type : NodeType;
  node_columns : list ColumnDecl;
  node_tables : list PhysicalTable
}.

(** A dictionary keyed by NodeRevision, in insertion order. *)
Abbreviation dict V := (list (NodeRevision * V)).

Definition same_revision (a b : NodeRevision) : bool :=
  Nat.eqb (revision_id a) (revision_id b).

Fixpoint dict_get {V} (d : dict V) (k : NodeRevision) : option V :=
  match d with
  | [] => None
  | (k', v) :: d' => if same_revision k' k then Some v else dict_get d' k
  end.

Definition dict_mem {V} (d : dict V) (k : NodeRevision) : bool :=
  match dict_get d k with
  | Some _ => true
  | None => false
  end.

Fixpoint dict_set {V} (d : dict V) (k : NodeRevision) (v : V) : dict V :=
  match d with
  | [] => [(k, v)]
  | (k', v') :: d' =>
      if same_revision k' k then (k', v) :: d'
      else (k', v') :: dict_set d' k v
  end.

(** A build plan: the query to build and, per node, the databases that can
    serve it and its own plan. *)
Inductive BuildPlan :=
| Plan (query : loc) (lookup : dict (list Database * BuildPlan)).

Definition plan_query (p : BuildPlan) : loc :=
  match p with
  | Plan q _ => q
  end.

(** *** Helpers for Python constructs *)

(** [functools.reduce(function, sequence)] without initial value. *)
Fixpoint reduce_from {A} (function : A -> A -> M A) (sequence : list A)
  (acc : A) : M A :=
  match sequence with
  | [] => ret acc
  | x :: rest => acc' <- function acc x ;; reduce_from function rest acc'
  end.

Definition reduce {A} (function : A -> A -> M A) (sequence : list A) : M A :=
  match sequence with
  | [] => raise TypeError
  | x :: rest => reduce_from function rest x
  end.

(** [xs.append(x)] on the list held by attribute [name] of [self]. *)
Definition append_to (self : loc) (name : string) (x : value) : M unit :=
  l <- getattr self name ;;
  match l with
  | VList xs => setattr self name (VList (xs ++ [x]))
  | _ => raise AttributeError
  end.

(** [self.name += ys] on a list attribute. *)
Definition extend (self : loc) (name : string) (ys : value) : M unit :=
  l <- getattr self name ;;
  match l, ys with
  | VList xs, VList ys' => setattr self name (VList (xs ++ ys'))
  | _, _ => raise TypeError
  end.

(** An attribute that must hold a node. *)
Definition getnode (self : loc) (name : string) : M loc :=
  v <- getattr self name ;;
  match v with
  | VRef l => ret l
  | _ => raise AttributeError
  end.

Fixpoint mapM {A B} (f : A -> M B) (xs : list A) : M (list B) :=
  match xs with
  | [] => ret []
  | x :: xs' => y <- f x ;; ys <- mapM f xs' ;; ret (y :: ys)
  end.

(** The lambda given to [reduce] in both functions: positional arguments of
    the BinaryOp constructor. *)
Definition and_ (left right : value) : M value :=
  l <- new BinaryOp [VEnum (EBinaryOp BinaryOpKind.And); left; right] [] ;;
  ret (VRef l).

(** *** _build_dimensions_on_select *)

Definition has_default_key (dim_node : NodeRevision) : bool :=
  existsb (fun dim_col => String.eqb (column_name dim_col) "id")
    (node_columns dim_node).

Definition missing_key_message (table_node dim_node : NodeRevision)
  (col : ColumnDecl) : string :=
  "Node " ++ node_name table_node ++ " specifiying dimension "
  ++ node_name dim_node ++ " on column " ++ column_name col ++ " does not"
  ++ " specify a dimension column, but " ++ node_name dim_node ++ " "
  ++ "does not have the default key `id`.".

Definition references (col : ColumnDecl) (dim_node : NodeRevision) : bool :=
  match column_dimension col with
  | Some d => Nat.eqb d (revision_id dim_node)
  | None => false
  end.

(** The loop over [table_node.columns] (lines 64-76). *)
Definition join_dim_cols (dim_node table_node : NodeRevision)
  : outcome (list ColumnDecl) :=
  ofold
    (fun join_dim_cols col =>
       if references col dim_node then
         if match column_dimension_column col with None => true | Some _ => false end
            && negb (has_default_key dim_node)
         then Throw (DJException (missing_key_message table_node dim_node col))
         else Return (join_dim_cols ++ [col])
       else Return join_dim_cols)
    (node_columns table_node) [].

(** The loop over [tables] that fills [join_info] (lines 62-78). *)
Definition join_info {V} (dim_node : NodeRevision) (tables : dict V)
  : outcome (dict (list ColumnDecl)) :=
  ofold
    (fun join_info tn =>
       cols <-? join_dim_cols dim_node (fst tn) ;;
       Return (dict_set join_info (fst tn) cols))
    tables [].

Definition nonempty (s : option string) : option string :=
  match s with
  | Some x => if String.eqb x "" then None else Some x
  | None => None
  end.

Section Builder.

(** The parts of the repository that build.py calls and that are not among
    the source files. *)
Context (builtin_hash : hkey -> Z).
Context (amenable_name : string -> string).
Context (Query_build :
  loc -> BuildPlan -> Z -> Database -> option string -> M unit).
Context (parse : string -> option string -> M loc).
(** The order in which a set yields its elements. *)
Context (set_iter : pyset -> list loc).
(** The [dj_node] attribute of a Table, which ast.py does not declare. *)
Context (dj_node : loc -> option NodeRevision).

(** *** _get_tables_and_dim_cols *)

Definition dict_append {V} (d : dict (list V)) (k : NodeRevision) (v : V)
  : dict (list V) :=
  dict_set d k (default [] (dict_get d k) ++ [v]).

(** A column whose [table] is a Table of a dimension node. *)
Definition dimension_of (h : heap) (col : loc) : option NodeRevision :=
  match table h col with
  | Some (VRef t) =>
      if bool_decide (type_of h (VRef t) = TNode Table) then
        match dj_node t with
        | Some node =>
            if bool_decide (node_type node = DIMENSION) then Some node
            else None
        | None => None
        end
      else None
  | _ => None
  end.

Definition _get_tables_and_dim_cols (fuel : nat) (select : loc)
  : M (dict (list loc) * dict (list loc)) :=
  h <- get ;;
  found <- lift (find_all fuel Table h select) ;;
  let tables :=
    fold_left
      (fun tables table =>
         match dj_node table with
         | Some node => dict_append tables node table
         | None => tables
         end)
      found [] in
  found <- lift (find_all fuel Column h select) ;;
  let dimension_columns :=
    fold_left
      (fun dimension_columns col =>
         match dimension_of h col with
         | Some node => dict_append dimension_columns node col
         | None => dimension_columns
         end)
      found [] in
  ret (dimension_columns, tables).

(** The source of the dimension (lines 79-109). *)
Definition dim_source (dim_node : NodeRevision)
  (build_plan_lookup : dict (list Database * BuildPlan))
  (build_plan_depth : Z) (database : Database) (dialect : option string)
  : M loc :=
  if (0 <? build_plan_depth)%Z then
    let alias := amenable_name (node_name dim_node) in
    match dict_get build_plan_lookup dim_node with
    | None => raise KeyError
    | Some (_, dim_build_plan) =>
        let dim_ast := plan_query dim_build_plan in
        Query_build dim_ast dim_build_plan (build_plan_depth - 1)%Z
          database dialect ;;;
        dim_select <- getattr dim_ast "select" ;;
        name <- new Name [VStr alias] [] ;;
        new Alias [VRef name] [("child", dim_select)]
    end
  else
    match List.filter
            (fun t => Z.eqb (database_id (table_database t))
                        (database_id database))
            (node_tables dim_node) with
    | [] => raise IndexError
    | dim_table :: _ =>
        name <- new Name [VStr (table_table dim_table)] [] ;;
        names <- mapM (fun s => n <- new Name [VStr s] [] ;; ret (VRef n))
                   (omap nonempty
                      [table_catalog dim_table; table_schema_ dim_table]) ;;
        ns <- new Namespace [VList names] [] ;;
        new Table [VRef name] [("namespace", VRef ns)]
    end.

(** The equalities of one referencing table node (lines 118-130). *)
Definition join_on (ast_tables : list loc) (cols : list ColumnDecl)
  (dim_ast : loc) : M (list value) :=
  mapM
    (fun tc =>
       lname <- new Name [VStr (column_name (snd tc))] [] ;;
       l <- new Column [VRef lname] [("_table", VRef (fst tc))] ;;
       rname <- new Name
                  [VStr (default "id"
                           (nonempty (column_dimension_column (snd tc))))] [] ;;
       r <- new Column [VRef rname] [("_table", VRef dim_ast)] ;;
       eq <- new BinaryOp [VEnum (EBinaryOp BinaryOpKind.Eq); VRef l; VRef r] [] ;;
       ret (VRef eq))
    (table ← ast_tables; col ← cols; [(table, col)]).

(** The body of the loop over [dimension_columns] for a dimension that is
    not among [tables] (lines 62-144). *)
Definition join_dimension (select : loc) (dim_node : NodeRevision)
  (dim_cols : list loc) (tables : dict (list loc))
  (build_plan_lookup : dict (list Database * BuildPlan))
  (build_plan_depth : Z) (database : Database) (dialect : option string)
  : M unit :=
  info <- lift (join_info dim_node tables) ;;
  dim_ast <- dim_source dim_node build_plan_lookup build_plan_depth
               database dialect ;;
  for_each dim_cols
    (fun dim_col => add_table dim_col (VRef dim_ast) ;;; ret tt) ;;;
  for_each info
    (fun tc =>
       match dict_get tables (fst tc) with
       | None => raise KeyError
       | Some ast_tables =>
           on <- join_on ast_tables (snd tc) dim_ast ;;
           from_ <- getnode select "from_" ;;
           getattr from_ "joins" ;;;
           cond <- reduce and_ on ;;
           j <- new Join
                  [VEnum (EJoin JoinKind.LeftOuter); VRef dim_ast; cond] [] ;;
           append_to from_ "joins" (VRef j)
       end).

(** [_build_dimensions_on_select]; the session is only handed on to
    [Query.build] and is left out. *)
Definition _build_dimensions_on_select (select : loc)
  (dimension_columns : dict (list loc)) (tables : dict (list loc))
  (build_plan_lookup : dict (list Database * BuildPlan))
  (build_plan_depth : Z) (database : Database) (dialect : option string)
  : M unit :=
  for_each dimension_columns
    (fun dc =>
       if negb (dict_mem tables (fst dc)) then
         join_dimension select (fst dc) (snd dc) tables build_plan_lookup
           build_plan_depth database dialect
       else ret tt).

(** *** add_filters_and_aggs_to_query_ast *)

(** Modelled from the spec: [Column.set_api_column] is not in ast.py; it
    marks the column as added by the API and returns it. *)
Definition set_api_column (self : loc) (api_column : bool) : M loc :=
  fun h =>
    match h !! self with
    | Some o =>
        match ocls o with
        | Column =>
            (Return self,
             <[self:=mk_obj (ocls o) (ofields o) (oparents o) api_column]> h)
        | _ => (Throw AttributeError, h)
        end
    | None => (Throw AttributeError, h)
    end.

(** Modelled from the spec: [copy] is not in ast.py; the copy is a new
    object with the attributes of the original. *)
Definition copy (self : loc) : M loc :=
  fun h =>
    match h !! self with
    | Some o => (Return (length h), h ++ [o])
    | None => (Throw AttributeError, h)
    end.

(** The loop over [filters] (lines 251-257). *)
Fixpoint filters_loop (fuel : nat) (filters : list string)
  (dialect : option string) (filter_asts : list value)
  (projection_addition : list loc) : M (list value * list loc) :=
  match filters with
  | [] => ret (filter_asts, projection_addition)
  | filter_ :: rest =>
      q <- parse ("select * where " ++ filter_) dialect ;;
      temp_select <- getnode q "select" ;;
      w <- getattr temp_select "where" ;;
      h <- get ;;
      cols <- lift (find_all fuel Column h temp_select) ;;
      filters_loop fuel rest dialect (filter_asts ++ [w])
        (projection_addition ++ cols)
  end.

(** The loop over [aggs] (lines 268-274). *)
Fixpoint aggs_loop (fuel : nat) (query : loc) (aggs : list string)
  (dialect : option string) (projection_addition : list loc)
  : M (list loc) :=
  match aggs with
  | [] => ret projection_addition
  | agg :: rest =>
      q <- parse ("select * group by " ++ agg) dialect ;;
      temp_select <- getnode q "select" ;;
      select <- getnode query "select" ;;
      group_by <- getattr temp_select "group_by" ;;
      extend select "group_by" group_by ;;;
      h <- get ;;
      cols <- lift (find_all fuel Column h temp_select) ;;
      aggs_loop fuel query rest dialect (projection_addition ++ cols)
  end.

Definition add_filters_and_aggs_to_query_ast (fuel : nat) (query : loc)
  (dialect : option string) (filters aggs : option (list string))
  : M unit :=
  projection_addition <-
    match filters with
    | Some ((_ :: _) as filters) =>
        select <- getnode query "select" ;;
        where_ <- getattr select "where" ;;
        let filter_asts := if truthy where_ then [where_] else [] in
        fp <- filters_loop fuel filters dialect filter_asts [] ;;
        w <- reduce and_ (fst fp) ;;
        select <- getnode query "select" ;;
        setattr select "where" w ;;;
        ret (snd fp)
    | _ => ret []
    end ;;
  projection_addition <-
    match aggs with
    | Some ((_ :: _) as aggs) =>
        aggs_loop fuel query aggs dialect projection_addition
    | _ => ret projection_addition
    end ;;
  select <- getnode query "select" ;;
  getattr select "projection" ;;;
  h <- get ;;
  unique <- lift (set_of_list builtin_hash fuel h projection_addition) ;;
  added <- mapM (fun col => c <- set_api_column col true ;; copy c)
             (set_iter unique) ;;
  extend select "projection" (VList (map VRef added)).

End Builder.

(** *** _build_tables_on_select and _build_select_ast *)

Section TableBuilder.

Context (amenable_name : string -> string).
Context (Query_build :
  loc -> BuildPlan -> Z -> Database -> option string -> M unit).
(** [select.replace(old, new)], which ast.py does not define. *)
Context (replace : loc -> loc -> loc -> M unit).
(** [node.node.type]: the type of the node that a revision belongs to. *)
Context (Node_type : NodeRevision -> NodeType).
Context (dj_node : loc -> option NodeRevision).

(** The node that stands for [node] in the select (lines 161-191); in the
    first branch the tables are replaced a first time. *)
Definition table_source (select : loc) (node : NodeRevision)
  (tbls : list loc) (build_plan_lookup : dict (list Database * BuildPlan))
  (build_plan_depth : Z) (database : Database) (dialect : option string)
  : M loc :=
  if negb (bool_decide (Node_type node = SOURCE)) && (0 <? build_plan_depth)%Z
  then
    match dict_get build_plan_lookup node with
    | None => raise KeyError
    | Some (_, node_build_plan) =>
        let node_ast := plan_query node_build_plan in
        Query_build node_ast node_build_plan (build_plan_depth - 1)%Z
          database dialect ;;;
        let alias := amenable_name (node_name node) in
        node_select <- getattr node_ast "select" ;;
        name <- new Name [VStr alias] [] ;;
        node_ast <- new Alias [VRef name] [("child", node_select)] ;;
        for_each tbls (fun tbl => replace select tbl node_ast) ;;;
        ret node_ast
    end
  else
    match List.filter
            (fun t => Z.eqb (database_id (table_database t))
                        (database_id database))
            (node_tables node) with
    | [] => raise IndexError
    | node_table :: _ =>
        name <- new Name [VStr (table_table node_table)] [] ;;
        names <- mapM (fun s => n <- new Name [VStr s] [] ;; ret (VRef n))
                   (omap nonempty
                      [table_catalog node_table; table_schema_ node_table]) ;;
        ns <- new Namespace [VList names] [] ;;
        new Table [VRef name] [("namespace", VRef ns)]
    end.

(** [_build_tables_on_select] *)
Definition _build_tables_on_select (select : loc)
  (tables : dict (list loc))
  (build_plan_lookup : dict (list Database * BuildPlan))
  (build_plan_depth : Z) (database : Database) (dialect : option string)
  : M unit :=
  for_each tables
    (fun nt =>
       node_ast <- table_source select (fst nt) (snd nt) build_plan_lookup
                     build_plan_depth database dialect ;;
       for_each (snd nt) (fun tbl => replace select tbl node_ast)).

(** [_build_select_ast] *)
Definition _build_select_ast (fuel : nat) (select : loc)
  (build_plan : BuildPlan) (build_plan_depth : Z) (database : Database)
  (dialect : option string) : M unit :=
  let build_plan_lookup := match build_plan with Plan _ lookup => lookup end in
  dt <- _get_tables_and_dim_cols dj_node fuel select ;;
  _build_dimensions_on_select amenable_name Query_build select (fst dt)
    (snd dt) build_plan_lookup build_plan_depth database dialect ;;;
  _build_tables_on_select select (snd dt) build_plan_lookup build_plan_depth
    database dialect.

End TableBuilder.

End build.

(** ** Properties of the AST *)
Module ast_facts.
Import py ast.
Local Open Scope string_scope.
Local Open Scope list_scope.
Local Open Scope py_scope.

(** *** The store *)

Lemma lookup_update (h : heap) (l : loc) (o o' : obj) :
  h !! l = Some o -> <[l:=o']> h !! l = Some o'.
Proof.
  intros H. apply list_lookup_insert_eq. eapply lookup_lt_Some; eauto.
Qed.

Lemma ocls_setfield (o : obj) (n : string) (v : value) :
  ocls (setfield o n v) = ocls o.
Proof. unfold setfield. destruct (index_of _ _); reflexivity. Qed.

Lemma getfield_setfield (o : obj) (n : string) (v v0 : value) :
  getfield o n = Some v0 -> getfield (setfield o n v) n = Some v.
Proof.
  unfold getfield. rewrite ocls_setfield. unfold setfield.
  destruct (index_of n (field_names (ocls o))) as [i|]; simpl; [|discriminate].
  intros H. apply list_lookup_insert_eq. eapply lookup_lt_Some; eauto.
Qed.

(** Preservation of a property of the store along a computation. *)
Definition preserves {A} (P : heap -> Prop) (m : M A) : Prop :=
  forall h, P h -> P (snd (m h)).

Lemma preserves_ret {A} (P : heap -> Prop) (a : A) : preserves P (ret a).
Proof. intros h H; exact H. Qed.

Lemma preserves_raise {A} (P : heap -> Prop) (e : exn) :
  preserves P (@raise A e).
Proof. intros h H; exact H. Qed.

Lemma preserves_bind {A B} (P : heap -> Prop) (m : M A) (f : A -> M B) :
  preserves P m -> (forall a, preserves P (f a)) -> preserves P (bind m f).
Proof.
  intros Hm Hf h H. unfold bind. specialize (Hm h H).
  destruct (m h) as [[a|e] h']; simpl in *; [apply Hf; exact Hm|exact Hm].
Qed.

Lemma preserves_for_each {A} (P : heap -> Prop) (body : A -> M unit)
  (xs : list A) :
  (forall x, preserves P (body x)) -> preserves P (for_each xs body).
Proof.
  intros Hb. induction xs as [|x xs IH]; simpl.
  - apply preserves_ret.
  - apply preserves_bind; [apply Hb|intros _; exact IH].
Qed.

Lemma preserves_getattr (P : heap -> Prop) (l : loc) (n : string) :
  preserves P (getattr l n).
Proof.
  intros h H. unfold getattr. destruct (h !! l) as [o|]; [|exact H].
  destruct (getfield o n); exact H.
Qed.

(** *** Number literals *)

(** C9: a Number built from a string holds the integer the string denotes
    when it denotes one and otherwise the float it denotes (ValueError when
    neither); ["5"] gives the integer 5 and ["5.5"] the float 5.5; an int
    or a float is kept as it is. *)
Theorem Number_normalizes_int_first :
  (forall s,
      Number__post_init__ (VStr s) =
      match int_of_string s with
      | Some z => Return (VInt z)
      | None =>
          match float_of_string s with
          | Some f => Return (VFloat f)
          | None => Throw ValueError
          end
      end)
  /\ (forall h, new Number [VStr "5"] [] h
                = (Return (length h), h ++ [mk_obj Number [VInt 5] [] false]))
  /\ (forall h, new Number [VStr "5.5"] [] h
                = (Return (length h),
                   h ++ [mk_obj Number [VFloat (FFin (11 # 2))] [] false]))
  /\ (forall h z, new Number [VInt z] [] h
                  = (Return (length h), h ++ [mk_obj Number [VInt z] [] false]))
  /\ (forall h f, new Number [VFloat f] [] h
                  = (Return (length h), h ++ [mk_obj Number [VFloat f] [] false])).
Proof.
  refine (conj _ (conj _ (conj _ (conj _ _)))).
  - intros s. unfold Number__post_init__, py_int, py_float.
    destruct (int_of_string s); [reflexivity|].
    destruct (float_of_string s); reflexivity.
  - intros h. reflexivity.
  - intros h. vm_compute. reflexivity.
  - intros h z. reflexivity.
  - intros h f. reflexivity.
Qed.

(** *** The table binding of a Column or Wildcard *)

Lemma table_Some (h : heap) (c : loc) (t0 : value) :
  table h c = Some t0 ->
  exists o, h !! c = Some o /\ getfield o "_table" = Some t0.
Proof.
  unfold table. destruct (h !! c) as [o|]; simpl; [eauto|discriminate].
Qed.

Lemma add_table_bound (h : heap) (c : loc) (t0 t : value) :
  table h c = Some t0 -> t0 <> VNone -> add_table c t h = (Return c, h).
Proof.
  intros (o & Ho & Hf)%table_Some Hne.
  unfold add_table, bind, getattr. rewrite Ho, Hf.
  destruct t0; try reflexivity. congruence.
Qed.

Lemma add_table_unbound (h : heap) (c : loc) (o : obj) (t : value) :
  h !! c = Some o -> getfield o "_table" = Some VNone ->
  add_table c t h = (Return c, <[c:=setfield o "_table" t]> h).
Proof.
  intros Ho Hf. unfold add_table, bind, getattr, setattr. rewrite Ho, Hf.
  simpl. rewrite Ho. reflexivity.
Qed.

(** C7: on a Column or Wildcard without a table, [add_table t1] binds
    [t1] and a later [add_table t2] changes nothing; on any store,
    [add_table] leaves an object whose table is set as it is. *)
Theorem add_table_first_writer_wins (h : heap) (c : loc) (t1 t2 : value) :
  table h c = Some VNone ->
  t1 <> VNone ->
  (exists h1, add_table c t1 h = (Return c, h1)
              /\ table h1 c = Some t1
              /\ add_table c t2 h1 = (Return c, h1))
  /\ (forall h' c' t0 t,
         table h' c' = Some t0 -> t0 <> VNone ->
         add_table c' t h' = (Return c', h')).
Proof.
  intros Ht Hne. split.
  - destruct (table_Some _ _ _ Ht) as (o & Ho & Hf).
    eexists. split; [apply add_table_unbound; eassumption|].
    assert (Ht1 : table (<[c:=setfield o "_table" t1]> h) c = Some t1).
    { unfold table. erewrite lookup_update by eassumption. simpl.
      eapply getfield_setfield; eassumption. }
    split; [exact Ht1|]. eapply add_table_bound; eassumption.
  - intros h' c' t0 t. apply add_table_bound.
Qed.

Definition unbound_column : heap :=
  [mk_obj Column [VStr "x"; VNone; VNone] [] false;
   mk_obj Table [VStr "a"; VNone; VList []] [] false;
   mk_obj Table [VStr "b"; VNone; VList []] [] false].

Lemma add_table_first_writer_wins_witness :
  (exists h1, add_table 0 (VRef 1) unbound_column = (Return 0, h1)
              /\ table h1 0 = Some (VRef 1)
              /\ add_table 0 (VRef 2) h1 = (Return 0, h1))
  /\ (forall h' c' t0 t,
         table h' c' = Some t0 -> t0 <> VNone ->
         add_table c' t h' = (Return c', h')).
Proof.
  apply (add_table_first_writer_wins unbound_column 0 (VRef 1) (VRef 2)).
  - reflexivity.
  - discriminate.
Defined.

(** A Wildcard given the table [a] and then the table [b], as in the
    test suite: it keeps [a]. *)
Example wildcard_keeps_first_table :
  let h := [mk_obj Wildcard [VNone] [] false;
            mk_obj Table [VStr "a"; VNone; VList []] [] false;
            mk_obj Table [VStr "b"; VNone; VList []] [] false] in
  table (snd ((add_table 0 (VRef 1) ;;; add_table 0 (VRef 2)) h)) 0
  = Some (VRef 1).
Proof. reflexivity. Qed.

(** *** What comparison can see *)

(** What [==], [children] and [diff] can see of an object: its class and
    the fields without leading underscore. *)
Definition view (o : obj) : cls * list value :=
  (ocls o, fields false false false true o).

Definition heap_view (h : heap) : list (cls * list value) := map view h.

Lemma view_lookup (h h' : heap) (l : loc) :
  heap_view h = heap_view h' ->
  match h !! l, h' !! l with
  | Some o, Some o' => view o = view o'
  | None, None => True
  | _, _ => False
  end.
Proof.
  intros H. unfold heap_view in H.
  assert (Hx : (view <$> h) !! l = (view <$> h') !! l).
  { change ((map view h) !! l = (map view h') !! l). now rewrite H. }
  rewrite !list_lookup_fmap in Hx.
  destruct (h !! l), (h' !! l); simpl in Hx; first [congruence | exact I].
Qed.

Lemma fields_of_view (o o' : obj) (flat nodes_only nones : bool) :
  view o = view o' ->
  fields flat nodes_only false nones o = fields flat nodes_only false nones o'.
Proof.
  unfold view. intros [= Hc Hf]. unfold fields in *. simpl in *.
  rewrite Hf. reflexivity.
Qed.

Lemma children_view (h h' : heap) (l : loc) :
  heap_view h = heap_view h' -> children h l = children h' l.
Proof.
  intros H. pose proof (view_lookup h h' l H) as Hl. unfold children.
  destruct (h !! l) as [o|], (h' !! l) as [o'|]; try contradiction;
    [|reflexivity].
  now rewrite (fields_of_view o o' _ _ _ Hl).
Qed.

Lemma type_of_view (h h' : heap) (v : value) :
  heap_view h = heap_view h' -> type_of h v = type_of h' v.
Proof.
  intros H. destruct v; try reflexivity. simpl.
  pose proof (view_lookup h h' l H) as Hl.
  destruct (h !! l) as [o|], (h' !! l) as [o'|]; try contradiction;
    [|reflexivity].
  unfold view in Hl. now injection Hl as -> _.
Qed.

Lemma forallb_pointwise {A} (f g : A -> bool) (l : list A) :
  (forall x, f x = g x) -> forallb f l = forallb g l.
Proof.
  intros H. induction l as [|x l IH]; simpl; [reflexivity|].
  now rewrite H, IH.
Qed.

Lemma eq_view (h h' : heap) (a : loc) (v : value) :
  heap_view h = heap_view h' -> __eq__ h a v = __eq__ h' a v.
Proof.
  intros H. unfold __eq__.
  pose proof (view_lookup h h' a H) as Ha.
  destruct (h !! a) as [oa|], (h' !! a) as [oa'|]; try contradiction;
    [|reflexivity].
  destruct v; try reflexivity.
  pose proof (view_lookup h h' l H) as Hb.
  destruct (h !! l) as [ob|], (h' !! l) as [ob'|]; try contradiction;
    [|reflexivity].
  rewrite (fields_of_view _ _ false false true Ha).
  rewrite (fields_of_view _ _ false false true Hb).
  unfold view in Ha, Hb. injection Ha as -> _. injection Hb as -> _.
  f_equal. apply forallb_pointwise. intros [s o]. unfold field_eq. simpl.
  now rewrite !(type_of_view h h' _ H).
Qed.

Lemma ne_view (h h' : heap) (a b : option loc) :
  heap_view h = heap_view h' -> ne h a b = ne h' a b.
Proof.
  intros H. destruct a, b; simpl; try reflexivity;
    now rewrite (eq_view h h' _ _ H).
Qed.

Lemma ofold_ext {A S} (f g : S -> A -> outcome S) (xs : list A) (s : S) :
  (forall s x, f s x = g s x) -> ofold f xs s = ofold g xs s.
Proof.
  intros H. revert s. induction xs as [|x xs IH]; intros s; simpl; [reflexivity|].
  rewrite H. destruct (g s x); simpl; [apply IH|reflexivity].
Qed.

Lemma _diff_view (fuel : nat) (h h' : heap) (a b : option loc) (acc : list pair_) :
  heap_view h = heap_view h' -> _diff fuel h a b acc = _diff fuel h' a b acc.
Proof.
  intros H. revert a b acc. induction fuel as [|n IH]; intros a b acc; simpl;
    [reflexivity|].
  rewrite (ne_view h h' a b H). destruct (ne h' a b); [reflexivity|].
  destruct a as [a|], b as [b|]; try reflexivity.
  rewrite !(children_view h h' _ H). apply ofold_ext. intros; apply IH.
Qed.

(** *** Back-references stay out of comparison *)

Lemma heap_view_update (h : heap) (l : loc) (o o' : obj) :
  h !! l = Some o -> view o' = view o ->
  heap_view (<[l:=o']> h) = heap_view h.
Proof.
  intros Ho Hv. unfold heap_view.
  change (view <$> <[l:=o']> h = view <$> h).
  rewrite list_fmap_insert. apply list_insert_id.
  rewrite list_lookup_fmap, Ho, Hv. reflexivity.
Qed.

Lemma view_with_parents (o : obj) (s : pyset) : view (with_parents o s) = view o.
Proof. reflexivity. Qed.

Lemma view_set_table (o : obj) (v : value) :
  view (setfield o "_table" v) = view o.
Proof.
  unfold view. rewrite ocls_setfield. f_equal.
  unfold setfield, fields.
  destruct o as [c fs ps api]. simpl.
  destruct c; simpl; try reflexivity.
  - destruct fs as [|a [|b [|d fs]]]; reflexivity.
  - destruct fs as [|a fs]; reflexivity.
Qed.

Section BackReferences.
Context (builtin_hash : hkey -> Z).

Lemma parents_add_view (fuel : nat) (self p : loc) (h0 : heap) :
  preserves (fun h => heap_view h = heap_view h0)
    (parents_add builtin_hash fuel self p).
Proof.
  intros h H. unfold parents_add.
  destruct (h !! self) as [o|] eqn:Ho; [|exact H].
  destruct (__hash__ builtin_hash fuel h p); [|exact H].
  destruct (set_contains h (oparents o) a p); [exact H|]. simpl.
  rewrite (heap_view_update h self o); [exact H|exact Ho|reflexivity].
Qed.

Lemma add_parents_view (fuel : nat) (self : loc) (ps : list loc) (h0 : heap) :
  preserves (fun h => heap_view h = heap_view h0)
    (add_parents builtin_hash fuel self ps).
Proof.
  unfold add_parents. apply preserves_bind.
  - apply preserves_for_each. intros p. apply parents_add_view.
  - intros _. apply preserves_ret.
Qed.

Lemma add_table_view (self : loc) (t : value) (h0 : heap) :
  preserves (fun h => heap_view h = heap_view h0) (add_table self t).
Proof.
  unfold add_table. apply preserves_bind; [apply preserves_getattr|].
  intros v. apply preserves_bind; [|intros _; apply preserves_ret].
  destruct v; try apply preserves_ret.
  intros h H. unfold setattr. destruct (h !! self) as [o|] eqn:Ho; [|exact H].
  simpl. rewrite (heap_view_update h self o); [exact H|exact Ho|].
  apply view_set_table.
Qed.

(** A call that sets a back-reference of some node of either tree. *)
Inductive backref_call :=
| Call_add_parents (self : loc) (parents : list loc)
| Call_add_table (self : loc) (table : value).

(** The store after the call, whether it returns or raises. *)
Definition after_call (fuel : nat) (h : heap) (c : backref_call) : heap :=
  match c with
  | Call_add_parents self ps => snd (add_parents builtin_hash fuel self ps h)
  | Call_add_table self t => snd (add_table self t h)
  end.

Definition after_calls (fuel : nat) (cs : list backref_call) (h : heap) : heap :=
  fold_left (after_call fuel) cs h.

Lemma after_calls_view (fuel : nat) (cs : list backref_call) (h : heap) :
  heap_view (after_calls fuel cs h) = heap_view h.
Proof.
  unfold after_calls. revert h. induction cs as [|c cs IH]; intros h; simpl;
    [reflexivity|].
  rewrite IH. destruct c as [self ps|self t]; simpl.
  - apply (add_parents_view fuel self ps h h). reflexivity.
  - apply (add_table_view self t h h). reflexivity.
Qed.

(** C3: after any sequence of [add_parents] and [add_table] calls on any
    nodes of the store, [a == b], [a.diff(b)] and [a.compare(b)] give what
    they gave before. *)
Theorem comparison_ignores_back_references (fuel : nat)
  (cs : list backref_call) (h : heap) (a b : loc) (n : nat) :
  __eq__ (after_calls fuel cs h) a (VRef b) = __eq__ h a (VRef b)
  /\ diff n (after_calls fuel cs h) a b = diff n h a b
  /\ compare n (after_calls fuel cs h) a b = compare n h a b.
Proof.
  pose proof (after_calls_view fuel cs h) as H.
  split; [apply eq_view; exact H|].
  assert (Hd : diff n (after_calls fuel cs h) a b = diff n h a b)
    by (apply _diff_view; exact H).
  split; [exact Hd|]. unfold compare. now rewrite Hd.
Qed.

End BackReferences.

(** *** diff and compare *)

(** The mismatches of a pair of nodes, as a relation.  A pair that is not
    shallow-equal is itself the only mismatch, and its children are not
    looked at; for a shallow-equal pair the mismatches are those of its
    children taken position by position, a missing position being None,
    in order. *)
Inductive Diff (h : heap) : option loc -> option loc -> list pair_ -> Prop :=
| Diff_mismatch (self other : option loc) :
    ne h self other = true ->
    Diff h self other [(self, other)]
| Diff_match (a b : loc) (ds : list pair_) :
    ne h (Some a) (Some b) = false ->
    DiffChildren h (zip_longest (children h a) (children h b)) ds ->
    Diff h (Some a) (Some b) ds
with DiffChildren (h : heap) : list pair_ -> list pair_ -> Prop :=
| DiffChildren_nil : DiffChildren h [] []
| DiffChildren_cons (c oc : option loc) (rest ds1 ds2 : list pair_) :
    Diff h c oc ds1 ->
    DiffChildren h rest ds2 ->
    DiffChildren h ((c, oc) :: rest) (ds1 ++ ds2).

Scheme Diff_mutind := Minimality for Diff Sort Prop
  with DiffChildren_mutind := Minimality for DiffChildren Sort Prop.
Combined Scheme Diff_DiffChildren_ind from Diff_mutind, DiffChildren_mutind.

#[local] Arguments ne : simpl never.

(** The loop of [_diff] over the paired children. *)
Definition diff_children (fuel : nat) (h : heap) (ps acc : list pair_)
  : outcome (list pair_) :=
  ofold (fun diffs co => _diff fuel h (fst co) (snd co) diffs) ps acc.

Lemma diff_children_sound (fuel : nat) (h : heap) :
  (forall self other acc out,
      _diff fuel h self other acc = Return out ->
      exists ds, out = acc ++ ds /\ Diff h self other ds) ->
  forall ps acc out,
    diff_children fuel h ps acc = Return out ->
    exists ds, out = acc ++ ds /\ DiffChildren h ps ds.
Proof.
  intros IH. unfold diff_children.
  induction ps as [|[c oc] ps IHps]; intros acc out; simpl.
  - intros [= <-]. exists []. split; [now rewrite app_nil_r|constructor].
  - destruct (_diff fuel h c oc acc) as [acc'|e] eqn:E; simpl; [|discriminate].
    intros Hrest. destruct (IH _ _ _ _ E) as (ds1 & -> & H1).
    destruct (IHps _ _ Hrest) as (ds2 & -> & H2).
    exists (ds1 ++ ds2). split; [now rewrite app_assoc|now constructor].
Qed.

Lemma _diff_sound (fuel : nat) (h : heap) (self other : option loc)
  (acc out : list pair_) :
  _diff fuel h self other acc = Return out ->
  exists ds, out = acc ++ ds /\ Diff h self other ds.
Proof.
  revert self other acc out. induction fuel as [|n IH]; intros self other acc out;
    simpl; [discriminate|].
  destruct (ne h self other) eqn:Hne.
  - intros [= <-]. eexists. split; [reflexivity|now constructor].
  - destruct self as [a|], other as [b|]; try discriminate.
    intros H. destruct (diff_children_sound n h IH _ _ _ H) as (ds & -> & Hds).
    exists ds. split; [reflexivity|now constructor].
Qed.

Lemma _diff_complete (h : heap) :
  (forall self other ds,
      Diff h self other ds ->
      exists n, forall fuel acc, n <= fuel ->
        _diff fuel h self other acc = Return (acc ++ ds))
  /\ (forall ps ds,
         DiffChildren h ps ds ->
         exists n, forall fuel acc, n <= fuel ->
           diff_children fuel h ps acc = Return (acc ++ ds)).
Proof.
  apply Diff_DiffChildren_ind.
  - intros self other Hne. exists 1. intros [|k] acc Hk; [lia|].
    simpl. now rewrite Hne.
  - intros a b ds Hne _ [n Hn]. exists (S n). intros [|k] acc Hk; [lia|].
    simpl. rewrite Hne. apply Hn. lia.
  - exists 0. intros fuel acc _. unfold diff_children. simpl.
    now rewrite app_nil_r.
  - intros c oc rest ds1 ds2 _ [n1 H1] _ [n2 H2]. exists (Nat.max n1 n2).
    intros fuel acc Hk. unfold diff_children. simpl.
    rewrite H1 by lia. simpl. fold (diff_children fuel h rest (acc ++ ds1)).
    rewrite H2 by lia. now rewrite app_assoc.
Qed.

(** C4: [a.diff(b)] returns [ds] with enough recursion depth exactly when
    [ds] lists the mismatches of the lock-step walk, and [a.compare(b)] is
    whether that list is empty. *)
Theorem diff_walks_in_lock_step (h : heap) (a b : loc) :
  (forall ds,
      (exists fuel, diff fuel h a b = Return ds)
      <-> Diff h (Some a) (Some b) ds)
  /\ (forall fuel,
         compare fuel h a b =
         match diff fuel h a b with
         | Return ds => Return (bool_decide (ds = []))
         | Throw e => Throw e
         end).
Proof.
  split.
  - intros ds. split.
    + intros [fuel H]. destruct (_diff_sound _ _ _ _ _ _ H) as (ds' & -> & Hd).
      exact Hd.
    + intros H. destruct (proj1 (_diff_complete h) _ _ _ H) as [n Hn].
      exists n. apply (Hn n []). lia.
  - intros fuel. unfold compare.
    destruct (diff fuel h a b) as [[|d ds]|e]; reflexivity.
Qed.

(** [SELECT a FROM a] against [SELECT a FROM b], as in the test suite:
    the only mismatch is the pair of tables. *)
Definition from_a_from_b : heap :=
  [mk_obj Table [VStr "a"; VNone; VList []] [] false;
   mk_obj Column [VStr "a"; VNone; VNone] [] false;
   mk_obj From [VRef 0; VList []] [] false;
   mk_obj Select
     [VBool false; VRef 2; VList []; VNone; VList [VRef 1]; VNone; VNone]
     [] false;
   mk_obj Query [VRef 3; VList []] [] false;
   mk_obj Table [VStr "b"; VNone; VList []] [] false;
   mk_obj Column [VStr "a"; VNone; VNone] [] false;
   mk_obj From [VRef 5; VList []] [] false;
   mk_obj Select
     [VBool false; VRef 7; VList []; VNone; VList [VRef 6]; VNone; VNone]
     [] false;
   mk_obj Query [VRef 8; VList []] [] false].

Example diff_of_two_queries :
  diff 5 from_a_from_b 4 9 = Return [(Some 0, Some 5)]
  /\ compare 5 from_a_from_b 4 9 = Return false
  /\ compare 5 from_a_from_b 4 4 = Return true
  /\ diff 3 from_a_from_b 4 9 = Throw RecursionError.
Proof. repeat split. Qed.

(** *** Hash and shallow equality *)

(** An object built by a constructor has one value per field. *)
Definition well_formed (o : obj) : Prop :=
  length (ofields o) = length (dataclass_fields (ocls o)).

(** The classes whose hash is made of the class and of fields that [==]
    compares by value. *)
Definition hashes_compared_fields (c : cls) : bool :=
  match c with
  | Name | Namespace | Function | IsNull | Number | String | Boolean
  | Wildcard => true
  | _ => false
  end.

(** The value of a literal is of a primitive type. *)
Definition literal_is_primitive (h : heap) (o : obj) : Prop :=
  match ocls o with
  | Number | String | Boolean =>
      forall v, getfield o "value" = Some v -> primitives (type_of h v) = true
  | _ => True
  end.

Definition str_part (v : value) : option string :=
  match v with
  | VStr s => Some s
  | _ => None
  end.

Lemma field_eq_str_part (h : heap) (s o : value) :
  field_eq h s o = true -> str_part s = str_part o.
Proof.
  unfold field_eq.
  destruct s, o; simpl; try reflexivity; try discriminate;
    try (destruct (h !! _); simpl; discriminate || (intros; reflexivity)).
  intros H. apply String.eqb_eq in H. now subst.
Qed.

Lemma float_eqb_key (x y : pyfloat) :
  float_eqb x y = true -> float_key x = float_key y.
Proof.
  destruct x as [p|bx|], y as [q|by_|]; simpl; try discriminate.
  - intros H. apply Qeq_bool_iff in H. f_equal. now apply Qred_complete.
  - intros H. apply Bool.eqb_prop in H. now subst.
Qed.

Lemma py_eq_key (h : heap) (f : loc -> outcome Z) (s o : value) :
  primitives (type_of h s) = true -> py_eq s o = true ->
  value_key f s = value_key f o.
Proof.
  intros Hp He.
  destruct s; simpl in Hp; try discriminate;
    destruct o; cbv [py_eq num_of] in He; try discriminate;
    cbv [value_key num_of];
    try reflexivity;
    try (now rewrite (float_eqb_key _ _ He));
    try (apply String.eqb_eq in He; now subst).
Qed.

Lemma eq_inv (h : heap) (a b : loc) (oa ob : obj) :
  h !! a = Some oa -> h !! b = Some ob ->
  __eq__ h a (VRef b) = true ->
  ocls oa = ocls ob
  /\ forallb (fun so => field_eq h (fst so) (snd so))
       (zip (fields false false false true oa)
            (fields false false false true ob)) = true.
Proof.
  intros Ha Hb. unfold __eq__. rewrite Ha, Hb.
  intros [H1 H2]%andb_true_iff. split; [|exact H2].
  now apply bool_decide_eq_true in H1.
Qed.

(** The name and the quote style of a Name are strings. *)
Definition name_is_text (o : obj) : Prop :=
  match ocls o with
  | Name => exists nm q, ofields o = [VStr nm; VStr q]
  | _ => True
  end.

(** For each class whose hash is not made of compared fields, a store
    with two nodes of the class that are shallow-equal: two operations
    that differ by the operator, two joins that differ by the kind, two
    nodes named by different Name nodes, two ranges with different
    bounds, and two nodes built apart for the classes hashed by
    identity. *)
Definition twins (c : cls) : heap * (loc * loc) :=
  let number z := mk_obj Number [VInt z] [] false in
  let name s := mk_obj Name [VStr s; VStr ""] [] false in
  let table n := mk_obj Table [VRef n; VNone; VList []] [] false in
  let select f :=
    mk_obj Select
      [VBool false; VRef f; VList []; VNone; VList []; VNone; VNone] []
      false in
  match c with
  | UnaryOp =>
      ([number 1%Z;
        mk_obj UnaryOp [VEnum (EUnaryOp UnaryOpKind.Plus); VRef 0] [] false;
        mk_obj UnaryOp [VEnum (EUnaryOp UnaryOpKind.Minus); VRef 0] [] false],
       (1, 2))
  | BinaryOp =>
      ([number 1%Z; number 2%Z;
        mk_obj BinaryOp [VRef 0; VEnum (EBinaryOp BinaryOpKind.And); VRef 1]
          [] false;
        mk_obj BinaryOp [VRef 0; VEnum (EBinaryOp BinaryOpKind.Or); VRef 1]
          [] false],
       (2, 3))
  | Between =>
      ([number 0%Z; number 1%Z; number 2%Z; number 3%Z; number 4%Z;
        mk_obj Between [VRef 0; VRef 1; VRef 2] [] false;
        mk_obj Between [VRef 0; VRef 3; VRef 4] [] false],
       (5, 6))
  | Case =>
      ([mk_obj Case [VList []; VNone; VNone; VList []] [] false;
        mk_obj Case [VList []; VNone; VNone; VList []] [] false],
       (0, 1))
  | Alias =>
      ([name "a"; name "b"; name "t"; table 2;
        mk_obj Alias [VRef 0; VNone; VRef 3] [] false;
        mk_obj Alias [VRef 1; VNone; VRef 3] [] false],
       (4, 5))
  | Column =>
      ([name "a"; name "b";
        mk_obj Column [VRef 0; VNone; VNone] [] false;
        mk_obj Column [VRef 1; VNone; VNone] [] false],
       (2, 3))
  | Table => ([name "a"; name "b"; table 0; table 1], (2, 3))
  | Join =>
      ([name "t"; table 0; mk_obj Boolean [VBool true] [] false;
        mk_obj Join [VEnum (EJoin JoinKind.Inner); VRef 1; VRef 2] [] false;
        mk_obj Join [VEnum (EJoin JoinKind.LeftOuter); VRef 1; VRef 2] []
          false],
       (3, 4))
  | From =>
      ([name "t"; table 0;
        mk_obj From [VRef 1; VList []] [] false;
        mk_obj From [VRef 1; VList []] [] false],
       (2, 3))
  | Select =>
      ([name "t"; table 0; mk_obj From [VRef 1; VList []] [] false;
        select 2; select 2],
       (3, 4))
  | Query =>
      ([name "t"; table 0; mk_obj From [VRef 1; VList []] [] false;
        select 2;
        mk_obj Query [VRef 3; VList []] [] false;
        mk_obj Query [VRef 3; VList []] [] false],
       (4, 5))
  | _ => ([], (0, 0))
  end.

(** The hash tells apart the two things that the twins of class [c]
    hand to it: the tuples with the two operators or join kinds, with
    the hashes of the names [a] and [b], or with the hashes of the
    bounds.  Nothing is asked for the classes hashed by identity. *)
Definition tells_apart (builtin_hash : hkey -> Z) (c : cls) : Prop :=
  let named s := KHashed (builtin_hash (KStr s)) in
  let number z :=
    KHashed (builtin_hash (KTuple [KType Number; KNum (inject_Z z)])) in
  match c with
  | UnaryOp =>
      builtin_hash (KTuple [KType UnaryOp; KStr "Plus"])
      <> builtin_hash (KTuple [KType UnaryOp; KStr "Minus"])
  | BinaryOp =>
      builtin_hash (KTuple [KType BinaryOp; KStr "And"])
      <> builtin_hash (KTuple [KType BinaryOp; KStr "Or"])
  | Join =>
      builtin_hash (KTuple [KType Join; KStr "Inner"])
      <> builtin_hash (KTuple [KType Join; KStr "LeftOuter"])
  | Alias | Column | Table =>
      builtin_hash (KTuple [KType c; named "a"])
      <> builtin_hash (KTuple [KType c; named "b"])
  | Between =>
      builtin_hash (KTuple [KType Between; number 1%Z; number 2%Z])
      <> builtin_hash (KTuple [KType Between; number 3%Z; number 4%Z])
  | _ => True
  end.

(** The twins of class [c] are two nodes of that class in a store of
    nodes that have all their fields; they are shallow-equal, and their
    hashes differ under every hash that tells their keys apart. *)
Definition hashed_apart (c : cls) : Prop :=
  let h := fst (twins c) in
  let a := fst (snd (twins c)) in
  let b := snd (snd (twins c)) in
  Forall well_formed h
  /\ type_of h (VRef a) = TNode c /\ type_of h (VRef b) = TNode c
  /\ __eq__ h a (VRef b) = true
  /\ forall builtin_hash fuel,
       tells_apart builtin_hash c ->
       __hash__ builtin_hash (S (S (S fuel))) h a
       <> __hash__ builtin_hash (S (S (S fuel))) h b.

(** Name(2**53, 1) and Name(float(2**53), 1). *)
Definition numeric_names : heap :=
  [mk_obj Name [VInt (2 ^ 53); VInt 1] [] false;
   mk_obj Name [VFloat (FFin (inject_Z (2 ^ 53))); VInt 1] [] false].

(** The two names are shallow-equal; the first hashes the int
    [2**53 + 1], the second the float that the sum rounds to, which is
    [2**53]. *)
Definition numeric_names_hashed_apart : Prop :=
  __eq__ numeric_names 0 (VRef 1) = true
  /\ forall builtin_hash fuel,
       __hash__ builtin_hash (S fuel) numeric_names 0
       = Return (builtin_hash (KNum (inject_Z (2 ^ 53 + 1))))
       /\ __hash__ builtin_hash (S fuel) numeric_names 1
          = Return (builtin_hash (KNum (inject_Z (2 ^ 53)))).

Lemma twins_hashed_apart (c : cls) :
  hashes_compared_fields c = false -> hashed_apart c.
Proof.
  intros Hc. unfold hashed_apart.
  destruct c; try discriminate; cbn [twins fst snd];
    (split; [repeat constructor|]);
    (split; [reflexivity|]); (split; [reflexivity|]);
    (split; [reflexivity|]);
    intros builtin_hash fuel Hsep E; vm_compute in E;
    first [discriminate E | apply Hsep; now injection E].
Qed.

Lemma numeric_names_apart : numeric_names_hashed_apart.
Proof.
  split; [vm_compute; reflexivity|].
  intros builtin_hash fuel. split; vm_compute; reflexivity.
Qed.

Section HashConsistency.
Context (builtin_hash : hkey -> Z).

(** C2, amended: for two nodes of one of the classes Name, Namespace,
    Function, IsNull, Number, String, Boolean and Wildcard, built by their
    constructors, a Name holding strings and a literal a primitive value,
    shallow equality implies equal hash (or the same exception from
    both); there are nodes of one class with equal hash that are not
    shallow-equal; for each of the other eleven classes there are two
    shallow-equal nodes whose hashes differ, always for Case, From,
    Select and Query, which hash by identity, and under every hash that
    tells the hashed operators, kinds, names or bounds apart for UnaryOp,
    BinaryOp, Join, Alias, Column, Table and Between; and two
    shallow-equal Names that hold numbers hash different numbers. *)
Theorem shallow_equal_implies_equal_hash (fuel : nat) (h : heap) (a b : loc)
  (oa ob : obj) :
  h !! a = Some oa -> h !! b = Some ob ->
  well_formed oa -> well_formed ob ->
  hashes_compared_fields (ocls oa) = true ->
  name_is_text oa ->
  literal_is_primitive h oa ->
  __eq__ h a (VRef b) = true ->
  __hash__ builtin_hash fuel h a = __hash__ builtin_hash fuel h b
  /\ (exists h' a' b',
        type_of h' (VRef a') = type_of h' (VRef b')
        /\ __hash__ builtin_hash 1 h' a' = __hash__ builtin_hash 1 h' b'
        /\ __eq__ h' a' (VRef b') = false)
  /\ (forall c, hashes_compared_fields c = false -> hashed_apart c)
  /\ numeric_names_hashed_apart.
Proof.
  intros Ha Hb Wa Wb Hc Hn Hl He. split; [|split; [|split]].
  - destruct (eq_inv _ _ _ _ _ Ha Hb He) as [Hcls Hf].
    destruct fuel as [|n]; [reflexivity|]. simpl. rewrite Ha, Hb.
    unfold well_formed in Wa, Wb.
    unfold literal_is_primitive in Hl. unfold name_is_text in Hn.
    destruct oa as [ca fa pa apia], ob as [cb fb pb apib]. simpl in *. subst cb.
    destruct ca; try discriminate; simpl in *; try reflexivity.
    + (* Name *)
      destruct Hn as (nm & q & ->).
      destruct fb as [|n2 [|q2 [|]]]; try discriminate.
      unfold fields, getfield in *. simpl in *.
      apply andb_true_iff in Hf as [H1 H2].
      apply andb_true_iff in H2 as [H2 _].
      apply field_eq_str_part in H1, H2.
      destruct n2; try discriminate. destruct q2; try discriminate.
      simpl in H1, H2. injection H1 as <-. injection H2 as <-.
      reflexivity.
    + (* Number *)
      destruct fa as [|v1 [|]]; try discriminate.
      destruct fb as [|v2 [|]]; try discriminate.
      unfold fields, getfield, field_eq in *. simpl in *.
      specialize (Hl v1 eq_refl). rewrite Hl in Hf.
      apply andb_true_iff in Hf as [H1 _].
      now rewrite (py_eq_key h _ _ _ Hl H1).
    + (* String *)
      destruct fa as [|v1 [|]]; try discriminate.
      destruct fb as [|v2 [|]]; try discriminate.
      unfold fields, getfield, field_eq in *. simpl in *.
      specialize (Hl v1 eq_refl). rewrite Hl in Hf.
      apply andb_true_iff in Hf as [H1 _].
      now rewrite (py_eq_key h _ _ _ Hl H1).
    + (* Boolean *)
      destruct fa as [|v1 [|]]; try discriminate.
      destruct fb as [|v2 [|]]; try discriminate.
      unfold fields, getfield, field_eq in *. simpl in *.
      specialize (Hl v1 eq_refl). rewrite Hl in Hf.
      apply andb_true_iff in Hf as [H1 _].
      now rewrite (py_eq_key h _ _ _ Hl H1).
  - exists [mk_obj Function [VStr "f"; VNone; VList []] [] false;
            mk_obj Function [VStr "g"; VNone; VList []] [] false], 0, 1.
    repeat split.
  - apply twins_hashed_apart.
  - apply numeric_names_apart.
Qed.

End HashConsistency.

(** Number(1) and Number(1.0): equal, and hashed alike. *)
Definition one_and_one : heap :=
  [mk_obj Number [VInt 1] [] false; mk_obj Number [VFloat (FFin 1)] [] false].

Lemma shallow_equal_implies_equal_hash_witness :
  __hash__ (fun _ => 0%Z) 2 one_and_one 0 = __hash__ (fun _ => 0%Z) 2 one_and_one 1
  /\ (exists h' a' b',
        type_of h' (VRef a') = type_of h' (VRef b')
        /\ __hash__ (fun _ => 0%Z) 1 h' a' = __hash__ (fun _ => 0%Z) 1 h' b'
        /\ __eq__ h' a' (VRef b') = false)
  /\ (forall c, hashes_compared_fields c = false -> hashed_apart c)
  /\ numeric_names_hashed_apart.
Proof.
  apply (shallow_equal_implies_equal_hash (fun _ => 0%Z) 2 one_and_one 0 1
           (mk_obj Number [VInt 1] [] false)
           (mk_obj Number [VFloat (FFin 1)] [] false)).
  - reflexivity.
  - reflexivity.
  - reflexivity.
  - reflexivity.
  - reflexivity.
  - exact I.
  - intros v [= <-]. reflexivity.
  - reflexivity.
Defined.

(** A hash that tells apart what the twins of every class hand to it:
    it goes by the length and the first character of a string and by the
    value of a number, and it weighs the elements of a tuple by their
    place. *)
Fixpoint sample_hash (k : hkey) : Z :=
  match k with
  | KStr s =>
      (Z.of_nat (String.length s)
       + 16 * match s with
              | String.String c _ => Z.of_nat (nat_of_ascii c)
              | String.EmptyString => 0
              end)%Z
  | KNum q => Qnum q
  | KHashed z => z
  | KTuple ks =>
      (fix weigh (ks : list hkey) : Z :=
         match ks with
         | [] => 0%Z
         | k :: ks' => (sample_hash k + 31 * weigh ks')%Z
         end) ks
  | _ => 0%Z
  end.

Example sample_hash_tells_apart (c : cls) : tells_apart sample_hash c.
Proof. destruct c; vm_compute; first [exact I | discriminate]. Qed.

(** Two Select statements built apart, each over [FROM a]. *)
Definition two_selects : heap :=
  [mk_obj Table [VStr "a"; VNone; VList []] [] false;
   mk_obj From [VRef 0; VList []] [] false;
   mk_obj Select
     [VBool false; VRef 1; VList []; VNone; VList []; VNone; VNone] [] false;
   mk_obj Table [VStr "a"; VNone; VList []] [] false;
   mk_obj From [VRef 3; VList []] [] false;
   mk_obj Select
     [VBool false; VRef 4; VList []; VNone; VList []; VNone; VNone] [] false].

(** C2 as stated fails: the two Selects are shallow-equal (and even
    compare-equal), yet each hashes to its own identity. *)
Lemma shallow_equal_selects_hash_apart :
  type_of two_selects (VRef 2) = type_of two_selects (VRef 5)
  /\ __eq__ two_selects 2 (VRef 5) = true
  /\ compare 4 two_selects 2 5 = Return true
  /\ (forall builtin_hash fuel,
         __hash__ builtin_hash (S fuel) two_selects 2 = Return 2%Z
         /\ __hash__ builtin_hash (S fuel) two_selects 5 = Return 5%Z).
Proof.
  repeat split.
Qed.

(** [a AND b] and [a OR b] over the same columns: shallow-equal, since
    [==] compares an enum member by its type, while the hash is that of a
    tuple holding the member. *)
Definition and_or : heap :=
  [mk_obj Column [VStr "a"; VNone; VNone] [] false;
   mk_obj Column [VStr "b"; VNone; VNone] [] false;
   mk_obj BinaryOp [VRef 0; VEnum (EBinaryOp BinaryOpKind.And); VRef 1] []
     false;
   mk_obj BinaryOp [VRef 0; VEnum (EBinaryOp BinaryOpKind.Or); VRef 1] []
     false].

Example operator_is_hashed_not_compared (builtin_hash : hkey -> Z) :
  __eq__ and_or 2 (VRef 3) = true
  /\ __hash__ builtin_hash 2 and_or 2
     = Return (builtin_hash (KTuple [KType BinaryOp; KStr "And"]))
  /\ __hash__ builtin_hash 2 and_or 3
     = Return (builtin_hash (KTuple [KType BinaryOp; KStr "Or"])).
Proof. repeat split. Qed.

(** Columns named by Name nodes: shallow-equal whatever the names, since
    [==] compares a nested node by its type, while the hash goes through
    the text of the name.  Named by plain strings, as in the test suite,
    they are equal only when the strings are. *)
Definition columns_a_b : heap :=
  [mk_obj Name [VStr "a"; VStr ""] [] false;
   mk_obj Name [VStr "b"; VStr ""] [] false;
   mk_obj Column [VRef 0; VNone; VNone] [] false;
   mk_obj Column [VRef 1; VNone; VNone] [] false;
   mk_obj Column [VStr "a"; VNone; VNone] [] false;
   mk_obj Column [VStr "b"; VNone; VNone] [] false].

Example name_is_hashed_not_compared (builtin_hash : hkey -> Z) :
  __eq__ columns_a_b 2 (VRef 3) = true
  /\ __hash__ builtin_hash 2 columns_a_b 2
     = Return (builtin_hash
                 (KTuple [KType Column; KHashed (builtin_hash (KStr "a"))]))
  /\ __hash__ builtin_hash 2 columns_a_b 3
     = Return (builtin_hash
                 (KTuple [KType Column; KHashed (builtin_hash (KStr "b"))]))
  /\ __eq__ columns_a_b 4 (VRef 5) = false.
Proof. repeat split. Qed.

(** *** Parent sets *)

(** The class and the fields of an object: what is left of it when the
    parent set and the API flag are put aside. *)
Definition skel (o : obj) : cls * list value := (ocls o, ofields o).

Definition same_fields (h h' : heap) : Prop := map skel h = map skel h'.

Lemma same_fields_refl (h : heap) : same_fields h h.
Proof. reflexivity. Qed.

Lemma same_fields_trans (h1 h2 h3 : heap) :
  same_fields h1 h2 -> same_fields h2 h3 -> same_fields h1 h3.
Proof. unfold same_fields. congruence. Qed.

Lemma skel_lookup (h h' : heap) (l : loc) :
  same_fields h h' ->
  match h !! l, h' !! l with
  | Some o, Some o' => skel o = skel o'
  | None, None => True
  | _, _ => False
  end.
Proof.
  intros H. unfold same_fields in H.
  assert (Hx : (skel <$> h) !! l = (skel <$> h') !! l).
  { change ((map skel h) !! l = (map skel h') !! l). now rewrite H. }
  rewrite !list_lookup_fmap in Hx.
  destruct (h !! l), (h' !! l); simpl in Hx; first [congruence | exact I].
Qed.

Lemma view_of_skel (o o' : obj) : skel o = skel o' -> view o = view o'.
Proof.
  destruct o, o'. unfold skel, view, fields. simpl. now intros [= -> ->].
Qed.

Lemma same_fields_view (h h' : heap) :
  same_fields h h' -> heap_view h = heap_view h'.
Proof.
  unfold same_fields, heap_view. revert h'.
  induction h as [|o h IH]; intros [|o' h']; simpl; try discriminate;
    [reflexivity|].
  intros [= Ho Hh]. f_equal; [|now apply IH].
  apply view_of_skel. unfold skel. now rewrite Ho, Hh at 1.
Qed.

Lemma same_fields_update (h : heap) (l : loc) (o o' : obj) :
  h !! l = Some o -> skel o' = skel o -> same_fields h (<[l:=o']> h).
Proof.
  intros Ho Hs. unfold same_fields. symmetry.
  change (skel <$> <[l:=o']> h = skel <$> h).
  rewrite list_fmap_insert. apply list_insert_id.
  rewrite list_lookup_fmap, Ho, Hs. reflexivity.
Qed.

Lemma omapM_ext {A B} (f g : A -> outcome B) (xs : list A) :
  (forall x, f x = g x) -> omapM f xs = omapM g xs.
Proof.
  intros H. induction xs as [|x xs IH]; simpl; [reflexivity|].
  now rewrite H, IH.
Qed.

Lemma value_key_ext (f g : loc -> outcome Z) (v : value) :
  (forall l, f l = g l) -> value_key f v = value_key g v.
Proof. intros H. destruct v; simpl; try reflexivity. now rewrite H. Qed.

Lemma existsb_pointwise {A} (f g : A -> bool) (l : list A) :
  (forall x, f x = g x) -> existsb f l = existsb g l.
Proof.
  intros H. induction l as [|x l IH]; simpl; [reflexivity|].
  now rewrite H, IH.
Qed.

Section ParentSets.
Context (builtin_hash : hkey -> Z).

Lemma hash_same_fields (fuel : nat) (h h' : heap) (l : loc) :
  same_fields h h' ->
  __hash__ builtin_hash fuel h l = __hash__ builtin_hash fuel h' l.
Proof.
  intros H. revert l. induction fuel as [|n IH]; intros l; simpl;
    [reflexivity|].
  pose proof (skel_lookup h h' l H) as Hl.
  destruct (h !! l) as [o|], (h' !! l) as [o'|]; try contradiction;
    [|reflexivity].
  assert (Hk : forall v,
             value_key (__hash__ builtin_hash n h) v
             = value_key (__hash__ builtin_hash n h') v).
  { intros v. now apply value_key_ext. }
  destruct o as [c fs ps api], o' as [c' fs' ps' api'].
  unfold skel in Hl. simpl in Hl. injection Hl as <- <-.
  unfold getfield. simpl.
  destruct c; simpl; rewrite ?Hk; reflexivity.
Qed.

Lemma set_contains_mono (h h' : heap) (s s' : pyset) (hx : Z) (x : loc) :
  same_fields h h' -> s `prefix_of` s' ->
  set_contains h s hx x = true -> set_contains h' s' hx x = true.
Proof.
  intros H [k ->] Hc. unfold set_contains in *. rewrite existsb_app.
  apply orb_true_iff. left. rewrite <- Hc.
  apply existsb_pointwise. intros e.
  now rewrite (eq_view h' h _ _ (eq_sym (same_fields_view _ _ H))).
Qed.

(** The store has grown: the same objects with the same fields, each
    parent set extended at its end. *)
Definition grown (h h' : heap) : Prop :=
  same_fields h h' /\ forall l, parents h l `prefix_of` parents h' l.

Lemma grown_refl (h : heap) : grown h h.
Proof. split; [reflexivity|intros l; reflexivity]. Qed.

Lemma grown_trans (h1 h2 h3 : heap) :
  grown h1 h2 -> grown h2 h3 -> grown h1 h3.
Proof.
  intros [F1 P1] [F2 P2]. split; [eapply same_fields_trans; eauto|].
  intros l. etransitivity; [apply P1|apply P2].
Qed.

Lemma parents_update (h : heap) (l : loc) (o : obj) (s : pyset) :
  h !! l = Some o -> grown h (<[l:=with_parents o (oparents o ++ s)]> h).
Proof.
  intros Ho. split; [eapply same_fields_update; eauto|].
  intros l'. unfold parents. destruct (decide (l' = l)) as [->|Hne].
  - erewrite lookup_update by eassumption. rewrite Ho. simpl.
    now exists s.
  - rewrite list_lookup_insert_ne by congruence. reflexivity.
Qed.

(** Adding a parent twice: the second time nothing changes and the
    outcome is the same. *)
Lemma parents_add_again (fuel : nat) (c p : loc) (h h' : heap)
  (r : outcome unit) :
  parents_add builtin_hash fuel c p h = (r, h') ->
  grown h h' /\ parents_add builtin_hash fuel c p h' = (r, h').
Proof.
  unfold parents_add. destruct (h !! c) as [o|] eqn:Ho.
  2:{ intros [= <- <-]. split; [apply grown_refl|]. now rewrite Ho. }
  destruct (__hash__ builtin_hash fuel h p) as [hp|e] eqn:Hh.
  2:{ intros [= <- <-]. split; [apply grown_refl|]. now rewrite Ho, Hh. }
  destruct (set_contains h (oparents o) hp p) eqn:Hc.
  - intros [= <- <-]. split; [apply grown_refl|]. now rewrite Ho, Hh, Hc.
  - intros [= <- <-].
    pose proof (parents_update h c o [(hp, p)] Ho) as G.
    split; [exact G|].
    erewrite lookup_update by eassumption.
    rewrite <- (hash_same_fields fuel h _ p (proj1 G)), Hh. simpl.
    unfold set_contains at 1. rewrite existsb_app. simpl.
    rewrite Z.eqb_refl, Nat.eqb_refl. simpl.
    now rewrite orb_true_r.
Qed.

(** An addition that changed nothing changes nothing in a grown store. *)
Lemma parents_add_grown (fuel : nat) (c p : loc) (h h' : heap)
  (r : outcome unit) :
  parents_add builtin_hash fuel c p h = (r, h) ->
  grown h h' ->
  parents_add builtin_hash fuel c p h' = (r, h').
Proof.
  intros Hs [F P]. unfold parents_add in *.
  pose proof (skel_lookup h h' c F) as Hl. specialize (P c).
  unfold parents in P.
  destruct (h !! c) as [o|] eqn:Ho, (h' !! c) as [o'|] eqn:Ho';
    try contradiction.
  2:{ now injection Hs as <-. }
  rewrite <- (hash_same_fields fuel h h' p F).
  destruct (__hash__ builtin_hash fuel h p) as [hp|e].
  2:{ now injection Hs as <-. }
  destruct (set_contains h (oparents o) hp p) eqn:Hc.
  - injection Hs as <-.
    now rewrite (set_contains_mono h h' _ _ hp p F P Hc).
  - injection Hs as _ Hs. exfalso.
    assert (Hx : <[c:=with_parents o (oparents o ++ [(hp, p)])]> h !! c
                 = Some o) by (rewrite Hs; exact Ho).
    erewrite lookup_update in Hx by eassumption.
    injection Hx as Hx. apply (f_equal oparents) in Hx. simpl in Hx.
    apply (f_equal (@length _)) in Hx. rewrite length_app in Hx. simpl in Hx.
    lia.
Qed.

(** An edge: a child and the parent to add to it. *)
Definition record (fuel : nat) (e : loc * loc) : M unit :=
  parents_add builtin_hash fuel (fst e) (snd e).

Lemma record_all_again (fuel : nat) (es : list (loc * loc)) (h h1 : heap)
  (r : outcome unit) :
  for_each es (record fuel) h = (r, h1) ->
  grown h h1 /\ for_each es (record fuel) h1 = (r, h1).
Proof.
  revert h. induction es as [|e es IH]; intros h; simpl.
  - intros [= <- <-]. split; [apply grown_refl|reflexivity].
  - unfold bind. destruct (record fuel e h) as [[[]|x] h'] eqn:E.
    + intros Hr. destruct (IH _ Hr) as [G Hr'].
      destruct (parents_add_again _ _ _ _ _ _ E) as [G0 E'].
      split; [eapply grown_trans; eauto|].
      unfold record. rewrite (parents_add_grown _ _ _ _ _ _ E' G). exact Hr'.
    + intros [= <- <-].
      destruct (parents_add_again _ _ _ _ _ _ E) as [G0 E'].
      split; [exact G0|]. unfold record. now rewrite E'.
Qed.
(** The additions a traversal makes, in order, and the exception that
    ends it, if any. *)
Fixpoint trace_all (f : loc -> list (loc * loc) * option exn) (cs : list loc)
  : list (loc * loc) * option exn :=
  match cs with
  | [] => ([], None)
  | c :: cs' =>
      match f c with
      | (es, Some e) => (es, Some e)
      | (es, None) => let r := trace_all f cs' in (es ++ fst r, snd r)
      end
  end.

Fixpoint trace (fuel : nat) (h : heap) (root : loc)
  : list (loc * loc) * option exn :=
  match fuel with
  | 0 => ([], Some RecursionError)
  | S k =>
      let r := trace_all (trace k h) (children h root) in
      (map (fun c => (c, root)) (children h root) ++ fst r, snd r)
  end.

Definition finish (oe : option exn) : M unit :=
  match oe with
  | Some e => raise e
  | None => ret tt
  end.

Definition exec (fuel : nat) (t : list (loc * loc) * option exn) : M unit :=
  for_each (fst t) (record fuel) ;;; finish (snd t).

Lemma trace_all_ext (f g : loc -> list (loc * loc) * option exn)
  (cs : list loc) :
  (forall c, f c = g c) -> trace_all f cs = trace_all g cs.
Proof.
  intros H. induction cs as [|c cs IH]; simpl; [reflexivity|].
  now rewrite H, IH.
Qed.

Lemma trace_same_fields (fuel : nat) (h h' : heap) (root : loc) :
  same_fields h h' -> trace fuel h root = trace fuel h' root.
Proof.
  intros H. revert root. induction fuel as [|k IH]; intros root; simpl;
    [reflexivity|].
  rewrite (children_view h h' root (same_fields_view _ _ H)).
  now rewrite (trace_all_ext _ _ _ IH).
Qed.

Lemma for_each_app {A} (xs ys : list A) (body : A -> M unit) (h : heap) :
  for_each (xs ++ ys) body h = (for_each xs body ;;; for_each ys body) h.
Proof.
  revert h. induction xs as [|x xs IH]; intros h; simpl.
  - reflexivity.
  - unfold bind. destruct (body x h) as [[[]|e] h']; [|reflexivity].
    rewrite IH. reflexivity.
Qed.

Lemma for_each_ext {A} (xs : list A) (f g : A -> M unit) (h : heap) :
  (forall x h, f x h = g x h) -> for_each xs f h = for_each xs g h.
Proof.
  intros H. revert h. induction xs as [|x xs IH]; intros h; simpl;
    [reflexivity|].
  unfold bind. rewrite H. destruct (g x h) as [[[]|e] h']; [apply IH|reflexivity].
Qed.

Lemma for_each_map {A B} (f : A -> B) (xs : list A) (body : B -> M unit)
  (h : heap) :
  for_each (map f xs) body h = for_each xs (fun x => body (f x)) h.
Proof.
  revert h. induction xs as [|x xs IH]; intros h; simpl; [reflexivity|].
  unfold bind. destruct (body (f x) h) as [[[]|e] h']; [apply IH|reflexivity].
Qed.

Lemma record_same_fields (fuel : nat) (e : loc * loc) (h0 : heap) :
  preserves (fun h => same_fields h0 h) (record fuel e).
Proof.
  intros h H. destruct (record fuel e h) as [r h'] eqn:E.
  destruct (parents_add_again _ _ _ _ _ _ E) as [[F _] _].
  simpl. eapply same_fields_trans; eauto.
Qed.

(** The function that [compile_parents] applies to every node. *)
Definition visit (fuel : nat) (node : loc) : M unit :=
  add_self_as_parent builtin_hash fuel node ;;; ret tt.

(** [add_self_as_parent] makes the additions of the node's own edges. *)
Lemma add_self_as_parent_records (fuel : nat) (node : loc) (h : heap) :
  visit fuel node h
  = for_each (map (fun c => (c, node)) (children h node)) (record fuel) h.
Proof.
  unfold visit, add_self_as_parent. rewrite for_each_map.
  unfold bind at 1 2 3. unfold get.
  rewrite (for_each_ext (children h node)
             (fun child => add_parents builtin_hash fuel child [node] ;;; ret tt)
             (fun c => record fuel (c, node))).
  - destruct (for_each _ _ h) as [[[]|e] h']; reflexivity.
  - intros c h1. unfold add_parents, record, bind, ret. simpl. unfold bind, ret.
    destruct (parents_add builtin_hash fuel c node h1) as [[[]|e] h2];
      reflexivity.
Qed.

Lemma exec_children (fuel k : nat) (h : heap)
  (IH : forall root h1,
      apply k (visit fuel) root h1 = exec fuel (trace k h1 root) h1)
  (cs : list loc) (h1 : heap) :
  same_fields h h1 ->
  for_each cs (apply k (visit fuel)) h1
  = exec fuel (trace_all (trace k h) cs) h1.
Proof.
  revert h1. induction cs as [|c cs IHcs]; intros h1 F; simpl; [reflexivity|].
  unfold bind at 1. rewrite IH.
  rewrite <- (trace_same_fields k h h1 c F).
  destruct (trace k h c) as [es [e|]]; unfold exec; simpl.
  - unfold bind. destruct (for_each es (record fuel) h1) as [[[]|x] h2];
      reflexivity.
  - unfold bind. rewrite for_each_app. unfold bind.
    pose proof (preserves_for_each _ (record fuel) es
                  (fun e => record_same_fields fuel e h) h1 F) as F2.
    destruct (for_each es (record fuel) h1) as [[[]|x] h2]; simpl in *;
      [|reflexivity].
    rewrite (IHcs h2 F2). unfold exec, bind. reflexivity.
Qed.

(** The traversal of [compile_parents] makes exactly the additions of its
    trace. *)
Lemma apply_trace (fuel k : nat) (root : loc) (h : heap) :
  apply k (visit fuel) root h = exec fuel (trace k h root) h.
Proof.
  revert root h. induction k as [|k IH]; intros root h; [reflexivity|].
  cbn [apply trace]. unfold exec. cbn [fst snd].
  unfold bind. rewrite add_self_as_parent_records, for_each_app. unfold bind.
  pose proof (preserves_for_each _ (record fuel)
                (map (fun c => (c, root)) (children h root))
                (fun e => record_same_fields fuel e h) h
                (same_fields_refl h)) as F.
  destruct (for_each (map _ _) (record fuel) h) as [[[]|x] h1]; simpl in F;
    [|reflexivity].
  unfold get.
  rewrite <- (children_view h h1 root (same_fields_view _ _ F)).
  rewrite (exec_children fuel k h IH _ h1 F). reflexivity.
Qed.

Lemma exec_again (fuel : nat) (t : list (loc * loc) * option exn)
  (h h1 : heap) (r : outcome unit) :
  exec fuel t h = (r, h1) -> grown h h1 /\ exec fuel t h1 = (r, h1).
Proof.
  unfold exec, bind.
  destruct (for_each (fst t) (record fuel) h) as [[[]|x] h2] eqn:E.
  - destruct (record_all_again _ _ _ _ _ E) as [G E'].
    destruct (snd t); simpl; intros [= <- <-]; (split; [exact G|]);
      now rewrite E'.
  - intros [= <- <-]. destruct (record_all_again _ _ _ _ _ E) as [G E'].
    split; [exact G|]. now rewrite E'.
Qed.

(** C6: a second [compile_parents] on the same tree changes nothing: it
    ends as the first one did and leaves every parent set as the first
    one left it. *)
Theorem compile_parents_idempotent (fuel : nat) (root : loc) (h : heap) :
  let once := compile_parents builtin_hash fuel root h in
  let twice := compile_parents builtin_hash fuel root (snd once) in
  twice = once
  /\ forall node, parents (snd twice) node = parents (snd once) node.
Proof.
  intros once twice.
  assert (Ho : forall h0 r h1,
             exec fuel (trace fuel h0 root) h0 = (r, h1) ->
             compile_parents builtin_hash fuel root h0
             = (match r with Return _ => Return root | Throw e => Throw e end,
                h1)).
  { intros h0 r h1 E. unfold compile_parents.
    change (fun node => add_self_as_parent builtin_hash fuel node ;;; ret tt)
      with (visit fuel).
    unfold bind. rewrite apply_trace, E. destruct r as [[]|e]; reflexivity. }
  assert (H : twice = once).
  { destruct (exec fuel (trace fuel h root) h) as [r h1] eqn:E.
    destruct (exec_again _ _ _ _ _ E) as [[F _] E'].
    unfold twice, once. rewrite (Ho h r h1 E). simpl. apply Ho.
    rewrite <- (trace_same_fields fuel h h1 root F). exact E'. }
  split; [exact H|]. intros node. now rewrite H.
Qed.

End ParentSets.

(** [SELECT * FROM a], built bottom-up as in the test suite. *)
Definition trivial_query : heap :=
  [mk_obj Table [VStr "a"; VNone; VList []] [] false;
   mk_obj Wildcard [VNone] [] false;
   mk_obj From [VRef 0; VList []] [] false;
   mk_obj Select
     [VBool false; VRef 2; VList []; VNone; VList [VRef 1]; VNone; VNone]
     [] false;
   mk_obj Query [VRef 3; VList []] [] false].

(** On the trivial query the compilation returns, every node but the
    root gets its owner as only parent, and the nodes are visited in the
    order [flatten] yields them. *)
Example compile_parents_trivial_query (builtin_hash : hkey -> Z) :
  fst (compile_parents builtin_hash 5 4 trivial_query) = Return 4
  /\ map (fun o => map snd (oparents o))
       (snd (compile_parents builtin_hash 5 4 trivial_query))
     = [[2]; [3]; [3]; [4]; []]
  /\ Node_flatten 5 trivial_query 4 = Return [4; 3; 2; 0; 1].
Proof. repeat split. Qed.

(** *** Namespace.to_column and Namespace.to_table *)

Lemma bind_Return {A B} (m : M A) (f : A -> M B) (h h' : heap) (a : A) :
  m h = (Return a, h') -> bind m f h = f a h'.
Proof. intros H. unfold bind. now rewrite H. Qed.

Lemma bind_Throw {A B} (m : M A) (f : A -> M B) (h h' : heap) (e : exn) :
  m h = (Throw e, h') -> bind m f h = (Throw e, h').
Proof. intros H. unfold bind. now rewrite H. Qed.

(** One step of a sequence whose first call returns as [H] says. *)
Ltac step H := rewrite (bind_Return _ _ _ _ _ H); cbv beta.

Lemma getattr_at (h : heap) (l : loc) (o : obj) (n : string) (v : value) :
  h !! l = Some o -> getfield o n = Some v -> getattr l n h = (Return v, h).
Proof. intros Ho Hf. unfold getattr. now rewrite Ho, Hf. Qed.

Lemma setattr_at (h : heap) (l : loc) (o : obj) (n : string) (v : value) :
  h !! l = Some o -> setattr l n v h = (Return tt, <[l:=setfield o n v]> h).
Proof. intros Ho. unfold setattr. now rewrite Ho. Qed.

Section Namespaces.
Context (builtin_hash : hkey -> Z).

(** The common shape of [Namespace.to_column] and [Namespace.to_table]:
    [c] is the class of the node that is built. *)
Definition Namespace_to (c : cls) (fuel : nat) (self : loc) : M loc :=
  names <- getattr self "names" ;;
  if negb (truthy names) then raise (DJParseException "Namespace is empty")
  else
    last <- pop_name self ;;
    col <- new c [VRef last] [] ;;
    col <- add_self_as_parent builtin_hash fuel col ;;
    names <- getattr self "names" ;;
    (if truthy names then add_namespace col (VRef self) else ret col) ;;;
    ret col.

(** The hash of a Column or Table named by a Name node. *)
Definition named_hash (c : cls) (nm q : string) : Z :=
  builtin_hash
    (KTuple [KType c; KHashed (builtin_hash (KStr (nm ++ q)))]).

(** The store after the call on a namespace [rest ++ [last]]. *)
Definition after_to (c : cls) (h : heap) (self last : loc) (o lo : obj)
  (rest : list value) (nm q : string) (extra : value) : heap :=
  let col := length h in
  let h1 := <[self:=setfield o "names" (VList rest)]> h in
  let h2 := <[last:=with_parents lo []]> h1 in
  let ns := match rest with [] => VNone | _ => VRef self end in
  <[last:=with_parents lo [(named_hash c nm q, col)]]> h2
  ++ [mk_obj c [VRef last; ns; extra] [] false].

Lemma Namespace_to_nonempty (c : cls) (extra : value) (fuel : nat) (h : heap)
  (self last : loc) (o lo : obj) (rest : list value) (nm q : string) :
  (c = Column /\ extra = VNone) \/ (c = Table /\ extra = VList []) ->
  h !! self = Some o -> ocls o = Namespace ->
  ofields o = [VList (rest ++ [VRef last])] ->
  h !! last = Some lo -> ocls lo = Name -> ofields lo = [VStr nm; VStr q] ->
  2 <= fuel ->
  Namespace_to c fuel self h
  = (Return (length h), after_to c h self last o lo rest nm q extra).
Proof.
  intros Hc Hs Hsc Hsf Hl Hlc Hlf Hfuel.
  assert (Hne : self <> last).
  { intros ->. rewrite Hs in Hl. injection Hl as ->. congruence. }
  destruct o as [oc ofs ops oapi], lo as [lc lfs lps lapi]. simpl in *.
  subst oc ofs lc lfs.
  set (o := mk_obj Namespace [VList (rest ++ [VRef last])] ops oapi) in *.
  set (lo := mk_obj Name [VStr nm; VStr q] lps lapi) in *.
  set (h1 := <[self:=setfield o "names" (VList rest)]> h).
  set (h2 := <[last:=with_parents lo []]> h1).
  set (col := length h).
  set (co := mk_obj c [VRef last; VNone; extra] [] false).
  set (h3 := h2 ++ [co]).
  set (h4 := <[last:=with_parents lo [(named_hash c nm q, col)]]> h3).
  assert (Hl1 : h1 !! last = Some lo).
  { unfold h1. rewrite list_lookup_insert_ne by exact Hne. exact Hl. }
  assert (Hlen : length h2 = length h).
  { unfold h2, h1. now rewrite !length_insert. }
  assert (Hs2 : h2 !! self = Some (mk_obj Namespace [VList rest] ops oapi)).
  { unfold h2. rewrite list_lookup_insert_ne by congruence.
    unfold h1. erewrite lookup_update by eassumption. reflexivity. }
  assert (Hl2 : h2 !! last = Some (with_parents lo [])).
  { unfold h2. erewrite lookup_update by eassumption. reflexivity. }
  assert (Hc3 : h3 !! col = Some co).
  { unfold h3, col. rewrite <- Hlen. now apply list_lookup_middle. }
  assert (Hl3 : h3 !! last = Some (with_parents lo [])).
  { unfold h3. rewrite lookup_app_l by (eapply lookup_lt_Some; eauto).
    exact Hl2. }
  assert (Hs3 : h3 !! self = Some (mk_obj Namespace [VList rest] ops oapi)).
  { unfold h3. rewrite lookup_app_l by (eapply lookup_lt_Some; eauto).
    exact Hs2. }
  assert (Hcl : col <> last).
  { apply lookup_lt_Some in Hl. unfold col. lia. }
  assert (Hs4 : h4 !! self = Some (mk_obj Namespace [VList rest] ops oapi)).
  { unfold h4. rewrite list_lookup_insert_ne by congruence. exact Hs3. }
  assert (Hc4 : h4 !! col = Some co).
  { unfold h4. rewrite list_lookup_insert_ne by congruence. exact Hc3. }
  (* the calls, one by one *)
  assert (Hg0 : getattr self "names" h
                = (Return (VList (rest ++ [VRef last])), h))
    by (apply (getattr_at _ _ _ _ _ Hs); reflexivity).
  assert (Hpop : pop_name self h = (Return last, h2)).
  { unfold pop_name. step Hg0. unfold pop. rewrite rev_app_distr.
    cbn [rev app]. rewrite rev_involutive.
    rewrite (bind_Return _ _ _ _ _ (setattr_at _ _ _ _ _ Hs)).
    unfold clear_parents. fold h1. now rewrite Hl1. }
  assert (Hnew : new c [VRef last] [] h2 = (Return col, h3)).
  { unfold h3, col, co. rewrite <- Hlen.
    destruct Hc as [[-> ->]|[-> ->]]; reflexivity. }
  assert (Hch : children h3 col = [last]).
  { unfold children. rewrite Hc3. unfold co.
    destruct Hc as [[-> ->]|[-> ->]]; reflexivity. }
  assert (Hh : __hash__ builtin_hash fuel h3 col = Return (named_hash c nm q)).
  { destruct fuel as [|[|k]]; try lia. cbn [__hash__]. rewrite Hc3.
    unfold co. destruct Hc as [[-> ->]|[-> ->]]; cbn; rewrite Hl3; reflexivity. }
  assert (Hadd : add_self_as_parent builtin_hash fuel col h3 = (Return col, h4)).
  { unfold add_self_as_parent, get, bind. rewrite Hch. cbn [for_each].
    unfold add_parents. cbn [for_each]. unfold bind, ret, parents_add.
    rewrite Hl3, Hh. reflexivity. }
  assert (Hg4 : getattr self "names" h4 = (Return (VList rest), h4))
    by (apply (getattr_at _ _ _ _ _ Hs4); reflexivity).
  unfold Namespace_to. step Hg0.
  replace (truthy (VList (rest ++ [VRef last]))) with true
    by (destruct rest; reflexivity).
  cbn [negb]. step Hpop. step Hnew. step Hadd. step Hg4.
  unfold after_to. fold o lo h1 h2 col.
  destruct rest as [|r0 rest'].
  - cbn [truthy]. unfold bind, ret. f_equal.
    unfold h4, h3. rewrite insert_app_l by (eapply lookup_lt_Some; eauto).
    reflexivity.
  - cbn [truthy].
    assert (Hg : getattr col "_namespace" h4 = (Return VNone, h4)).
    { apply (getattr_at _ _ _ _ _ Hc4). unfold co.
      destruct Hc as [[-> ->]|[-> ->]]; reflexivity. }
    assert (Hns : add_namespace col (VRef self) h4
                  = (Return col,
                     <[col:=setfield co "_namespace" (VRef self)]> h4)).
    { unfold add_namespace. step Hg.
      rewrite (bind_Return _ _ _ _ _ (setattr_at _ _ _ _ _ Hc4)).
      reflexivity. }
    step Hns. unfold ret. f_equal.
    unfold h4, h3. rewrite insert_app_l by (eapply lookup_lt_Some; eauto).
    rewrite insert_app_r_alt by (rewrite length_insert; lia).
    rewrite length_insert. unfold col. rewrite <- Hlen, Nat.sub_diag.
    unfold co. destruct Hc as [[-> ->]|[-> ->]]; reflexivity.
Qed.

Lemma pop_inv (l : list value) :
  match pop l with
  | Some (x, r) => l = r ++ [x]
  | None => l = []
  end.
Proof.
  unfold pop. destruct (rev l) as [|x r] eqn:E.
  - apply (f_equal (@rev _)) in E. now rewrite rev_involutive in E.
  - apply (f_equal (@rev _)) in E. rewrite rev_involutive in E. exact E.
Qed.

Lemma Namespace_to_empty (c : cls) (fuel : nat) (h : heap) (self : loc)
  (o : obj) :
  h !! self = Some o -> ocls o = Namespace -> ofields o = [VList []] ->
  Namespace_to c fuel self h
  = (Throw (DJParseException "Namespace is empty"), h).
Proof.
  intros Hs Hc Hf. destruct o as [oc ofs ops oapi]. simpl in *. subst.
  unfold Namespace_to.
  rewrite (bind_Return _ _ _ _ _
             (getattr_at _ _ _ "names" (VList []) Hs eq_refl)).
  reflexivity.
Qed.

(** The last name of the namespace is a Name holding two strings. *)
Definition ends_with_Name (h : heap) (names : list value) : Prop :=
  match pop names with
  | Some (VRef last, _) =>
      exists lo nm q,
        h !! last = Some lo /\ ocls lo = Name
        /\ ofields lo = [VStr nm; VStr q]
  | Some _ => False
  | None => True
  end.

(** What a call on a namespace holding [names] must give: the exception
    and an untouched store when there is no name; otherwise a new node of
    class [c] named by the last name, which the namespace no longer holds,
    with the namespace attached when a name remains. *)
Definition converted (c : cls) (h : heap) (self : loc) (names : list value)
  (r : outcome loc * heap) : Prop :=
  match pop names with
  | None => r = (Throw (DJParseException "Namespace is empty"), h)
  | Some (last, rest) =>
      fst r = Return (length h)
      /\ (o ← snd r !! self; getfield o "names") = Some (VList rest)
      /\ length names = S (length rest)
      /\ type_of (snd r) (VRef (length h)) = TNode c
      /\ (o ← snd r !! length h; getfield o "name") = Some last
      /\ namespace (snd r) (length h)
         = Some (match rest with [] => VNone | _ => VRef self end)
  end.

Lemma Namespace_to_converted (c : cls) (extra : value) (fuel : nat)
  (h : heap) (self : loc) (o : obj) (names : list value) :
  (c = Column /\ extra = VNone) \/ (c = Table /\ extra = VList []) ->
  h !! self = Some o -> ocls o = Namespace -> ofields o = [VList names] ->
  ends_with_Name h names -> 2 <= fuel ->
  converted c h self names (Namespace_to c fuel self h).
Proof.
  intros Hc Hs Hsc Hsf He Hfuel. unfold converted, ends_with_Name in *.
  pose proof (pop_inv names) as Hp.
  destruct (pop names) as [[v rest]|].
  2:{ subst names. eapply Namespace_to_empty; eauto. }
  destruct v as [| | | | | | |last]; try contradiction.
  destruct He as (lo & nm & q & Hl & Hlc & Hlf). subst names.
  rewrite (Namespace_to_nonempty c extra fuel h self last o lo rest nm q)
    by assumption.
  assert (Hne : self <> last).
  { intros ->. rewrite Hs in Hl. injection Hl as ->. congruence. }
  assert (Hlt : self < length h) by (eapply lookup_lt_Some; eauto).
  cbn [fst snd]. unfold after_to.
  set (h2 := <[last:=with_parents lo []]> _).
  set (h4 := <[last:=_]> h2).
  assert (Hlen : length h4 = length h).
  { unfold h4, h2. now rewrite !length_insert. }
  assert (Hs4 : h4 !! self = Some (setfield o "names" (VList rest))).
  { unfold h4, h2. rewrite !list_lookup_insert_ne by congruence.
    now apply list_lookup_insert_eq. }
  split; [reflexivity|]. split.
  { rewrite lookup_app_l by lia. rewrite Hs4. simpl.
    apply (getfield_setfield o "names" _ (VList (rest ++ [VRef last]))).
    destruct o as [oc ofs ops oapi]. simpl in *. subst. reflexivity. }
  split; [rewrite length_app; simpl; lia|].
  assert (Hcol : forall x, (h4 ++ [x]) !! length h = Some x).
  { intros x. rewrite <- Hlen. now apply list_lookup_middle. }
  unfold namespace. cbn [type_of]. rewrite !Hcol. cbn.
  destruct Hc as [[-> ->]|[-> ->]]; repeat split.
Qed.

(** C10: [Namespace.to_column] and [Namespace.to_table] raise
    DJParseException on a namespace without names and leave it as it
    was; on a namespace whose last name is a Name they take that name out
    of the namespace, return a new Column, respectively Table, whose name
    it is, and attach the namespace to it only when a name remains. *)
Theorem Namespace_to_column_and_to_table (fuel : nat) (h : heap) (self : loc)
  (o : obj) (names : list value) :
  h !! self = Some o -> ocls o = Namespace -> ofields o = [VList names] ->
  ends_with_Name h names -> 2 <= fuel ->
  converted Column h self names
    (Namespace_to_column builtin_hash fuel self h)
  /\ converted Table h self names
       (Namespace_to_table builtin_hash fuel self h).
Proof.
  intros Hs Hc Hf He Hfuel. split.
  - change (Namespace_to_column builtin_hash fuel self)
      with (Namespace_to Column fuel self).
    eapply Namespace_to_converted; eauto.
  - change (Namespace_to_table builtin_hash fuel self)
      with (Namespace_to Table fuel self).
    eapply Namespace_to_converted; eauto.
Qed.

End Namespaces.

(** The namespace [a.b] and the empty namespace. *)
Definition namespace_a_b : heap :=
  [mk_obj Name [VStr "a"; VStr ""] [] false;
   mk_obj Name [VStr "b"; VStr ""] [] false;
   mk_obj Namespace [VList [VRef 0; VRef 1]] [] false].

Lemma Namespace_to_column_and_to_table_witness :
  converted Column namespace_a_b 2 [VRef 0; VRef 1]
    (Namespace_to_column (fun _ => 0%Z) 2 2 namespace_a_b)
  /\ converted Table namespace_a_b 2 [VRef 0; VRef 1]
       (Namespace_to_table (fun _ => 0%Z) 2 2 namespace_a_b).
Proof.
  apply (Namespace_to_column_and_to_table (fun _ => 0%Z) 2 namespace_a_b 2
           (mk_obj Namespace [VList [VRef 0; VRef 1]] [] false)
           [VRef 0; VRef 1]).
  - reflexivity.
  - reflexivity.
  - reflexivity.
  - exists (mk_obj Name [VStr "b"; VStr ""] [] false), "b", "".
    repeat split.
  - lia.
Defined.

Example Namespace_to_column_runs :
  Namespace_to_column (fun _ => 0%Z) 2 2 namespace_a_b
  = (Return 3,
     [mk_obj Name [VStr "a"; VStr ""] [] false;
      mk_obj Name [VStr "b"; VStr ""] [(0%Z, 3)] false;
      mk_obj Namespace [VList [VRef 0]] [] false;
      mk_obj Column [VRef 1; VRef 2; VNone] [] false])
  /\ Namespace_to_table (fun _ => 0%Z) 2 0
       [mk_obj Namespace [VList []] [] false]
     = (Throw (DJParseException "Namespace is empty"),
        [mk_obj Namespace [VList []] [] false]).
Proof. split; reflexivity. Qed.


(** *** Shallow equality as a relation *)

Lemma float_eqb_sym (x y : pyfloat) : float_eqb x y = float_eqb y x.
Proof.
  destruct x as [p|bx|], y as [q|by_|]; simpl; try reflexivity.
  - destruct (Qeq_bool p q) eqn:E1, (Qeq_bool q p) eqn:E2; try reflexivity.
    + apply Qeq_bool_sym in E1. congruence.
    + apply Qeq_bool_sym in E2. congruence.
  - destruct bx, by_; reflexivity.
Qed.

Lemma float_eqb_trans (x y z : pyfloat) :
  float_eqb x y = true -> float_eqb y z = true -> float_eqb x z = true.
Proof.
  destruct x as [p|bx|], y as [q|by_|], z as [r|bz|]; simpl;
    try discriminate.
  - apply Qeq_bool_trans.
  - destruct bx, by_, bz; simpl; congruence.
Qed.

Lemma py_eq_sym (s o : value) : py_eq s o = py_eq o s.
Proof.
  destruct s, o; cbv [py_eq num_of]; try reflexivity;
    try apply float_eqb_sym.
  apply String.eqb_sym.
Qed.

(** Two values that [==] finds equal are both None, both the same string,
    or both numbers of the same value. *)
Lemma py_eq_inv (s o : value) :
  py_eq s o = true ->
  (s = VNone /\ o = VNone)
  \/ (exists a, s = VStr a /\ o = VStr a)
  \/ (exists x y, num_of s = Some x /\ num_of o = Some y
                  /\ float_eqb x y = true).
Proof.
  destruct s, o; cbv [py_eq num_of]; try discriminate; intros H;
    try (left; split; reflexivity);
    try (right; right; eexists _, _; repeat split; exact H).
  apply String.eqb_eq in H. subst. right; left. eauto.
Qed.

Lemma py_eq_num (s o : value) (x y : pyfloat) :
  num_of s = Some x -> num_of o = Some y -> py_eq s o = float_eqb x y.
Proof.
  destruct s, o; cbv [py_eq num_of]; try discriminate;
    intros [= <-] [= <-]; reflexivity.
Qed.

Lemma py_eq_trans (x y z : value) :
  py_eq x y = true -> py_eq y z = true -> py_eq x z = true.
Proof.
  intros [[-> ->]|[(a & -> & ->)|(fx & fy & Hx & Hy & Hxy)]]%py_eq_inv
         [[Hy' ->]|[(b & Hy' & ->)|(fy' & fz & Hy' & Hz & Hyz)]]%py_eq_inv;
    try discriminate; try reflexivity.
  - injection Hy' as ->. cbv [py_eq]. apply String.eqb_refl.
  - subst y. discriminate.
  - subst y. discriminate.
  - rewrite Hy in Hy'. injection Hy' as <-.
    rewrite (py_eq_num _ _ _ _ Hx Hz). eapply float_eqb_trans; eassumption.
Qed.

Lemma py_eq_primitive (h : heap) (s o : value) :
  py_eq s o = true -> primitives (type_of h o) = true.
Proof.
  destruct s, o; cbv [py_eq num_of]; try discriminate; reflexivity.
Qed.

Lemma py_eq_not_primitive (h : heap) (s o : value) :
  primitives (type_of h o) = false -> py_eq s o = false.
Proof.
  intros H. destruct (py_eq s o) eqn:E; [|reflexivity].
  rewrite (py_eq_primitive h _ _ E) in H. discriminate.
Qed.

Lemma field_eq_sym (h : heap) (s o : value) : field_eq h s o = field_eq h o s.
Proof.
  unfold field_eq.
  destruct (primitives (type_of h s)) eqn:Hs,
           (primitives (type_of h o)) eqn:Ho.
  - apply py_eq_sym.
  - rewrite (py_eq_not_primitive h _ _ Ho). symmetry.
    apply bool_decide_eq_false. intros E. rewrite E in Ho. congruence.
  - rewrite (py_eq_not_primitive h _ _ Hs). 
    apply bool_decide_eq_false. intros E. rewrite E in Hs. congruence.
  - apply bool_decide_ext. split; congruence.
Qed.

Lemma field_eq_trans (h : heap) (x y z : value) :
  field_eq h x y = true -> field_eq h y z = true -> field_eq h x z = true.
Proof.
  unfold field_eq. destruct (primitives (type_of h x)) eqn:Hx.
  - intros Hxy. rewrite (py_eq_primitive h _ _ Hxy).
    apply py_eq_trans. exact Hxy.
  - intros Hxy%bool_decide_eq_true. rewrite <- Hxy, Hx.
    intros Hyz%bool_decide_eq_true. apply bool_decide_eq_true. congruence.
Qed.

Lemma forallb_zip_swap {A} (R : A -> A -> bool) (la lb : list A) :
  (forall x y, R x y = R y x) ->
  forallb (fun p => R (fst p) (snd p)) (zip la lb)
  = forallb (fun p => R (fst p) (snd p)) (zip lb la).
Proof.
  intros HR. revert lb. induction la as [|x la IH]; intros [|y lb]; simpl;
    try reflexivity.
  now rewrite HR, IH.
Qed.

Lemma forallb_zip_trans {A} (R : A -> A -> bool) (la lb lc : list A) :
  (forall x y z, R x y = true -> R y z = true -> R x z = true) ->
  length la <= length lb ->
  forallb (fun p => R (fst p) (snd p)) (zip la lb) = true ->
  forallb (fun p => R (fst p) (snd p)) (zip lb lc) = true ->
  forallb (fun p => R (fst p) (snd p)) (zip la lc) = true.
Proof.
  intros HR. revert lb lc.
  induction la as [|x la IH]; intros [|y lb] [|z lc]; simpl;
    try reflexivity; try lia.
  intros Hl [H1 H2]%andb_true_iff [H3 H4]%andb_true_iff.
  apply andb_true_iff. split; [eapply HR; eassumption|].
  eapply IH; [|eassumption..]. lia.
Qed.

Lemma shallow_eq_sym (h : heap) (a b : loc) :
  __eq__ h a (VRef b) = __eq__ h b (VRef a).
Proof.
  unfold __eq__.
  destruct (h !! a) as [oa|], (h !! b) as [ob|]; try reflexivity.
  f_equal; [apply bool_decide_ext; split; congruence|].
  apply forallb_zip_swap. apply field_eq_sym.
Qed.

(** The compared fields of an object are at most those of an object of
    its class that has a value for every field. *)
Lemma compared_fields_length (names : list string) (fs fs' : list value)
  (q : string * value -> bool) :
  (forall n v v', q (n, v) = q (n, v')) ->
  length fs' = length names ->
  length (List.filter q (zip names fs))
  <= length (List.filter q (zip names fs')).
Proof.
  intros Hq. revert fs fs'.
  induction names as [|n names IH]; intros fs fs' Hl; [simpl; lia|].
  destruct fs' as [|v' fs']; [discriminate|].
  destruct fs as [|v fs]; [simpl; lia|]. simpl.
  rewrite (Hq n v v'). injection Hl as Hl. specialize (IH fs fs' Hl).
  destruct (q (n, v')); simpl; lia.
Qed.

Lemma fields_length (o o' : obj) :
  ocls o = ocls o' -> well_formed o' ->
  length (fields false false false true o)
  <= length (fields false false false true o').
Proof.
  intros Hc Hw. unfold fields. rewrite !length_map, Hc.
  apply compared_fields_length; [reflexivity|].
  unfold field_names. rewrite length_map. exact Hw.
Qed.

(** X1: shallow equality is symmetric: [a == b] and [b == a] give the
    same result, for any two nodes of any store. *)
Theorem shallow_equality_is_symmetric (h : heap) (a b : loc) :
  __eq__ h a (VRef b) = __eq__ h b (VRef a).
Proof. apply shallow_eq_sym. Qed.

Lemma shallow_eq_trans (h : heap) (a b c : loc) (ob : obj) :
  h !! b = Some ob -> well_formed ob ->
  __eq__ h a (VRef b) = true -> __eq__ h b (VRef c) = true ->
  __eq__ h a (VRef c) = true.
Proof.
  intros Hb Hw. unfold __eq__. rewrite Hb.
  destruct (h !! a) as [oa|]; [|discriminate].
  destruct (h !! c) as [oc|]; [|discriminate].
  intros [H1%bool_decide_eq_true H2]%andb_true_iff
         [H3%bool_decide_eq_true H4]%andb_true_iff.
  apply andb_true_iff. split; [apply bool_decide_eq_true; congruence|].
  eapply (forallb_zip_trans (field_eq h)); [|apply fields_length| |];
    eauto using field_eq_trans.
Qed.

(** X2: shallow equality is transitive through a node that has a value
    for each of its fields: if [a == b] and [b == c] then [a == c]. *)
Theorem shallow_equality_is_transitive (h : heap) (a b c : loc) (ob : obj) :
  h !! b = Some ob -> well_formed ob ->
  __eq__ h a (VRef b) = true -> __eq__ h b (VRef c) = true ->
  __eq__ h a (VRef c) = true.
Proof. apply shallow_eq_trans. Qed.

(** The integer 1, the float 1.0 and the integer 1 again. *)
Definition three_ones : heap :=
  [mk_obj Number [VInt 1] [] false;
   mk_obj Number [VFloat (FFin 1)] [] false;
   mk_obj Number [VInt 1] [] false].

Lemma shallow_equality_is_transitive_witness :
  __eq__ three_ones 0 (VRef 2) = true.
Proof.
  apply (shallow_equality_is_transitive three_ones 0 1 2
           (mk_obj Number [VFloat (FFin 1)] [] false));
    reflexivity.
Defined.

Definition is_nan (v : value) : bool :=
  match v with
  | VFloat FNan => true
  | _ => false
  end.

Lemma float_eqb_refl (x : pyfloat) :
  float_eqb x x = negb (match x with FNan => true | _ => false end).
Proof.
  destruct x as [p|b|]; simpl; [apply Qeq_bool_refl|now destruct b|reflexivity].
Qed.

Lemma field_eq_refl (h : heap) (v : value) :
  field_eq h v v = negb (is_nan v).
Proof.
  unfold field_eq. destruct v as [|b|z|f|s|e|l|l]; cbn [type_of primitives].
  - reflexivity.
  - rewrite (py_eq_num (VBool b) (VBool b) _ _ eq_refl eq_refl).
    apply Qeq_bool_refl.
  - rewrite (py_eq_num (VInt z) (VInt z) _ _ eq_refl eq_refl).
    apply Qeq_bool_refl.
  - rewrite (py_eq_num (VFloat f) (VFloat f) _ _ eq_refl eq_refl).
    rewrite float_eqb_refl.
    now destruct f.
  - apply String.eqb_refl.
  - apply bool_decide_eq_true. reflexivity.
  - apply bool_decide_eq_true. reflexivity.
  - destruct (h !! l); cbn [primitives]; apply bool_decide_eq_true;
      reflexivity.
Qed.

Lemma forallb_zip_diag {A} (R : A -> A -> bool) (l : list A) :
  forallb (fun p => R (fst p) (snd p)) (zip l l)
  = forallb (fun x => R x x) l.
Proof. induction l as [|x l IH]; simpl; [reflexivity|now rewrite IH]. Qed.

Lemma shallow_eq_refl (h : heap) (a : loc) :
  __eq__ h a (VRef a)
  = match h !! a with
    | Some o =>
        forallb (fun v => negb (is_nan v)) (fields false false false true o)
    | None => false
    end.
Proof.
  unfold __eq__. destruct (h !! a) as [o|]; [|reflexivity].
  rewrite bool_decide_eq_true_2 by reflexivity. simpl.
  rewrite (forallb_zip_diag (field_eq h)).
  apply forallb_pointwise. intros v. apply field_eq_refl.
Qed.

(** X3: a node is shallow-equal to itself exactly when none of its
    compared fields holds NaN; the Number built from the string [nan]
    holds NaN, so it is not equal to itself and [diff] against itself
    reports it. *)
Theorem shallow_equality_is_reflexive_unless_nan :
  (forall h a,
      __eq__ h a (VRef a)
      = match h !! a with
        | Some o =>
            forallb (fun v => negb (is_nan v))
              (fields false false false true o)
        | None => false
        end)
  /\ (forall h,
         let r := new Number [VStr "nan"] [] h in
         fst r = Return (length h)
         /\ __eq__ (snd r) (length h) (VRef (length h)) = false
         /\ diff 1 (snd r) (length h) (length h)
            = Return [(Some (length h), Some (length h))]).
Proof.
  split; [apply shallow_eq_refl|]. intros h.
  assert (Hn : new Number [VStr "nan"] [] h
               = (Return (length h), h ++ [mk_obj Number [VFloat FNan] [] false]))
    by (vm_compute; reflexivity).
  cbv zeta. rewrite Hn. cbn [fst snd].
  assert (He : __eq__ (h ++ [mk_obj Number [VFloat FNan] [] false])
                 (length h) (VRef (length h)) = false).
  { rewrite shallow_eq_refl.
    rewrite (lookup_app_r h) by lia. rewrite Nat.sub_diag. reflexivity. }
  split; [reflexivity|]. split; [exact He|].
  unfold diff. simpl. unfold ne. rewrite He. reflexivity.
Qed.

(** *** diff and compare as relations *)

Definition swap (p : pair_) : pair_ := (snd p, fst p).

Definition on_return {A B} (f : A -> B) (x : outcome A) : outcome B :=
  match x with
  | Return a => Return (f a)
  | Throw e => Throw e
  end.

Lemma ne_sym (h : heap) (a b : option loc) : ne h a b = ne h b a.
Proof.
  unfold ne. destruct a as [a|], b as [b|]; try reflexivity.
  now rewrite shallow_eq_sym.
Qed.

Lemma ne_None (h : heap) (a : loc) : ne h (Some a) None = true.
Proof. unfold ne, __eq__. now destruct (h !! a). Qed.

Lemma zip_longest_nil_r {A B} (xs : list A) :
  zip_longest xs (@nil B) = map (fun x => (Some x, None)) xs.
Proof. induction xs as [|x xs IH]; simpl; [reflexivity|now rewrite IH]. Qed.

Lemma zip_longest_swap (xs ys : list loc) :
  zip_longest ys xs = map swap (zip_longest xs ys).
Proof.
  revert ys. induction xs as [|x xs IH]; intros ys.
  - rewrite zip_longest_nil_r. simpl. rewrite map_map. reflexivity.
  - destruct ys as [|y ys]; simpl.
    + rewrite zip_longest_nil_r, map_map. reflexivity.
    + now rewrite IH.
Qed.

Lemma _diff_swap (fuel : nat) (h : heap) (a b : option loc)
  (acc : list pair_) :
  _diff fuel h b a (map swap acc)
  = on_return (map swap) (_diff fuel h a b acc).
Proof.
  revert a b acc. induction fuel as [|n IH]; intros a b acc; simpl;
    [reflexivity|].
  rewrite (ne_sym h b a). destruct (ne h a b) eqn:Hne.
  - simpl. now rewrite map_app.
  - destruct a as [a|], b as [b|]; try reflexivity.
    rewrite (zip_longest_swap (children h a) (children h b)).
    generalize (zip_longest (children h a) (children h b)). intros ps.
    revert acc. induction ps as [|[c oc] ps IHps]; intros acc; simpl;
      [reflexivity|].
    rewrite IH. destruct (_diff n h c oc acc) as [acc'|e]; simpl;
      [apply IHps|reflexivity].
Qed.

(** X4: [b.diff(a)] is [a.diff(b)] with each pair turned round, and it
    raises when [a.diff(b)] does; so [compare] is symmetric. *)
Theorem diff_is_symmetric (fuel : nat) (h : heap) (a b : loc) :
  diff fuel h b a = on_return (map swap) (diff fuel h a b)
  /\ compare fuel h b a = compare fuel h a b.
Proof.
  assert (H : diff fuel h b a = on_return (map swap) (diff fuel h a b))
    by apply (_diff_swap fuel h (Some a) (Some b) []).
  split; [exact H|]. unfold compare. rewrite H.
  destruct (diff fuel h a b) as [[|d ds]|e]; reflexivity.
Qed.

Lemma omapM_Return {A B} (f : A -> outcome B) (xs : list A) (ys : list B) :
  omapM f xs = Return ys -> Forall2 (fun x y => f x = Return y) xs ys.
Proof.
  revert ys. induction xs as [|x xs IH]; intros ys; simpl.
  - intros [= <-]. constructor.
  - destruct (f x) as [y|e] eqn:E; simpl; [|discriminate].
    destruct (omapM f xs) as [ys'|e]; simpl; [|discriminate].
    intros [= <-]. constructor; [exact E|now apply IH].
Qed.

Lemma zip_longest_diag (xs : list loc) :
  zip_longest xs xs = map (fun x => (Some x, Some x)) xs.
Proof. induction xs as [|x xs IH]; simpl; [reflexivity|now rewrite IH]. Qed.

Lemma _diff_same (fuel : nat) (h : heap) (a : loc) (nodes : list loc)
  (acc : list pair_) :
  Node_flatten fuel h a = Return nodes ->
  Forall (fun n => __eq__ h n (VRef n) = true) nodes ->
  _diff fuel h (Some a) (Some a) acc = Return acc.
Proof.
  revert a nodes acc. induction fuel as [|n IH]; intros a nodes acc;
    [discriminate|].
  unfold Node_flatten. simpl.
  destruct (omapM (filter n (fun _ _ => true) h) (children h a))
    as [rest|e] eqn:E; simpl; [|discriminate].
  intros [= <-] Hall. apply Forall_cons_iff in Hall as [Ha Hrest].
  unfold ne. rewrite Ha. simpl. rewrite zip_longest_diag.
  apply omapM_Return in E. clear Ha. revert acc.
  induction E as [|c r cs rest Hc _ IHE]; intros acc; simpl;
    [reflexivity|].
  simpl in Hrest. apply Forall_app in Hrest as [Hr Hrest].
  rewrite (IH c r acc Hc Hr). simpl. apply IHE. exact Hrest.
Qed.

(** X5: when the traversal of [a] ends within the recursion limit and
    every node it yields is shallow-equal to itself, [a.diff(a)] is empty
    and [a.compare(a)] is true. *)
Theorem compare_is_reflexive (fuel : nat) (h : heap) (a : loc)
  (nodes : list loc) :
  Node_flatten fuel h a = Return nodes ->
  Forall (fun n => __eq__ h n (VRef n) = true) nodes ->
  diff fuel h a a = Return [] /\ compare fuel h a a = Return true.
Proof.
  intros Hf Hall.
  assert (H : diff fuel h a a = Return [])
    by (eapply _diff_same; eassumption).
  split; [exact H|]. unfold compare. now rewrite H.
Qed.

Lemma compare_is_reflexive_witness :
  diff 5 from_a_from_b 4 4 = Return []
  /\ compare 5 from_a_from_b 4 4 = Return true.
Proof.
  apply (compare_is_reflexive 5 from_a_from_b 4 [4; 3; 2; 0; 1]).
  - reflexivity.
  - repeat constructor.
Defined.

(** *** filter, find_all and flatten *)

Lemma filter_flatten (fuel : nat) (func : heap -> loc -> bool) (h : heap)
  (a : loc) :
  filter fuel func h a
  = on_return (List.filter (func h)) (Node_flatten fuel h a).
Proof.
  unfold Node_flatten. revert a.
  induction fuel as [|n IH]; intros a; simpl; [reflexivity|].
  assert (H : omapM (filter n func h) (children h a)
              = on_return (map (List.filter (func h)))
                  (omapM (filter n (fun _ _ => true) h) (children h a))).
  { induction (children h a) as [|c cs IHc]; simpl; [reflexivity|].
    rewrite IH, IHc.
    destruct (filter n (fun _ _ => true) h c) as [r|e]; simpl;
      [|reflexivity].
    destruct (omapM (filter n (fun _ _ => true) h) cs); reflexivity. }
  rewrite H.
  destruct (omapM (filter n (fun _ _ => true) h) (children h a)) as [rest|e];
    simpl; [|reflexivity].
  f_equal. rewrite concat_filter_map.
  now destruct (func h a).
Qed.

(** X6: [filter(func)] yields the nodes of [flatten()] that satisfy
    [func], in the order of [flatten()], and raises when [flatten()]
    does; [flatten()] yields the node itself first; and [find_all] yields
    the nodes of [flatten()] of the class asked for. *)
Theorem filter_selects_from_flatten (fuel : nat) (h : heap) (a : loc) :
  (forall func,
      filter fuel func h a
      = on_return (List.filter (func h)) (Node_flatten fuel h a))
  /\ (forall nodes,
         Node_flatten fuel h a = Return nodes ->
         exists rest, nodes = a :: rest)
  /\ (forall node_type,
         find_all fuel node_type h a
         = on_return
             (List.filter
                (fun n => bool_decide (type_of h (VRef n) = TNode node_type)))
             (Node_flatten fuel h a)).
Proof.
  split; [intros func; apply filter_flatten|]. split.
  - intros nodes. unfold Node_flatten. destruct fuel as [|n]; simpl;
      [discriminate|].
    destruct (omapM _ _) as [rest|e]; simpl; [|discriminate].
    intros [= <-]. eauto.
  - intros node_type. unfold find_all. apply filter_flatten.
Qed.

(** *** What the methods on back-references leave alone *)

Definition shown (nv : string * value) : bool :=
  negb (startswith_underscore (fst nv)).

Lemma fields_shown (o : obj) :
  fields false false false true o
  = map snd (List.filter shown (zip (field_names (ocls o)) (ofields o))).
Proof. reflexivity. Qed.

(** A field without leading underscore sits in the view at the place
    that counts the fields without underscore before it. *)
Lemma lookup_shown (n : string) (names : list string) (fs : list value)
  (i : nat) :
  index_of n names = Some i -> startswith_underscore n = false ->
  fs !! i
  = map snd (List.filter shown (zip names fs))
    !! length (List.filter (fun m => negb (startswith_underscore m))
                 (take i names)).
Proof.
  intros Hi Hn. revert fs i Hi.
  induction names as [|m names IH]; intros fs i; simpl; [discriminate|].
  destruct (String.eqb m n) eqn:E.
  - intros [= <-]. apply String.eqb_eq in E. subst m.
    destruct fs as [|v fs]; simpl; [reflexivity|].
    unfold shown at 1. simpl. rewrite Hn. reflexivity.
  - destruct (index_of n names) as [j|] eqn:Hj; simpl; [|discriminate].
    intros [= <-]. destruct fs as [|v fs]; simpl.
    + now rewrite lookup_nil.
    + unfold shown at 1. simpl.
      destruct (startswith_underscore m); simpl; now apply IH.
Qed.

Lemma getfield_view (o o' : obj) (n : string) :
  view o = view o' -> startswith_underscore n = false ->
  getfield o n = getfield o' n.
Proof.
  unfold view. rewrite !fields_shown. intros [= Hc Hf] Hn.
  unfold getfield. rewrite <- Hc.
  destruct (index_of n (field_names (ocls o))) as [i|] eqn:Hi; simpl;
    [|reflexivity].
  rewrite (lookup_shown n _ (ofields o) i Hi Hn).
  rewrite (lookup_shown n _ (ofields o') i Hi Hn).
  rewrite <- Hc in Hf. now rewrite Hf.
Qed.

Lemma set_shown (n : string) (v : value) (names : list string)
  (fs : list value) (i : nat) :
  index_of n names = Some i -> startswith_underscore n = true ->
  List.filter shown (zip names (<[i:=v]> fs))
  = List.filter shown (zip names fs).
Proof.
  intros Hi Hn. revert fs i Hi.
  induction names as [|m names IH]; intros fs i; simpl; [discriminate|].
  destruct (String.eqb m n) eqn:E.
  - intros [= <-]. apply String.eqb_eq in E. subst m.
    destruct fs as [|x fs]; simpl; [reflexivity|].
    assert (Hs : forall y, shown (n, y) = false)
      by (intros y; unfold shown; simpl; now rewrite Hn).
    now rewrite !Hs.
  - destruct (index_of n names) as [j|] eqn:Hj; simpl; [|discriminate].
    intros [= <-]. destruct fs as [|x fs]; simpl; [reflexivity|].
    rewrite (IH fs j eq_refl). reflexivity.
Qed.

Lemma view_set_underscore (o : obj) (n : string) (v : value) :
  startswith_underscore n = true -> view (setfield o n v) = view o.
Proof.
  intros Hn. unfold view. rewrite ocls_setfield. f_equal.
  rewrite !fields_shown, ocls_setfield. unfold setfield.
  destruct (index_of n (field_names (ocls o))) as [i|] eqn:Hi;
    [|reflexivity].
  simpl. now rewrite (set_shown n v _ _ i Hi Hn).
Qed.

Lemma filter_view (fuel : nat) (h h' : heap) (a : loc) :
  heap_view h = heap_view h' ->
  Node_flatten fuel h a = Node_flatten fuel h' a.
Proof.
  intros H. unfold Node_flatten. revert a.
  induction fuel as [|n IH]; intros a; simpl; [reflexivity|].
  rewrite (children_view h h' a H). now rewrite (omapM_ext _ _ _ IH).
Qed.

Lemma preserves_get (P : heap -> Prop) : preserves P get.
Proof. intros h H; exact H. Qed.

Lemma preserves_setattr_underscore (l : loc) (n : string) (v : value)
  (h0 : heap) :
  startswith_underscore n = true ->
  preserves (fun h => heap_view h = heap_view h0) (setattr l n v).
Proof.
  intros Hn h H. unfold setattr. destruct (h !! l) as [o|] eqn:Ho; [|exact H].
  simpl. rewrite (heap_view_update h l o); [exact H|exact Ho|].
  now apply view_set_underscore.
Qed.

Lemma preserves_apply (P : heap -> Prop) (func : loc -> M unit)
  (fuel : nat) (root : loc) :
  (forall n, preserves P (func n)) -> preserves P (apply fuel func root).
Proof.
  intros Hf. revert root. induction fuel as [|k IH]; intros root; simpl.
  - apply preserves_raise.
  - apply preserves_bind; [apply Hf|]. intros _.
    apply preserves_bind; [apply preserves_get|]. intros h.
    apply preserves_for_each. exact IH.
Qed.

Section BackReferenceMethods.
Context (builtin_hash : hkey -> Z).

Lemma hash_view (fuel : nat) (h h' : heap) (l : loc) :
  heap_view h = heap_view h' ->
  __hash__ builtin_hash fuel h l = __hash__ builtin_hash fuel h' l.
Proof.
  intros H. revert l. induction fuel as [|n IH]; intros l; simpl;
    [reflexivity|].
  pose proof (view_lookup h h' l H) as Hl.
  destruct (h !! l) as [o|], (h' !! l) as [o'|]; try contradiction;
    [|reflexivity].
  assert (Hk : forall v,
             value_key (__hash__ builtin_hash n h) v
             = value_key (__hash__ builtin_hash n h') v).
  { intros v. now apply value_key_ext. }
  assert (Hg : forall name, startswith_underscore name = false ->
                            getfield o name = getfield o' name).
  { intros name. now apply getfield_view. }
  assert (Hc : ocls o = ocls o') by (unfold view in Hl; congruence).
  rewrite !Hg by reflexivity. rewrite Hc.
  destruct (ocls o'); simpl; rewrite ?Hk; reflexivity.
Qed.

Lemma add_self_as_parent_view (fuel : nat) (self : loc) (h0 : heap) :
  preserves (fun h => heap_view h = heap_view h0)
    (add_self_as_parent builtin_hash fuel self).
Proof.
  unfold add_self_as_parent.
  apply preserves_bind; [apply preserves_get|]. intros h.
  apply preserves_bind; [|intros _; apply preserves_ret].
  apply preserves_for_each. intros c.
  apply preserves_bind; [apply add_parents_view|intros _; apply preserves_ret].
Qed.

Lemma compile_parents_view (fuel : nat) (self : loc) (h0 : heap) :
  preserves (fun h => heap_view h = heap_view h0)
    (compile_parents builtin_hash fuel self).
Proof.
  unfold compile_parents.
  apply preserves_bind; [|intros _; apply preserves_ret].
  apply preserves_apply. intros n.
  apply preserves_bind; [apply add_self_as_parent_view|].
  intros _; apply preserves_ret.
Qed.

Lemma remove_parents_view (fuel : nat) (self : loc) (ps : list loc)
  (h0 : heap) :
  preserves (fun h => heap_view h = heap_view h0)
    (remove_parents builtin_hash fuel self ps).
Proof.
  intros h H. unfold remove_parents.
  destruct (h !! self) as [o|] eqn:Ho; [|exact H].
  destruct (set_of_list builtin_hash fuel h ps); [|exact H]. simpl.
  rewrite (heap_view_update h self o); [exact H|exact Ho|reflexivity].
Qed.

Lemma clear_parents_view (self : loc) (h0 : heap) :
  preserves (fun h => heap_view h = heap_view h0) (clear_parents self).
Proof.
  intros h H. unfold clear_parents.
  destruct (h !! self) as [o|] eqn:Ho; [|exact H]. simpl.
  rewrite (heap_view_update h self o); [exact H|exact Ho|reflexivity].
Qed.

Lemma add_namespace_view (self : loc) (ns : value) (h0 : heap) :
  preserves (fun h => heap_view h = heap_view h0) (add_namespace self ns).
Proof.
  unfold add_namespace. apply preserves_bind; [apply preserves_getattr|].
  intros v. apply preserves_bind; [|intros _; apply preserves_ret].
  destruct v; try apply preserves_ret.
  now apply preserves_setattr_underscore.
Qed.

Lemma add_columns_view (self : loc) (cs : list loc) (h0 : heap) :
  preserves (fun h => heap_view h = heap_view h0) (add_columns self cs).
Proof.
  unfold add_columns. apply preserves_bind; [|intros _; apply preserves_ret].
  apply preserves_for_each. intros c.
  apply preserves_bind; [apply preserves_getattr|]. intros v.
  apply preserves_bind.
  - destruct v; try apply preserves_raise.
    now apply preserves_setattr_underscore.
  - intros _. apply preserves_bind; [apply add_table_view|].
    intros _; apply preserves_ret.
Qed.

(** A call of one of the methods that maintain back-references. *)
Inductive backref_method :=
| Add_parents (self : loc) (parents : list loc)
| Remove_parents (self : loc) (parents : list loc)
| Clear_parents (self : loc)
| Add_self_as_parent (self : loc)
| Compile_parents (self : loc)
| Add_table (self : loc) (table : value)
| Add_namespace (self : loc) (namespace : value)
| Add_columns (self : loc) (columns : list loc).

(** The store after the call, whether it returns or raises. *)
Definition after_method (fuel : nat) (h : heap) (m : backref_method) : heap :=
  match m with
  | Add_parents self ps => snd (add_parents builtin_hash fuel self ps h)
  | Remove_parents self ps => snd (remove_parents builtin_hash fuel self ps h)
  | Clear_parents self => snd (clear_parents self h)
  | Add_self_as_parent self => snd (add_self_as_parent builtin_hash fuel self h)
  | Compile_parents self => snd (compile_parents builtin_hash fuel self h)
  | Add_table self t => snd (add_table self t h)
  | Add_namespace self ns => snd (add_namespace self ns h)
  | Add_columns self cs => snd (add_columns self cs h)
  end.

Definition after_methods (fuel : nat) (ms : list backref_method) (h : heap)
  : heap :=
  fold_left (after_method fuel) ms h.

Lemma after_methods_view (fuel : nat) (ms : list backref_method) (h : heap) :
  heap_view (after_methods fuel ms h) = heap_view h.
Proof.
  unfold after_methods. revert h. induction ms as [|m ms IH]; intros h; simpl;
    [reflexivity|].
  rewrite IH.
  destruct m as [self ps|self ps|self|self|self|self t|self ns|self cs];
    simpl.
  - now apply (add_parents_view builtin_hash fuel self ps h h).
  - now apply (remove_parents_view fuel self ps h h).
  - now apply (clear_parents_view self h h).
  - now apply (add_self_as_parent_view fuel self h h).
  - now apply (compile_parents_view fuel self h h).
  - now apply (add_table_view self t h h).
  - now apply (add_namespace_view self ns h h).
  - now apply (add_columns_view self cs h h).
Qed.

(** X7: no sequence of calls of [add_parents], [remove_parents],
    [clear_parents], [add_self_as_parent], [compile_parents],
    [add_table], [add_namespace] and [add_columns], on any nodes and
    whether they return or raise, changes the hash of a node, its
    children, what [flatten] yields, or the result of [==], [diff] and
    [compare]. *)
Theorem back_references_are_invisible (fuel : nat)
  (ms : list backref_method) (h : heap) (a b : loc) (n : nat) :
  let h' := after_methods fuel ms h in
  __hash__ builtin_hash n h' a = __hash__ builtin_hash n h a
  /\ children h' a = children h a
  /\ Node_flatten n h' a = Node_flatten n h a
  /\ __eq__ h' a (VRef b) = __eq__ h a (VRef b)
  /\ diff n h' a b = diff n h a b
  /\ compare n h' a b = compare n h a b.
Proof.
  intros h'. pose proof (after_methods_view fuel ms h) as H. fold h' in H.
  split; [now apply hash_view|]. split; [now apply children_view|].
  split; [now apply filter_view|]. split; [now apply eq_view|].
  assert (Hd : diff n h' a b = diff n h a b) by now apply _diff_view.
  split; [exact Hd|]. unfold compare. now rewrite Hd.
Qed.

End BackReferenceMethods.

(** *** What the parent sets hold *)

(** The edges from the children of a node to the node. *)
Definition edges_of (h : heap) (n : loc) : list (loc * loc) :=
  map (fun c => (c, n)) (children h n).

Lemma trace_all_flatten (k : nat) (h : heap)
  (IH : forall root,
      snd (trace k h root) = None ->
      exists nodes, Node_flatten k h root = Return nodes
                    /\ fst (trace k h root) = flat_map (edges_of h) nodes)
  (cs : list loc) :
  snd (trace_all (trace k h) cs) = None ->
  exists rest,
    omapM (filter k (fun _ _ => true) h) cs = Return rest
    /\ fst (trace_all (trace k h) cs) = flat_map (edges_of h) (concat rest).
Proof.
  induction cs as [|c cs IHcs]; simpl.
  - intros _. exists []. split; reflexivity.
  - destruct (trace k h c) as [es [e|]] eqn:E; simpl; [discriminate|].
    intros Hs. destruct (IH c) as (nodes & Hf & He); [now rewrite E|].
    destruct (IHcs Hs) as (rest & Hr & Hes).
    exists (nodes :: rest). unfold Node_flatten in Hf. rewrite Hf, Hr.
    split; [reflexivity|]. simpl. rewrite flat_map_app, <- Hes.
    rewrite E in He. simpl in He. now rewrite He.
Qed.

(** A traversal that does not run out of depth makes the additions of
    the edges of the nodes that [flatten] yields. *)
Lemma trace_flatten (k : nat) (h : heap) (root : loc) :
  snd (trace k h root) = None ->
  exists nodes, Node_flatten k h root = Return nodes
                /\ fst (trace k h root) = flat_map (edges_of h) nodes.
Proof.
  revert root. induction k as [|k IH]; intros root; simpl; [discriminate|].
  intros Hs. destruct (trace_all_flatten k h IH _ Hs) as (rest & Hr & Hes).
  exists (root :: concat rest). unfold Node_flatten. simpl. rewrite Hr.
  split; [reflexivity|]. simpl. now rewrite Hes.
Qed.

Lemma parents_lookup (h : heap) (l : loc) (o : obj) :
  h !! l = Some o -> parents h l = oparents o.
Proof. intros H. unfold parents. now rewrite H. Qed.

Section ParentMembers.
Context (builtin_hash : hkey -> Z).

Lemma parents_add_Return (fuel : nat) (c p : loc) (h h1 : heap) :
  parents_add builtin_hash fuel c p h = (Return tt, h1) ->
  exists o hp,
    h !! c = Some o /\ __hash__ builtin_hash fuel h p = Return hp
    /\ ((set_contains h (oparents o) hp p = true /\ h1 = h)
        \/ (set_contains h (oparents o) hp p = false
            /\ h1 = <[c:=with_parents o (oparents o ++ [(hp, p)])]> h)).
Proof.
  unfold parents_add. destruct (h !! c) as [o|]; [|discriminate].
  destruct (__hash__ builtin_hash fuel h p) as [hp|e]; [|discriminate].
  intros H. exists o, hp. split; [reflexivity|]. split; [reflexivity|].
  destruct (set_contains h (oparents o) hp p); injection H as <-; eauto.
Qed.

Lemma set_contains_last (h : heap) (s : pyset) (hx : Z) (x : loc) :
  set_contains h (s ++ [(hx, x)]) hx x = true.
Proof.
  unfold set_contains. rewrite existsb_app. simpl.
  rewrite Z.eqb_refl, Nat.eqb_refl. simpl. now rewrite orb_true_r.
Qed.

Lemma parents_add_member (fuel : nat) (c p : loc) (h h1 : heap) :
  parents_add builtin_hash fuel c p h = (Return tt, h1) ->
  exists hp, __hash__ builtin_hash fuel h p = Return hp
             /\ set_contains h1 (parents h1 c) hp p = true.
Proof.
  intros (o & hp & Ho & Hh & [[Hc ->]|[Hc ->]])%parents_add_Return;
    exists hp; (split; [exact Hh|]).
  - now rewrite (parents_lookup _ _ _ Ho).
  - rewrite (parents_lookup _ c (with_parents o (oparents o ++ [(hp, p)])))
      by (eapply lookup_update; eauto).
    apply set_contains_last.
Qed.

Lemma parents_add_parents (fuel : nat) (c p : loc) (h h1 : heap)
  (r : outcome unit) (l : loc) :
  parents_add builtin_hash fuel c p h = (r, h1) ->
  parents h1 l = parents h l
  \/ (l = c /\ exists hp, parents h1 l = parents h l ++ [(hp, p)]).
Proof.
  unfold parents_add. destruct (h !! c) as [o|] eqn:Ho.
  2:{ intros [= <- <-]. now left. }
  destruct (__hash__ builtin_hash fuel h p) as [hp|e].
  2:{ intros [= <- <-]. now left. }
  destruct (set_contains h (oparents o) hp p); intros [= <- <-];
    [now left|].
  destruct (decide (l = c)) as [->|Hne].
  - right. split; [reflexivity|]. exists hp.
    rewrite (parents_lookup _ c (with_parents o (oparents o ++ [(hp, p)])))
      by (eapply lookup_update; eauto).
    now rewrite (parents_lookup _ _ _ Ho).
  - left. unfold parents. now rewrite list_lookup_insert_ne by congruence.
Qed.

Lemma record_all_members (fuel : nat) (es : list (loc * loc))
  (h h' : heap) :
  for_each es (record builtin_hash fuel) h = (Return tt, h') ->
  forall e, In e es ->
    exists hp, __hash__ builtin_hash fuel h (snd e) = Return hp
               /\ set_contains h' (parents h' (fst e)) hp (snd e) = true.
Proof.
  revert h. induction es as [|e0 es IH]; intros h; simpl; [contradiction|].
  unfold bind. destruct (record builtin_hash fuel e0 h) as [[[]|x] h1] eqn:E;
    [|discriminate].
  intros Hr e [<-|Hin].
  - destruct (parents_add_member _ _ _ _ _ E) as (hp & Hh & Hc).
    exists hp. split; [exact Hh|].
    destruct (record_all_again builtin_hash _ _ _ _ _ Hr) as [[F P] _].
    eapply set_contains_mono; [exact F|apply P|exact Hc].
  - destruct (IH _ Hr e Hin) as (hp & Hh & Hc). exists hp.
    split; [|exact Hc].
    destruct (parents_add_again builtin_hash _ _ _ _ _ _ E) as [[F _] _].
    now rewrite (hash_same_fields builtin_hash fuel h h1 _ F).
Qed.

Lemma record_all_added (fuel : nat) (es : list (loc * loc)) (h h' : heap)
  (r : outcome unit) (l : loc) :
  for_each es (record builtin_hash fuel) h = (r, h') ->
  exists added,
    parents h' l = parents h l ++ added
    /\ Forall (fun x => In (l, snd x) es) added.
Proof.
  revert h. induction es as [|e0 es IH]; intros h; simpl.
  - intros [= <- <-]. exists []. split; [now rewrite app_nil_r|constructor].
  - unfold bind.
    destruct (record builtin_hash fuel e0 h) as [[[]|x] h1] eqn:E.
    + intros Hr. destruct (IH _ Hr) as (added & Hp & Ha).
      assert (Ha' : Forall (fun x => e0 = (l, snd x) \/ In (l, snd x) es)
                      added)
        by (eapply Forall_impl; [|exact Ha]; simpl; tauto).
      destruct (parents_add_parents _ _ _ _ _ _ l E)
        as [Hl|[-> [hp Hl]]]; rewrite Hp, Hl.
      * eauto.
      * exists ((hp, snd e0) :: added).
        split; [now rewrite <- app_assoc|]. constructor; [|exact Ha'].
        left. now destruct e0.
    + intros [= <- <-].
      destruct (parents_add_parents _ _ _ _ _ _ l E)
        as [Hl|[-> [hp Hl]]]; rewrite Hl.
      * exists []. split; [now rewrite app_nil_r|constructor].
      * exists [(hp, snd e0)]. split; [reflexivity|].
        constructor; [|constructor]. left. now destruct e0.
Qed.

Lemma add_parents_records (fuel : nat) (n : loc) (ps : list loc) (h : heap) :
  add_parents builtin_hash fuel n ps h
  = (for_each (map (fun p => (n, p)) ps) (record builtin_hash fuel) ;;;
     ret n) h.
Proof. unfold add_parents, bind. now rewrite for_each_map. Qed.

(** X8: when [add_parents] returns, each parent given is a member of
    the node's parent set; the set holds what it held, followed by
    entries for parents of the call; and no field of any node and no
    other parent set has changed. *)
Theorem add_parents_adds_members (fuel : nat) (n : loc) (ps : list loc)
  (h h' : heap) :
  add_parents builtin_hash fuel n ps h = (Return n, h') ->
  same_fields h h'
  /\ (forall p, In p ps ->
        exists hp, __hash__ builtin_hash fuel h p = Return hp
                   /\ set_contains h' (parents h' n) hp p = true)
  /\ (exists added, parents h' n = parents h n ++ added
                    /\ Forall (fun x => In (snd x) ps) added)
  /\ (forall l, l <> n -> parents h' l = parents h l).
Proof.
  rewrite add_parents_records. unfold bind.
  destruct (for_each _ _ h) as [[[]|e] h1] eqn:E; [|discriminate].
  intros [= <-].
  destruct (record_all_again builtin_hash _ _ _ _ _ E) as [[F _] _].
  split; [exact F|]. split; [|split].
  - intros p Hp.
    apply (record_all_members _ _ _ _ E (n, p)).
    apply in_map_iff. eauto.
  - destruct (record_all_added _ _ _ _ _ n E) as (added & Hp & Ha).
    exists added. split; [exact Hp|].
    eapply Forall_impl; [|exact Ha]. simpl.
    intros x (p & Heq & Hin)%in_map_iff.
    assert (p = snd x) by congruence. now subst.
  - intros l Hne.
    destruct (record_all_added _ _ _ _ _ l E) as ([|x added] & Hp & Ha).
    + now rewrite app_nil_r in Hp.
    + apply Forall_cons_iff in Ha as [(p & Heq & _)%in_map_iff _].
      congruence.
Qed.

(** X9: when [compile_parents] returns, every node that [flatten]
    yields is a member of the parent set of each of its children; what
    a parent set has gained are such nodes only; and no field of any node
    has changed. *)
Theorem compile_parents_links_children (fuel : nat) (root : loc)
  (h h' : heap) :
  compile_parents builtin_hash fuel root h = (Return root, h') ->
  exists nodes,
    Node_flatten fuel h root = Return nodes
    /\ same_fields h h'
    /\ (forall n c, In n nodes -> In c (children h n) ->
          exists hn, __hash__ builtin_hash fuel h n = Return hn
                     /\ set_contains h' (parents h' c) hn n = true)
    /\ (forall c, exists added,
          parents h' c = parents h c ++ added
          /\ Forall (fun x => In (snd x) nodes /\ In c (children h (snd x)))
               added).
Proof.
  unfold compile_parents.
  change (fun node => add_self_as_parent builtin_hash fuel node ;;; ret tt)
    with (visit builtin_hash fuel).
  unfold bind. rewrite apply_trace. unfold exec, bind.
  destruct (for_each _ _ h) as [[[]|e] h1] eqn:E; [|discriminate].
  destruct (snd (trace fuel h root)) as [e|] eqn:Hs; simpl; [discriminate|].
  intros [= <-].
  destruct (trace_flatten fuel h root Hs) as (nodes & Hf & He).
  rewrite He in E. exists nodes. split; [exact Hf|].
  destruct (record_all_again builtin_hash _ _ _ _ _ E) as [[F _] _].
  split; [exact F|]. split.
  - intros n c Hn Hc.
    apply (record_all_members _ _ _ _ E (c, n)).
    apply in_flat_map. exists n. split; [exact Hn|].
    unfold edges_of. apply in_map_iff. eauto.
  - intros c. destruct (record_all_added _ _ _ _ _ c E) as (added & Hp & Ha).
    exists added. split; [exact Hp|].
    eapply Forall_impl; [|exact Ha]. simpl.
    intros x (n & Hn & Hin)%in_flat_map. unfold edges_of in Hin.
    apply in_map_iff in Hin as (c' & Heq & Hc).
    assert (c' = c /\ n = snd x) as [-> ->] by (split; congruence).
    tauto.
Qed.

End ParentMembers.

(** The trivial query after [compile_parents], and its table after two
    more parents. *)
Definition linked_query : heap :=
  Eval vm_compute in snd (compile_parents (fun _ => 0%Z) 5 4 trivial_query).

Definition adopted_table : heap :=
  Eval vm_compute in snd (add_parents (fun _ => 0%Z) 2 0 [3; 2] trivial_query).

Lemma add_parents_adds_members_witness :
  same_fields trivial_query adopted_table
  /\ (forall p, In p [3; 2] ->
        exists hp, __hash__ (fun _ => 0%Z) 2 trivial_query p = Return hp
                   /\ set_contains adopted_table (parents adopted_table 0)
                        hp p = true)
  /\ (exists added,
        parents adopted_table 0 = parents trivial_query 0 ++ added
        /\ Forall (fun x => In (snd x) [3; 2]) added)
  /\ (forall l, l <> 0 -> parents adopted_table l = parents trivial_query l).
Proof.
  apply (add_parents_adds_members (fun _ => 0%Z) 2 0 [3; 2] trivial_query).
  reflexivity.
Defined.

Lemma compile_parents_links_children_witness :
  exists nodes,
    Node_flatten 5 trivial_query 4 = Return nodes
    /\ same_fields trivial_query linked_query
    /\ (forall n c, In n nodes -> In c (children trivial_query n) ->
          exists hn, __hash__ (fun _ => 0%Z) 5 trivial_query n = Return hn
                     /\ set_contains linked_query (parents linked_query c)
                          hn n = true)
    /\ (forall c, exists added,
          parents linked_query c = parents trivial_query c ++ added
          /\ Forall (fun x => In (snd x) nodes
                              /\ In c (children trivial_query (snd x)))
               added).
Proof.
  apply (compile_parents_links_children (fun _ => 0%Z) 5 4 trivial_query).
  reflexivity.
Defined.

(** *** Taking parents away *)

Lemma set_contains_view (h h' : heap) (s : pyset) (hx : Z) (x : loc) :
  heap_view h = heap_view h' -> set_contains h s hx x = set_contains h' s hx x.
Proof.
  intros H. unfold set_contains. apply existsb_pointwise. intros e.
  now rewrite (eq_view h h' _ _ H).
Qed.

Lemma set_discard_view (h h' : heap) (s : pyset) (hx : Z) (x : loc) :
  heap_view h = heap_view h' -> set_discard h s hx x = set_discard h' s hx x.
Proof.
  intros H. induction s as [|e s IH]; simpl; [reflexivity|].
  now rewrite (eq_view h h' _ _ H), IH.
Qed.

Lemma set_discard_absent (h : heap) (s : pyset) (hx : Z) (x : loc) :
  set_contains h s hx x = false -> set_discard h s hx x = s.
Proof.
  induction s as [|e s IH]; simpl; [reflexivity|].
  intros [-> Hs]%orb_false_iff. now rewrite IH.
Qed.

Lemma set_discard_last (h : heap) (s : pyset) (hx : Z) (x : loc) :
  set_contains h s hx x = false -> set_discard h (s ++ [(hx, x)]) hx x = s.
Proof.
  induction s as [|e s IH]; simpl.
  - intros _. now rewrite Z.eqb_refl, Nat.eqb_refl.
  - intros [-> Hs]%orb_false_iff. now rewrite IH.
Qed.

Lemma with_parents_same (o : obj) : with_parents o (oparents o) = o.
Proof. now destruct o. Qed.

Lemma getattr_same_fields (h h' : heap) (l : loc) (n : string) (v : value) :
  same_fields h h' ->
  getattr l n h = (Return v, h) -> getattr l n h' = (Return v, h').
Proof.
  intros F. pose proof (skel_lookup h h' l F) as Hl. unfold getattr.
  destruct (h !! l) as [o|], (h' !! l) as [o'|]; try contradiction;
    [|discriminate].
  unfold skel in Hl. unfold getfield. injection Hl as -> ->.
  destruct (_ ≫= _); [|discriminate]. now intros [= ->].
Qed.

Section ParentRemoval.
Context (builtin_hash : hkey -> Z).

Lemma set_of_singleton (fuel : nat) (h : heap) (p : loc) (hp : Z) :
  __hash__ builtin_hash fuel h p = Return hp ->
  set_of_list builtin_hash fuel h [p] = Return [(hp, p)].
Proof. intros H. unfold set_of_list. simpl. now rewrite H. Qed.

(** X10: for a node [p] that is not a member of the parent set of [n],
    [n.remove_parents(p)] changes nothing, and [n.add_parents(p)]
    followed by [n.remove_parents(p)] gives the store back as it was. *)
Theorem remove_parents_undoes_add_parents (fuel : nat) (n p : loc)
  (h : heap) (o : obj) (hp : Z) :
  h !! n = Some o ->
  __hash__ builtin_hash fuel h p = Return hp ->
  set_contains h (oparents o) hp p = false ->
  remove_parents builtin_hash fuel n [p] h = (Return n, h)
  /\ exists h1,
       add_parents builtin_hash fuel n [p] h = (Return n, h1)
       /\ parents h1 n = oparents o ++ [(hp, p)]
       /\ remove_parents builtin_hash fuel n [p] h1 = (Return n, h).
Proof.
  intros Ho Hh Hc. split.
  - unfold remove_parents. rewrite Ho, (set_of_singleton _ _ _ _ Hh).
    unfold set_difference_update. simpl.
    rewrite (set_discard_absent _ _ _ _ Hc), with_parents_same.
    now rewrite list_insert_id.
  - set (o1 := with_parents o (oparents o ++ [(hp, p)])).
    exists (<[n:=o1]> h).
    assert (F : same_fields h (<[n:=o1]> h))
      by (eapply same_fields_update; eauto).
    assert (Ho1 : <[n:=o1]> h !! n = Some o1)
      by (eapply lookup_update; eauto).
    split; [|split].
    + unfold add_parents. simpl. unfold bind, ret, parents_add.
      now rewrite Ho, Hh, Hc.
    + now rewrite (parents_lookup _ _ _ Ho1).
    + unfold remove_parents. rewrite Ho1.
      rewrite (set_of_singleton fuel _ p hp)
        by (now rewrite <- (hash_same_fields builtin_hash fuel h _ p F)).
      unfold set_difference_update. simpl.
      rewrite <- (set_discard_view h _ _ _ _ (same_fields_view _ _ F)).
      rewrite (set_discard_last _ _ _ _ Hc).
      rewrite list_insert_insert_eq.
      change (with_parents o1 (oparents o)) with (with_parents o (oparents o)).
      rewrite with_parents_same. now rewrite list_insert_id.
Qed.

(** *** The name under an alias *)

(** X11: a Function, Alias, Column or Table without parents answers
    [alias_or_name] with its own name; once an Alias is its only parent
    it answers with the name of the Alias; and once a second parent is
    added it answers with its own name again. *)
Theorem alias_or_name_needs_a_single_parent (fuel : nat) (c al : loc)
  (h : heap) (o ao : obj) (own an : value) (hal : Z) :
  h !! c = Some o -> is_Named (ocls o) = true -> oparents o = [] ->
  getfield o "name" = Some own ->
  h !! al = Some ao -> ocls ao = Alias -> getfield ao "name" = Some an ->
  __hash__ builtin_hash fuel h al = Return hal ->
  alias_or_name c h = (Return own, h)
  /\ exists h1,
       add_parents builtin_hash fuel c [al] h = (Return c, h1)
       /\ alias_or_name c h1 = (Return an, h1)
       /\ forall p hp,
            __hash__ builtin_hash fuel h1 p = Return hp ->
            set_contains h1 [(hal, al)] hp p = false ->
            exists h2,
              add_parents builtin_hash fuel c [p] h1 = (Return c, h2)
              /\ alias_or_name c h2 = (Return own, h2).
Proof.
  intros Ho HN Hps Hown Hal Hcls Han Hh.
  assert (Hg : getattr c "name" h = (Return own, h))
    by (eapply getattr_at; eauto).
  assert (Hga : getattr al "name" h = (Return an, h))
    by (eapply getattr_at; eauto).
  split.
  { unfold alias_or_name, bind, get. now rewrite Ho, HN, Hps. }
  set (o1 := with_parents o [(hal, al)]).
  set (h1 := <[c:=o1]> h).
  assert (F : same_fields h h1) by (eapply same_fields_update; eauto).
  assert (Ho1 : h1 !! c = Some o1) by (eapply lookup_update; eauto).
  exists h1. split; [|split].
  - unfold add_parents. simpl. unfold bind, ret, parents_add.
    rewrite Ho, Hh, Hps. reflexivity.
  - unfold alias_or_name, bind, get. rewrite Ho1.
    change (ocls o1) with (ocls o). rewrite HN.
    change (oparents o1) with [(hal, al)]. lazy beta iota.
    rewrite <- (type_of_view h h1 (VRef al) (same_fields_view _ _ F)).
    simpl. rewrite Hal, Hcls.
    rewrite bool_decide_eq_true_2 by reflexivity.
    now apply (getattr_same_fields h h1).
  - intros p hp Hhp Hc.
    set (o2 := with_parents o1 ([(hal, al)] ++ [(hp, p)])).
    set (h2 := <[c:=o2]> h1).
    assert (F2 : same_fields h1 h2) by (eapply same_fields_update; eauto).
    assert (Ho2 : h2 !! c = Some o2) by (eapply lookup_update; eauto).
    exists h2. split.
    + unfold add_parents. simpl. unfold bind, ret, parents_add.
      rewrite Ho1, Hhp. change (oparents o1) with [(hal, al)].
      rewrite Hc. reflexivity.
    + unfold alias_or_name, bind, get. rewrite Ho2.
      change (ocls o2) with (ocls o). rewrite HN.
      change (oparents o2) with [(hal, al); (hp, p)]. lazy beta iota.
      apply (getattr_same_fields h1 h2); [exact F2|].
      now apply (getattr_same_fields h h1).
Qed.

End ParentRemoval.

(** A table and two aliases of it. *)
Definition aliased_table : heap :=
  [mk_obj Name [VStr "t"; VStr ""] [] false;
   mk_obj Table [VRef 0; VNone; VList []] [] false;
   mk_obj Name [VStr "a"; VStr ""] [] false;
   mk_obj Alias [VRef 2; VNone; VRef 1] [] false;
   mk_obj Name [VStr "b"; VStr ""] [] false;
   mk_obj Alias [VRef 4; VNone; VRef 1] [] false].

Lemma remove_parents_undoes_add_parents_witness :
  remove_parents (fun _ => 0%Z) 3 1 [3] aliased_table
  = (Return 1, aliased_table)
  /\ exists h1,
       add_parents (fun _ => 0%Z) 3 1 [3] aliased_table = (Return 1, h1)
       /\ parents h1 1 = [] ++ [(0%Z, 3)]
       /\ remove_parents (fun _ => 0%Z) 3 1 [3] h1
          = (Return 1, aliased_table).
Proof.
  apply (remove_parents_undoes_add_parents (fun _ => 0%Z) 3 1 3 aliased_table
           (mk_obj Table [VRef 0; VNone; VList []] [] false) 0%Z);
    reflexivity.
Defined.

Lemma alias_or_name_needs_a_single_parent_witness :
  alias_or_name 1 aliased_table = (Return (VRef 0), aliased_table)
  /\ exists h1,
       add_parents (fun _ => 0%Z) 3 1 [3] aliased_table = (Return 1, h1)
       /\ alias_or_name 1 h1 = (Return (VRef 2), h1)
       /\ forall p hp,
            __hash__ (fun _ => 0%Z) 3 h1 p = Return hp ->
            set_contains h1 [(0%Z, 3)] hp p = false ->
            exists h2,
              add_parents (fun _ => 0%Z) 3 1 [p] h1 = (Return 1, h2)
              /\ alias_or_name 1 h2 = (Return (VRef 0), h2).
Proof.
  apply (alias_or_name_needs_a_single_parent (fun _ => 0%Z) 3 1 3
           aliased_table
           (mk_obj Table [VRef 0; VNone; VList []] [] false)
           (mk_obj Alias [VRef 2; VNone; VRef 1] [] false)
           (VRef 0) (VRef 2) 0%Z);
    reflexivity.
Defined.

(** *** Names, namespaces and the nodes made from them *)

Section NameConversions.
Context (builtin_hash : hkey -> Z).

(** X12: [Namespace.pop_self] raises IndexError on a namespace without
    names and leaves the store as it was; otherwise it returns the last
    name and the namespace itself, the namespace having lost that name
    and the name its parents. *)
Theorem pop_self_takes_the_last_name (h : heap) (self : loc) (o : obj) :
  h !! self = Some o -> ocls o = Namespace ->
  (ofields o = [VList []] -> pop_self self h = (Throw IndexError, h))
  /\ (forall rest last lo,
         ofields o = [VList (rest ++ [VRef last])] ->
         let h1 := <[self:=setfield o "names" (VList rest)]> h in
         h1 !! last = Some lo ->
         pop_self self h
         = (Return (last, self), <[last:=with_parents lo []]> h1)).
Proof.
  intros Hs Hc. destruct o as [oc ofs ops oapi]. simpl in Hc. subst oc.
  split.
  - intros Hf. simpl in Hf. subst ofs. unfold pop_self. apply bind_Throw. unfold pop_name.
    rewrite (bind_Return _ _ _ _ _
               (getattr_at _ _ _ "names" (VList []) Hs eq_refl)).
    reflexivity.
  - intros rest last lo Hf h1 Hl. simpl in Hf. subst ofs. unfold pop_self.
    rewrite (bind_Return _ _ _
               (<[last:=with_parents lo []]> h1) last); [reflexivity|].
    unfold pop_name.
    rewrite (bind_Return _ _ _ _ _
               (getattr_at _ _ _ "names" (VList (rest ++ [VRef last])) Hs
                  eq_refl)).
    cbv beta. unfold pop. rewrite rev_app_distr. cbn [rev app].
    rewrite rev_involutive.
    rewrite (bind_Return _ _ _ _ _ (setattr_at _ _ _ _ _ Hs)).
    unfold clear_parents. fold h1. rewrite Hl. reflexivity.
Qed.

(** The store after [Name.to_column] or [Name.to_table] on a Name
    without parents: the new node [c], and the Name with that node as
    parent. *)
Definition after_Name_to (c : cls) (extra : value) (h : heap) (n : loc)
  (lo : obj) (nm q : string) : heap :=
  <[n:=with_parents lo [(named_hash builtin_hash c nm q, length h)]]> h
  ++ [mk_obj c [VRef n; VNone; extra] [] false].

Definition Name_to (c : cls) (fuel : nat) (self : loc) : M loc :=
  col <- new c [VRef self] [] ;;
  add_self_as_parent builtin_hash fuel col.

Lemma Name_to_steps (c : cls) (extra : value) (fuel : nat) (h : heap)
  (n : loc) (lo : obj) (nm q : string) :
  (c = Column /\ extra = VNone) \/ (c = Table /\ extra = VList []) ->
  h !! n = Some lo -> ocls lo = Name -> ofields lo = [VStr nm; VStr q] ->
  2 <= fuel ->
  let col := length h in
  let h3 := h ++ [mk_obj c [VRef n; VNone; extra] [] false] in
  Name_to c fuel n h
  = (Return col,
     if set_contains h3 (oparents lo) (named_hash builtin_hash c nm q) col
     then h3
     else <[n:=with_parents lo
                 (oparents lo ++ [(named_hash builtin_hash c nm q, col)])]> h3).
Proof.
  intros Hc Hn Hcls Hf Hfuel col h3.
  set (co := mk_obj c [VRef n; VNone; extra] [] false) in *.
  assert (Hnew : new c [VRef n] [] h = (Return col, h3))
    by (destruct Hc as [[-> ->]|[-> ->]]; reflexivity).
  assert (Hc3 : h3 !! col = Some co) by (now apply list_lookup_middle).
  assert (Hn3 : h3 !! n = Some lo).
  { unfold h3. rewrite lookup_app_l by (eapply lookup_lt_Some; eauto).
    exact Hn. }
  assert (Hch : children h3 col = [n]).
  { unfold children. rewrite Hc3. unfold co.
    destruct Hc as [[-> ->]|[-> ->]]; reflexivity. }
  assert (Hh : __hash__ builtin_hash fuel h3 col
               = Return (named_hash builtin_hash c nm q)).
  { destruct fuel as [|[|k]]; try lia. cbn [__hash__]. rewrite Hc3.
    destruct lo as [lc lfs lps lapi]. simpl in Hcls, Hf. subst lc lfs.
    unfold co. destruct Hc as [[-> ->]|[-> ->]]; cbn; rewrite Hn3; reflexivity. }
  unfold Name_to. step Hnew.
  unfold add_self_as_parent, get, bind. rewrite Hch. cbn [for_each].
  unfold add_parents. cbn [for_each]. unfold bind, ret, parents_add.
  rewrite Hn3, Hh.
  now destruct (set_contains h3 (oparents lo) _ col).
Qed.

(** X13: [Name.to_column] (and [Name.to_table]) called twice on a Name
    without parents returns two different nodes, both named by the Name,
    but the Name keeps the first one as its only parent: the second one
    has the same hash and is shallow-equal to the first, so the set does
    not take it. *)
Theorem Name_to_column_twice (fuel : nat) (h : heap) (n : loc) (lo : obj)
  (nm q : string) :
  h !! n = Some lo -> ocls lo = Name -> ofields lo = [VStr nm; VStr q] ->
  oparents lo = [] -> 2 <= fuel ->
  let col_obj := mk_obj Column [VRef n; VNone; VNone] [] false in
  let tab_obj := mk_obj Table [VRef n; VNone; VList []] [] false in
  let h1 := after_Name_to Column VNone h n lo nm q in
  let t1 := after_Name_to Table (VList []) h n lo nm q in
  Name_to_column builtin_hash fuel n h = (Return (length h), h1)
  /\ Name_to_column builtin_hash fuel n h1
     = (Return (S (length h)), h1 ++ [col_obj])
  /\ Name_to_table builtin_hash fuel n h = (Return (length h), t1)
  /\ Name_to_table builtin_hash fuel n t1
     = (Return (S (length h)), t1 ++ [tab_obj]).
Proof.
  intros Hn Hcls Hf Hps Hfuel col_obj tab_obj h1 t1.
  assert (Hlt : n < length h) by (eapply lookup_lt_Some; eauto).
  assert (G : forall c extra,
             (c = Column /\ extra = VNone) \/ (c = Table /\ extra = VList []) ->
             let co := mk_obj c [VRef n; VNone; extra] [] false in
             let hc := after_Name_to c extra h n lo nm q in
             Name_to c fuel n h = (Return (length h), hc)
             /\ Name_to c fuel n hc = (Return (S (length h)), hc ++ [co])).
  { intros c extra Hc co hc. split.
    - rewrite (Name_to_steps c extra fuel h n lo nm q) by assumption.
      rewrite Hps. cbn [set_contains existsb app]. f_equal.
      unfold hc, after_Name_to.
      now rewrite insert_app_l by exact Hlt.
    - set (lo1 := with_parents lo
                    [(named_hash builtin_hash c nm q, length h)]).
      assert (Hlen : length hc = S (length h)).
      { unfold hc, after_Name_to. rewrite length_app, length_insert.
        simpl. lia. }
      assert (Hn1 : hc !! n = Some lo1).
      { unfold hc, after_Name_to.
        rewrite lookup_app_l by (rewrite length_insert; exact Hlt).
        eapply lookup_update; eauto. }
      rewrite (Name_to_steps c extra fuel hc n lo1 nm q)
        by (try assumption; destruct lo; simpl in *; assumption).
      rewrite Hlen.
      replace (set_contains _ _ _ _) with true; [reflexivity|].
      symmetry. unfold lo1. cbn [oparents with_parents set_contains existsb].
      rewrite Z.eqb_refl. cbn [andb].
      assert (He : __eq__ (hc ++ [mk_obj c [VRef n; VNone; extra] [] false])
                     (length h) (VRef (S (length h))) = true).
      { unfold __eq__.
        assert (H1 : (hc ++ [mk_obj c [VRef n; VNone; extra] [] false])
                     !! length h
                     = Some (mk_obj c [VRef n; VNone; extra] [] false)).
        { rewrite lookup_app_l by lia. unfold hc, after_Name_to.
          apply list_lookup_middle. now rewrite length_insert. }
        assert (H2 : (hc ++ [mk_obj c [VRef n; VNone; extra] [] false])
                     !! S (length h)
                     = Some (mk_obj c [VRef n; VNone; extra] [] false)).
        { rewrite <- Hlen. now apply list_lookup_middle. }
        rewrite H1, H2. rewrite bool_decide_eq_true_2 by reflexivity.
        destruct Hc as [[-> ->]|[-> ->]]; cbn; rewrite field_eq_refl;
          reflexivity. }
      cbn [snd]. rewrite He. now rewrite orb_true_r. }
  destruct (G Column VNone) as [G1 G2]; [now left|].
  destruct (G Table (VList [])) as [G3 G4]; [now right|].
  repeat split; assumption.
Qed.

(** X14: [Name.to_namespace] followed by [to_column] on the namespace
    it returns gives a Column named by the Name, with neither namespace
    nor table; the namespace is left without names, and whatever parents
    the Name had, the Column is now its only parent. *)
Theorem Name_to_namespace_to_column (fuel : nat) (h : heap) (n : loc)
  (lo : obj) (nm q : string) :
  h !! n = Some lo -> ocls lo = Name -> ofields lo = [VStr nm; VStr q] ->
  2 <= fuel ->
  (ns <- Name_to_namespace builtin_hash fuel n ;;
   Namespace_to_column builtin_hash fuel ns) h
  = (Return (S (length h)),
     <[n:=with_parents lo
            [(named_hash builtin_hash Column nm q, S (length h))]]> h
     ++ [mk_obj Namespace [VList []] [] false;
         mk_obj Column [VRef n; VNone; VNone] [] false]).
Proof.
  intros Hn Hcls Hf Hfuel.
  assert (Hlt : n < length h) by (eapply lookup_lt_Some; eauto).
  set (nso := mk_obj Namespace [VList [VRef n]] [] false).
  set (h3 := h ++ [nso]).
  assert (Hnew : new Namespace [VList [VRef n]] [] h = (Return (length h), h3))
    by reflexivity.
  assert (Hc3 : h3 !! length h = Some nso) by (now apply list_lookup_middle).
  assert (Hn3 : h3 !! n = Some lo).
  { unfold h3. now rewrite lookup_app_l by exact Hlt. }
  assert (Hh : __hash__ builtin_hash fuel h3 (length h)
               = Return (builtin_hash (KType Namespace))).
  { destruct fuel as [|k]; [lia|]. cbn [__hash__]. now rewrite Hc3. }
  assert (Hto : exists lo1,
             Name_to_namespace builtin_hash fuel n h
             = (Return (length h), <[n:=lo1]> h ++ [nso])
             /\ ocls lo1 = Name /\ ofields lo1 = [VStr nm; VStr q]
             /\ oapi_column lo1 = oapi_column lo).
  { unfold Name_to_namespace. step Hnew.
    unfold add_self_as_parent, get, bind.
    assert (Hch : children h3 (length h) = [n])
      by (unfold children; now rewrite Hc3).
    rewrite Hch. cbn [for_each]. unfold add_parents. cbn [for_each].
    unfold bind, ret, parents_add. rewrite Hn3, Hh.
    destruct (set_contains h3 (oparents lo) _ (length h)).
    - exists lo. rewrite list_insert_id by exact Hn. repeat split; assumption.
    - exists (with_parents lo
                (oparents lo
                 ++ [(builtin_hash (KType Namespace), length h)])).
      split; [|repeat split; assumption].
      unfold h3. now rewrite insert_app_l by exact Hlt. }
  destruct Hto as (lo1 & Hto & Hcls1 & Hf1 & Hapi).
  step Hto.
  change (Namespace_to_column builtin_hash fuel (length h))
    with (Namespace_to builtin_hash Column fuel (length h)).
  set (h1 := <[n:=lo1]> h ++ [nso]).
  assert (Hlen : length (<[n:=lo1]> h) = length h) by apply length_insert.
  assert (Hs1 : h1 !! length h = Some nso).
  { unfold h1. rewrite <- Hlen. now apply list_lookup_middle. }
  assert (Hn1 : h1 !! n = Some lo1).
  { unfold h1. rewrite lookup_app_l by (rewrite Hlen; exact Hlt).
    eapply lookup_update; eauto. }
  rewrite (Namespace_to_nonempty builtin_hash Column VNone fuel h1 (length h)
             n nso lo1 [] nm q);
    try assumption; try reflexivity; [|now left].
  f_equal.
  - f_equal. unfold h1. rewrite length_app, Hlen. simpl. lia.
  - unfold after_to.
    assert (Hl1 : length h1 = S (length h)).
    { unfold h1. rewrite length_app, Hlen. simpl. lia. }
    rewrite Hl1.
    replace (with_parents lo1
               [(named_hash builtin_hash Column nm q, S (length h))])
      with (with_parents lo
              [(named_hash builtin_hash Column nm q, S (length h))])
      by (destruct lo, lo1; unfold with_parents; simpl in *; congruence).
    rewrite list_insert_insert_eq.
    unfold h1.
    rewrite (insert_app_r_alt _ _ (length h)) by (rewrite Hlen; lia).
    rewrite Hlen, Nat.sub_diag.
    rewrite insert_app_l by (rewrite Hlen; exact Hlt).
    rewrite list_insert_insert_eq.
    rewrite <- app_assoc. reflexivity.
Qed.

(** X15: when [Namespace.to_column] or [Namespace.to_table] takes the
    last name out of a namespace, that name loses the parents it had and
    has the new node as its only parent; no other node but the namespace
    changes. *)
Theorem Namespace_to_reparents_the_name (fuel : nat) (h : heap)
  (self last : loc) (o lo : obj) (rest : list value) (nm q : string) :
  h !! self = Some o -> ocls o = Namespace ->
  ofields o = [VList (rest ++ [VRef last])] ->
  h !! last = Some lo -> ocls lo = Name -> ofields lo = [VStr nm; VStr q] ->
  2 <= fuel ->
  let c := snd (Namespace_to_column builtin_hash fuel self h) in
  let t := snd (Namespace_to_table builtin_hash fuel self h) in
  parents c last = [(named_hash builtin_hash Column nm q, length h)]
  /\ parents t last = [(named_hash builtin_hash Table nm q, length h)]
  /\ (forall l, l <> self -> l <> last -> l < length h ->
        c !! l = h !! l /\ t !! l = h !! l).
Proof.
  intros Hs Hsc Hsf Hl Hlc Hlf Hfuel.
  assert (Hlt : last < length h) by (eapply lookup_lt_Some; eauto).
  change (Namespace_to_column builtin_hash fuel self)
    with (Namespace_to builtin_hash Column fuel self).
  change (Namespace_to_table builtin_hash fuel self)
    with (Namespace_to builtin_hash Table fuel self).
  rewrite (Namespace_to_nonempty builtin_hash Column VNone fuel h self last
             o lo rest nm q) by (try assumption; now left).
  rewrite (Namespace_to_nonempty builtin_hash Table (VList []) fuel h self
             last o lo rest nm q) by (try assumption; now right).
  cbn [snd]. unfold after_to.
  assert (P : forall x y, 
             parents (<[last:=with_parents lo x]>
                        (<[last:=with_parents lo []]>
                           (<[self:=setfield o "names" (VList rest)]> h))
                      ++ y) last = x).
  { intros x y. unfold parents.
    rewrite lookup_app_l by (rewrite !length_insert; exact Hlt).
    rewrite list_lookup_insert_eq by (rewrite !length_insert; exact Hlt).
    reflexivity. }
  split; [apply P|]. split; [apply P|].
  intros l H1 H2 H3.
  split; rewrite lookup_app_l by (rewrite !length_insert; exact H3);
    now rewrite !list_lookup_insert_ne by congruence.
Qed.

End NameConversions.

Lemma pop_self_takes_the_last_name_witness :
  (ofields (mk_obj Namespace [VList [VRef 0; VRef 1]] [] false)
   = [VList []] ->
   pop_self 2 namespace_a_b = (Throw IndexError, namespace_a_b))
  /\ (forall rest last lo,
         ofields (mk_obj Namespace [VList [VRef 0; VRef 1]] [] false)
         = [VList (rest ++ [VRef last])] ->
         let h1 :=
           <[2:=setfield (mk_obj Namespace [VList [VRef 0; VRef 1]] [] false)
                  "names" (VList rest)]> namespace_a_b in
         h1 !! last = Some lo ->
         pop_self 2 namespace_a_b
         = (Return (last, 2), <[last:=with_parents lo []]> h1)).
Proof.
  apply (pop_self_takes_the_last_name namespace_a_b 2
           (mk_obj Namespace [VList [VRef 0; VRef 1]] [] false));
    reflexivity.
Defined.

(** The store [namespace_a_b] after [to_column], respectively
    [to_table], on its first name. *)
Definition a_as_column : heap :=
  after_Name_to (fun _ => 0%Z) Column VNone namespace_a_b 0
    (mk_obj Name [VStr "a"; VStr ""] [] false) "a" "".

Definition a_as_table : heap :=
  after_Name_to (fun _ => 0%Z) Table (VList []) namespace_a_b 0
    (mk_obj Name [VStr "a"; VStr ""] [] false) "a" "".

Lemma Name_to_column_twice_witness :
  Name_to_column (fun _ => 0%Z) 2 0 namespace_a_b = (Return 3, a_as_column)
  /\ Name_to_column (fun _ => 0%Z) 2 0 a_as_column
     = (Return 4,
        a_as_column ++ [mk_obj Column [VRef 0; VNone; VNone] [] false])
  /\ Name_to_table (fun _ => 0%Z) 2 0 namespace_a_b = (Return 3, a_as_table)
  /\ Name_to_table (fun _ => 0%Z) 2 0 a_as_table
     = (Return 4,
        a_as_table ++ [mk_obj Table [VRef 0; VNone; VList []] [] false]).
Proof.
  apply (Name_to_column_twice (fun _ => 0%Z) 2 namespace_a_b 0
           (mk_obj Name [VStr "a"; VStr ""] [] false) "a" "");
    first [reflexivity | lia].
Defined.

Lemma Name_to_namespace_to_column_witness :
  (ns <- Name_to_namespace (fun _ => 0%Z) 2 0 ;;
   Namespace_to_column (fun _ => 0%Z) 2 ns) namespace_a_b
  = (Return 4,
     <[0:=with_parents (mk_obj Name [VStr "a"; VStr ""] [] false)
            [(named_hash (fun _ => 0%Z) Column "a" "", 4)]]> namespace_a_b
     ++ [mk_obj Namespace [VList []] [] false;
         mk_obj Column [VRef 0; VNone; VNone] [] false]).
Proof.
  apply (Name_to_namespace_to_column (fun _ => 0%Z) 2 namespace_a_b 0
           (mk_obj Name [VStr "a"; VStr ""] [] false) "a" "");
    first [reflexivity | lia].
Defined.

Lemma Namespace_to_reparents_the_name_witness :
  parents (snd (Namespace_to_column (fun _ => 0%Z) 2 2 namespace_a_b)) 1
  = [(named_hash (fun _ => 0%Z) Column "b" "", 3)]
  /\ parents (snd (Namespace_to_table (fun _ => 0%Z) 2 2 namespace_a_b)) 1
     = [(named_hash (fun _ => 0%Z) Table "b" "", 3)]
  /\ (forall l, l <> 2 -> l <> 1 -> l < 3 ->
        snd (Namespace_to_column (fun _ => 0%Z) 2 2 namespace_a_b) !! l
        = namespace_a_b !! l
        /\ snd (Namespace_to_table (fun _ => 0%Z) 2 2 namespace_a_b) !! l
           = namespace_a_b !! l).
Proof.
  apply (Namespace_to_reparents_the_name (fun _ => 0%Z) 2 namespace_a_b 2 1
           (mk_obj Namespace [VList [VRef 0; VRef 1]] [] false)
           (mk_obj Name [VStr "b"; VStr ""] [] false) [VRef 0] "b" "");
    first [reflexivity | lia].
Defined.

(** *** The namespace of a node and the columns of a table *)

Lemma namespace_Some (h : heap) (c : loc) (v : value) :
  namespace h c = Some v ->
  exists o, h !! c = Some o /\ getfield o "_namespace" = Some v.
Proof.
  unfold namespace. destruct (h !! c) as [o|]; simpl; [eauto|discriminate].
Qed.

Lemma setfield_same (o : obj) (n : string) (v : value) :
  getfield o n = Some v -> setfield o n v = o.
Proof.
  unfold getfield, setfield.
  destruct (index_of n (field_names (ocls o))) as [i|]; simpl;
    [|discriminate].
  intros H. rewrite list_insert_id by exact H. now destruct o.
Qed.

(** X16: on a node without namespace, [add_namespace(ns)] sets it and
    a later [add_namespace] changes nothing; [add_namespace(None)] leaves
    the node without namespace, so that a later call still sets it; on a
    node of a class without namespace the call raises AttributeError. *)
Theorem add_namespace_first_writer_wins (h : heap) (c : loc)
  (ns1 ns2 : value) :
  namespace h c = Some VNone ->
  ns1 <> VNone ->
  add_namespace c VNone h = (Return c, h)
  /\ (exists h1, add_namespace c ns1 h = (Return c, h1)
                 /\ namespace h1 c = Some ns1
                 /\ add_namespace c ns2 h1 = (Return c, h1))
  /\ (forall h' c' ns,
         namespace h' c' = None ->
         add_namespace c' ns h' = (Throw AttributeError, h')).
Proof.
  intros (o & Ho & Hf)%namespace_Some Hne.
  assert (Hset : forall ns,
             add_namespace c ns h
             = (Return c, <[c:=setfield o "_namespace" ns]> h)).
  { intros ns. unfold add_namespace, bind, getattr, setattr.
    rewrite Ho, Hf. simpl. now rewrite Ho. }
  split; [|split].
  - rewrite Hset, (setfield_same _ _ _ Hf). now rewrite list_insert_id.
  - eexists. split; [apply Hset|].
    assert (Hn : namespace (<[c:=setfield o "_namespace" ns1]> h) c = Some ns1).
    { unfold namespace. erewrite lookup_update by eassumption. simpl.
      eapply getfield_setfield; eassumption. }
    split; [exact Hn|].
    apply namespace_Some in Hn as (o1 & Ho1 & Hf1).
    unfold add_namespace, bind, getattr. rewrite Ho1, Hf1.
    destruct ns1; try reflexivity. congruence.
  - intros h' c' ns Hn. unfold add_namespace, bind, getattr.
    unfold namespace in Hn. destruct (h' !! c') as [o'|]; [|reflexivity].
    simpl in Hn. now rewrite Hn.
Qed.

Lemma add_namespace_first_writer_wins_witness :
  add_namespace 0 VNone unbound_column = (Return 0, unbound_column)
  /\ (exists h1, add_namespace 0 (VRef 1) unbound_column = (Return 0, h1)
                 /\ namespace h1 0 = Some (VRef 1)
                 /\ add_namespace 0 (VRef 2) h1 = (Return 0, h1))
  /\ (forall h' c' ns,
         namespace h' c' = None ->
         add_namespace c' ns h' = (Throw AttributeError, h')).
Proof.
  apply (add_namespace_first_writer_wins unbound_column 0 (VRef 1) (VRef 2)).
  - reflexivity.
  - discriminate.
Defined.

(** The table of a column after [add_table(t)]. *)
Definition bound_to (t : loc) (v : value) : value :=
  match v with
  | VNone => VRef t
  | _ => v
  end.

Lemma bound_to_idem (t : loc) (v : value) :
  bound_to t (bound_to t v) = bound_to t v.
Proof. now destruct v. Qed.

Lemma add_table_bound_to (h : heap) (c t : loc) (v : value) :
  table h c = Some v ->
  exists h', add_table c (VRef t) h = (Return c, h')
             /\ table h' c = Some (bound_to t v)
             /\ (forall l, l <> c -> h' !! l = h !! l).
Proof.
  intros Ht.
  assert (v = VNone \/ v <> VNone) as [->|Hv]
    by (destruct v; first [now left | now right]).
  - destruct (table_Some _ _ _ Ht) as (o & Ho & Hf).
    eexists. split; [eapply add_table_unbound; eassumption|]. split.
    + unfold table. erewrite lookup_update by eassumption. simpl.
      eapply getfield_setfield; eassumption.
    + intros l Hl. now rewrite list_lookup_insert_ne by congruence.
  - exists h. split; [eapply add_table_bound; eassumption|].
    split; [|reflexivity]. rewrite Ht. now destruct v.
Qed.

Lemma no_table_with_columns (o : obj) (v : value) :
  getfield o "_columns" = Some v -> getfield o "_table" = None.
Proof.
  unfold getfield. destruct (ocls o); simpl; try discriminate. reflexivity.
Qed.

(** X17: [Table.add_columns] appends every column given, in order and
    with repetitions, to the columns of the table; it binds to the table
    the columns that had no table and leaves the others bound as they
    were; and it changes no other node. *)
Theorem add_columns_binds_unbound_columns (h : heap) (t : loc) (o : obj)
  (old : list value) (cols : list loc) :
  h !! t = Some o -> getfield o "_columns" = Some (VList old) ->
  Forall (fun c => exists v, table h c = Some v) cols ->
  exists h',
    add_columns t cols h = (Return t, h')
    /\ (o' ← h' !! t; getfield o' "_columns")
       = Some (VList (old ++ map VRef cols))
    /\ (forall c, In c cols -> table h' c = bound_to t <$> table h c)
    /\ (forall l, l <> t -> ~ In l cols -> h' !! l = h !! l).
Proof.
  revert h o old. unfold add_columns.
  induction cols as [|c cols IH]; intros h o old Ho Hf Hall.
  - exists h. simpl. rewrite app_nil_r, Ho. simpl.
    repeat split; [exact Hf|contradiction].
  - apply Forall_cons_iff in Hall as [[v Hv] Hall].
    assert (Hct : c <> t).
    { intros ->. unfold table in Hv. rewrite Ho in Hv. simpl in Hv.
      rewrite (no_table_with_columns _ _ Hf) in Hv. discriminate. }
    set (o1 := setfield o "_columns" (VList (old ++ [VRef c]))).
    set (h1 := <[t:=o1]> h).
    assert (Ho1 : h1 !! t = Some o1) by (eapply lookup_update; eauto).
    assert (Hf1 : getfield o1 "_columns" = Some (VList (old ++ [VRef c])))
      by (eapply getfield_setfield; eauto).
    assert (Hv1 : table h1 c = Some v).
    { unfold table, h1. now rewrite list_lookup_insert_ne by congruence. }
    destruct (add_table_bound_to h1 c t v Hv1) as (h2 & Hadd & Hv2 & Hsame).
    assert (Ho2 : h2 !! t = Some o1) by (now rewrite Hsame by congruence).
    assert (Hall2 : Forall (fun c => exists v, table h2 c = Some v) cols).
    { eapply Forall_impl; [|exact Hall]. simpl. intros x [w Hw].
      destruct (decide (x = c)) as [->|Hx]; [eauto|].
      exists w. unfold table. rewrite Hsame by exact Hx.
      destruct (decide (x = t)) as [->|Hxt].
      - exfalso. unfold table in Hw. rewrite Ho in Hw. simpl in Hw.
        rewrite (no_table_with_columns _ _ Hf) in Hw. discriminate.
      - unfold h1. rewrite list_lookup_insert_ne by congruence. exact Hw. }
    destruct (IH h2 o1 (old ++ [VRef c]) Ho2 Hf1 Hall2)
      as (h' & Hrun & Hcols & Htab & Hrest).
    assert (Hbody :
      (cs <- getattr t "_columns" ;;
       match cs with
       | VList l => setattr t "_columns" (VList (l ++ [VRef c]))
       | _ => raise AttributeError
       end ;;;
       add_table c (VRef t) ;;; ret tt) h = (Return tt, h2)).
    { rewrite (bind_Return _ _ _ _ _ (getattr_at _ _ _ _ _ Ho Hf)).
      rewrite (bind_Return _ _ _ _ _ (setattr_at _ _ _ _ _ Ho)).
      fold o1 h1. now rewrite (bind_Return _ _ _ _ _ Hadd). }
    exists h'. split; [|split; [|split]].
    + cbn [for_each].
      rewrite (bind_Return _ _ _ h' tt); [reflexivity|].
      rewrite (bind_Return _ _ _ _ _ Hbody).
      unfold bind in Hrun.
      destruct (for_each cols _ h2) as [[[]|e] h3]; [|discriminate].
      now injection Hrun as <-.
    + rewrite Hcols. simpl. now rewrite <- app_assoc.
    + assert (Hh2 : forall x, x <> c -> table h2 x = table h x).
      { intros x Hx. unfold table. rewrite Hsame by exact Hx.
        destruct (decide (x = t)) as [->|Hxt].
        - rewrite Ho1, Ho. simpl.
          rewrite (no_table_with_columns _ _ Hf1).
          now rewrite (no_table_with_columns _ _ Hf).
        - unfold h1. now rewrite list_lookup_insert_ne by congruence. }
      intros x [<-|Hin].
      * destruct (in_dec Nat.eq_dec c cols) as [Hc|Hc].
        -- rewrite (Htab c Hc), Hv2, Hv. simpl. now rewrite bound_to_idem.
        -- unfold table at 1. rewrite (Hrest c Hct Hc).
           fold (table h2 c). now rewrite Hv2, Hv.
      * rewrite (Htab x Hin).
        destruct (decide (x = c)) as [->|Hx].
        -- rewrite Hv2, Hv. simpl. now rewrite bound_to_idem.
        -- now rewrite (Hh2 x Hx).
    + intros l Hlt Hin.
      assert (l <> c /\ ~ In l cols) as [Hlc Hl]
        by (split; [intros ->; apply Hin; now left
                   |intros H; apply Hin; now right]).
      rewrite (Hrest l Hlt Hl), Hsame by exact Hlc.
      unfold h1. now rewrite list_lookup_insert_ne by congruence.
Qed.

(** The table [b], a column of the table [a] and a column without
    table. *)
Definition table_and_columns : heap :=
  [mk_obj Table [VStr "a"; VNone; VList []] [] false;
   mk_obj Table [VStr "b"; VNone; VList []] [] false;
   mk_obj Column [VStr "x"; VNone; VRef 0] [] false;
   mk_obj Column [VStr "y"; VNone; VNone] [] false].

Lemma add_columns_binds_unbound_columns_witness :
  exists h',
    add_columns 1 [2; 3; 3] table_and_columns = (Return 1, h')
    /\ (o' ← h' !! 1; getfield o' "_columns")
       = Some (VList ([] ++ map VRef [2; 3; 3]))
    /\ (forall c, In c [2; 3; 3] ->
          table h' c = bound_to 1 <$> table table_and_columns c)
    /\ (forall l, l <> 1 -> ~ In l [2; 3; 3] ->
          h' !! l = table_and_columns !! l).
Proof.
  apply (add_columns_binds_unbound_columns table_and_columns 1
           (mk_obj Table [VStr "b"; VNone; VList []] [] false) [] [2; 3; 3]).
  - reflexivity.
  - reflexivity.
  - repeat constructor; eexists; reflexivity.
Defined.

(** *** Numbers built from other values *)

(** X18: a Number built from a bool holds the integer 0 or 1; built
    from None, an enum member, a list or a node it raises TypeError, and
    built from a string that denotes neither an integer nor a float it
    raises ValueError; when it raises, nothing is added to the store. *)
Theorem Number_of_other_values (h : heap) :
  (forall b,
      new Number [VBool b] [] h
      = (Return (length h),
         h ++ [mk_obj Number [VInt (if b then 1 else 0)] [] false]))
  /\ new Number [VNone] [] h = (Throw TypeError, h)
  /\ (forall e, new Number [VEnum e] [] h = (Throw TypeError, h))
  /\ (forall l, new Number [VList l] [] h = (Throw TypeError, h))
  /\ (forall l, new Number [VRef l] [] h = (Throw TypeError, h))
  /\ (forall s,
         int_of_string s = None -> float_of_string s = None ->
         new Number [VStr s] [] h = (Throw ValueError, h)).
Proof.
  refine (conj _ (conj _ (conj _ (conj _ (conj _ _))))).
  - intros [|]; reflexivity.
  - reflexivity.
  - reflexivity.
  - reflexivity.
  - reflexivity.
  - intros s Hi Hf. unfold new. simpl. unfold Number__post_init__, py_int,
      py_float. now rewrite Hi, Hf.
Qed.


(** *** apply and flatten *)

Lemma for_each_concat {A} (xss : list (list A)) (body : A -> M unit)
  (h : heap) :
  for_each (concat xss) body h
  = for_each xss (fun xs => for_each xs body) h.
Proof.
  revert h. induction xss as [|xs xss IH]; intros h; simpl; [reflexivity|].
  rewrite for_each_app. unfold bind.
  destruct (for_each xs body h) as [[[]|e] h']; [apply IH|reflexivity].
Qed.

Section ApplyOrder.
Context (func : loc -> M unit).

(** [func] changes no field that the traversal reads. *)
Hypothesis func_keeps_view :
  forall n h, heap_view (snd (func n h)) = heap_view h.

Lemma for_each_keeps_view (ns : list loc) (h : heap) :
  heap_view (snd (for_each ns func h)) = heap_view h.
Proof.
  revert h. induction ns as [|n ns IH]; intros h; simpl; [reflexivity|].
  unfold bind. pose proof (func_keeps_view n h) as Hn.
  destruct (func n h) as [[[]|e] h']; simpl in *; [|exact Hn].
  now rewrite IH.
Qed.

(** X19: when [func] changes no field without leading underscore,
    [apply(func)] calls it on the nodes that [flatten()] yields, in that
    order, and stops where a call raises. *)
Theorem apply_follows_flatten (fuel : nat) (root : loc) (h : heap)
  (nodes : list loc) :
  Node_flatten fuel h root = Return nodes ->
  apply fuel func root h = for_each nodes func h.
Proof.
  revert root h nodes. induction fuel as [|k IH]; intros root h nodes;
    [discriminate|].
  unfold Node_flatten. simpl.
  destruct (omapM (filter k (fun _ _ => true) h) (children h root))
    as [rest|e] eqn:E; simpl; [|discriminate].
  intros [= <-]. simpl. unfold bind at 1 3.
  pose proof (func_keeps_view root h) as Hv.
  destruct (func root h) as [[[]|e] h1]; simpl in Hv; [|reflexivity].
  unfold bind, get. rewrite (children_view h1 h root Hv).
  rewrite for_each_concat. apply omapM_Return in E.
  revert h1 Hv.
  induction E as [|c r cs rest Hc _ IHE]; intros h1 Hv; simpl;
    [reflexivity|].
  unfold bind.
  assert (Hc1 : Node_flatten k h1 c = Return r).
  { rewrite (filter_view k h1 h c Hv). exact Hc. }
  rewrite (IH c h1 r Hc1).
  pose proof (for_each_keeps_view r h1) as Hr.
  destruct (for_each r func h1) as [[[]|e] h2]; simpl in Hr; [|reflexivity].
  apply IHE. congruence.
Qed.

End ApplyOrder.

Lemma visit_keeps_view (builtin_hash : hkey -> Z) (fuel : nat) (n : loc)
  (h : heap) :
  heap_view (snd (visit builtin_hash fuel n h)) = heap_view h.
Proof.
  unfold visit.
  apply (preserves_bind (fun h' => heap_view h' = heap_view h)
           (add_self_as_parent builtin_hash fuel n) (fun _ => ret tt));
    [apply add_self_as_parent_view|intros _; apply preserves_ret|reflexivity].
Qed.

Lemma apply_follows_flatten_witness :
  apply 5 (visit (fun _ => 0%Z) 5) 4 trivial_query
  = for_each [4; 3; 2; 0; 1] (visit (fun _ => 0%Z) 5) trivial_query.
Proof.
  apply (apply_follows_flatten (visit (fun _ => 0%Z) 5)
           (visit_keeps_view (fun _ => 0%Z) 5) 5 4 trivial_query
           [4; 3; 2; 0; 1]).
  reflexivity.
Defined.

(** *** compare as an equivalence *)

(** The mismatches are appended to those found before. *)
Lemma _diff_acc (fuel : nat) (h : heap) (x y : option loc)
  (acc : list pair_) :
  _diff fuel h x y acc = on_return (app acc) (_diff fuel h x y []).
Proof.
  revert x y acc. induction fuel as [|n IH]; intros x y acc; simpl;
    [reflexivity|].
  destruct (ne h x y); [reflexivity|].
  destruct x as [a|], y as [b|]; try reflexivity.
  generalize (zip_longest (children h a) (children h b)). intros ps.
  revert acc. induction ps as [|[c oc] ps IHps]; intros acc; simpl.
  - now rewrite app_nil_r.
  - rewrite (IH c oc acc).
    destruct (_diff n h c oc []) as [d|e]; simpl; [|reflexivity].
    rewrite (IHps (acc ++ d)), (IHps d).
    destruct (ofold _ ps []) as [ds|e]; simpl; [|reflexivity].
    now rewrite app_assoc.
Qed.

Lemma diff_children_step (n : nat) (h : heap) (c oc : option loc)
  (ps : list pair_) :
  diff_children n h ((c, oc) :: ps) [] = Return []
  <-> _diff n h c oc [] = Return []
      /\ diff_children n h ps [] = Return [].
Proof.
  unfold diff_children. simpl. split.
  - destruct (_diff n h c oc []) as [d|e]; simpl; [|discriminate].
    intros H. fold (diff_children n h ps d) in H.
    destruct (diff_children_sound n h (_diff_sound n h) _ _ _ H)
      as (ds & Hds & _).
    symmetry in Hds. apply app_eq_nil in Hds as [-> ->]. auto.
  - intros [-> H]. exact H.
Qed.

Lemma ne_Some_None (h : heap) (a : loc) :
  ne h (Some a) None = true /\ ne h None (Some a) = true.
Proof. unfold ne, __eq__. now destruct (h !! a). Qed.

Lemma diff_children_none (n : nat) (h : heap) (xs ys : list loc) :
  diff_children n h (zip_longest xs ys) [] = Return []
  <-> Forall2 (fun x y => _diff n h (Some x) (Some y) [] = Return []) xs ys.
Proof.
  assert (Hno : forall x y,
             (x = None \/ y = None) -> (x, y) <> (None, None) ->
             _diff n h x y [] <> Return []).
  { intros x y Hxy Hne. destruct n as [|k]; simpl; [discriminate|].
    destruct x as [a|], y as [b|]; try (destruct Hxy; discriminate);
      try congruence.
    - rewrite (proj1 (ne_Some_None h a)). discriminate.
    - rewrite (proj2 (ne_Some_None h b)). discriminate. }
  revert ys. induction xs as [|x xs IH]; intros ys.
  - destruct ys as [|y ys]; simpl.
    + split; [constructor|reflexivity].
    + split; [|inversion 1].
      intros [H _]%diff_children_step. exfalso.
      eapply (Hno None (Some y)); [now left|discriminate|exact H].
  - destruct ys as [|y ys]; simpl.
    + split; [|inversion 1].
      intros [H _]%diff_children_step. exfalso.
      eapply (Hno (Some x) None); [now right|discriminate|exact H].
    + rewrite diff_children_step, IH. split.
      * intros [H1 H2]. now constructor.
      * inversion 1; subst. auto.
Qed.

Lemma _diff_none (n : nat) (h : heap) (a b : loc) :
  _diff (S n) h (Some a) (Some b) [] = Return []
  <-> __eq__ h a (VRef b) = true
      /\ Forall2 (fun x y => _diff n h (Some x) (Some y) [] = Return [])
           (children h a) (children h b).
Proof.
  simpl. unfold ne at 1. rewrite <- diff_children_none.
  destruct (__eq__ h a (VRef b)); simpl.
  - unfold diff_children. split; [auto|now intros [_ H]].
  - split; [discriminate|now intros [H _]].
Qed.

Lemma _diff_trans (fuel : nat) (h : heap) :
  (forall l o, h !! l = Some o -> well_formed o) ->
  forall a b c,
    _diff fuel h (Some a) (Some b) [] = Return [] ->
    _diff fuel h (Some b) (Some c) [] = Return [] ->
    _diff fuel h (Some a) (Some c) [] = Return [].
Proof.
  intros Hw. induction fuel as [|n IH]; intros a b c; [discriminate|].
  rewrite !_diff_none. intros [E1 F1] [E2 F2]. split.
  - destruct (h !! b) as [ob|] eqn:Hb.
    + eapply shallow_eq_trans; eauto.
    + unfold __eq__ in E2. now rewrite Hb in E2.
  - clear E1 E2. revert F2. generalize (children h c).
    induction F1 as [|x y xs ys Hxy _ IHF]; intros zs F2;
      inversion F2; subst; constructor; eauto.
Qed.

(** X20: on a store whose objects have a value for each of their
    fields, [compare] is transitive: when [a.compare(b)] and
    [b.compare(c)] are true, so is [a.compare(c)]. *)
Theorem compare_is_transitive (fuel : nat) (h : heap) (a b c : loc) :
  (forall l o, h !! l = Some o -> well_formed o) ->
  compare fuel h a b = Return true ->
  compare fuel h b c = Return true ->
  compare fuel h a c = Return true.
Proof.
  intros Hw. unfold compare, diff.
  destruct (_diff fuel h (Some a) (Some b) []) as [[|d ds]|e] eqn:E1;
    try discriminate.
  destruct (_diff fuel h (Some b) (Some c) []) as [[|d ds]|e] eqn:E2;
    try discriminate.
  intros _ _. now rewrite (_diff_trans fuel h Hw a b c E1 E2).
Qed.

(** [SELECT a FROM a] three times. *)
Definition three_queries : heap :=
  [mk_obj Table [VStr "a"; VNone; VList []] [] false;
   mk_obj From [VRef 0; VList []] [] false;
   mk_obj Select
     [VBool false; VRef 1; VList []; VNone; VList []; VNone; VNone] [] false;
   mk_obj Table [VStr "a"; VNone; VList []] [] false;
   mk_obj From [VRef 3; VList []] [] false;
   mk_obj Select
     [VBool false; VRef 4; VList []; VNone; VList []; VNone; VNone] [] false;
   mk_obj Table [VStr "a"; VNone; VList []] [] false;
   mk_obj From [VRef 6; VList []] [] false;
   mk_obj Select
     [VBool false; VRef 7; VList []; VNone; VList []; VNone; VNone] [] false].

Lemma compare_is_transitive_witness :
  compare 3 three_queries 2 8 = Return true.
Proof.
  apply (compare_is_transitive 3 three_queries 2 5 8).
  - intros l o H.
    do 9 (destruct l as [|l]; [injection H as <-; reflexivity|]).
    discriminate.
  - reflexivity.
  - reflexivity.
Defined.

(** *** fields *)

Lemma filter_filter_absorb {A} (p q : A -> bool) (l : list A) :
  (forall x, p x = true -> q x = true) ->
  List.filter q (List.filter p l) = List.filter p l.
Proof.
  intros H. induction l as [|x l IH]; simpl; [reflexivity|].
  destruct (p x) eqn:E; simpl; [|exact IH].
  now rewrite (H x E), IH.
Qed.

Lemma refs_of_nodes (vs : list value) :
  Forall (fun v => isinstance_Node v = true) vs -> map VRef (refs vs) = vs.
Proof.
  induction 1 as [|v vs Hv _ IH]; [reflexivity|].
  destruct v; try discriminate. unfold refs in *. cbn [omap list_omap].
  cbn [map]. now f_equal.
Qed.

Lemma fields_are_nodes (flat obfuscated nones : bool) (o : obj) :
  Forall (fun v => isinstance_Node v = true)
    (fields flat true obfuscated nones o).
Proof.
  unfold fields. apply Forall_forall. intros v Hv.
  destruct nones.
  - now apply List.filter_In in Hv.
  - apply List.filter_In in Hv as [Hv _]. now apply List.filter_In in Hv.
Qed.

(** X22: with [nodes_only], [Node.fields] yields nodes only, also when
    [obfuscated] is set, and [nones] makes no difference; [children]
    yields what [fields] yields with its default arguments. *)
Theorem fields_nodes_only (flat obfuscated nones : bool) (o : obj) :
  Forall (fun v => isinstance_Node v = true)
    (fields flat true obfuscated nones o)
  /\ fields flat true obfuscated nones o
     = fields flat true obfuscated false o
  /\ (forall h l, h !! l = Some o ->
        map VRef (children h l) = fields true true false false o).
Proof.
  split; [apply fields_are_nodes|]. split.
  - unfold fields. destruct nones; [|reflexivity].
    symmetry. apply filter_filter_absorb. intros v. now destruct v.
  - intros h l Hl. unfold children. rewrite Hl.
    apply refs_of_nodes, fields_are_nodes.
Qed.

End ast_facts.

(** ** Properties of the builder *)
Module build_facts.
Import py ast build ast_facts.
Local Open Scope string_scope.
Local Open Scope list_scope.
Local Open Scope py_scope.

(** *** The join key of a dimension *)

(** A column that refers to the dimension without naming the column to
    join on, while the dimension has no [id] column. *)
Definition lacks_join_key (dim_node : NodeRevision) (col : ColumnDecl) : bool :=
  references col dim_node
  && match column_dimension_column col with None => true | Some _ => false end
  && negb (has_default_key dim_node).

Definition referencing (dim_node : NodeRevision) (cols : list ColumnDecl)
  : list ColumnDecl :=
  List.filter (fun col => references col dim_node) cols.

Lemma join_dim_cols_from (dim_node table_node : NodeRevision)
  (cols acc : list ColumnDecl) :
  ofold
    (fun join_dim_cols col =>
       if references col dim_node then
         if match column_dimension_column col with None => true | Some _ => false end
            && negb (has_default_key dim_node)
         then Throw (DJException (missing_key_message table_node dim_node col))
         else Return (join_dim_cols ++ [col])
       else Return join_dim_cols)
    cols acc
  = match List.find (lacks_join_key dim_node) cols with
    | Some col =>
        Throw (DJException (missing_key_message table_node dim_node col))
    | None => Return (acc ++ referencing dim_node cols)
    end.
Proof.
  unfold referencing. revert acc.
  induction cols as [|col cols IH]; intros acc; simpl.
  - now rewrite app_nil_r.
  - unfold lacks_join_key at 1.
    destruct (references col dim_node); simpl.
    + destruct (column_dimension_column col); simpl.
      * rewrite IH. destruct (List.find _ cols); [reflexivity|].
        now rewrite <- app_assoc.
      * destruct (has_default_key dim_node) eqn:Hk; simpl.
        -- rewrite IH. destruct (List.find _ cols); [reflexivity|].
           now rewrite <- app_assoc.
        -- reflexivity.
    + apply IH.
Qed.

(** The loop over the columns stops at the first column that lacks a join
    key and otherwise collects the referencing columns. *)
Lemma join_dim_cols_find (dim_node table_node : NodeRevision) :
  join_dim_cols dim_node table_node =
  match List.find (lacks_join_key dim_node) (node_columns table_node) with
  | Some col =>
      Throw (DJException (missing_key_message table_node dim_node col))
  | None => Return (referencing dim_node (node_columns table_node))
  end.
Proof. unfold join_dim_cols. now rewrite join_dim_cols_from. Qed.

(** The first table node with such a column, and the column. *)
Fixpoint first_lacking (dim_node : NodeRevision) (nodes : list NodeRevision)
  : option (NodeRevision * ColumnDecl) :=
  match nodes with
  | [] => None
  | tn :: nodes' =>
      match List.find (lacks_join_key dim_node) (node_columns tn) with
      | Some col => Some (tn, col)
      | None => first_lacking dim_node nodes'
      end
  end.

Lemma join_info_first_lacking {V} (dim_node : NodeRevision) (tables : dict V) :
  match first_lacking dim_node (map fst tables) with
  | Some (tn, col) =>
      join_info dim_node tables
      = Throw (DJException (missing_key_message tn dim_node col))
  | None => exists info, join_info dim_node tables = Return info
  end.
Proof.
  unfold join_info. generalize (@nil (NodeRevision * list ColumnDecl)) at 1 2.
  induction tables as [|[tn v] tables IH]; intros acc; simpl.
  - now exists acc.
  - rewrite join_dim_cols_find.
    destruct (List.find _ (node_columns tn)) as [col|]; simpl; [reflexivity|].
    apply IH.
Qed.

Lemma first_lacking_Some (dim_node : NodeRevision) (nodes : list NodeRevision)
  (tn : NodeRevision) (col : ColumnDecl) :
  first_lacking dim_node nodes = Some (tn, col) ->
  In tn nodes /\ In col (node_columns tn) /\ lacks_join_key dim_node col = true.
Proof.
  induction nodes as [|n nodes IH]; simpl; [discriminate|].
  destruct (List.find _ (node_columns n)) as [c|] eqn:E.
  - intros [= <- <-]. apply find_some in E as [? ?]. auto.
  - intros H. destruct (IH H) as (? & ? & ?). auto.
Qed.

Lemma first_lacking_None (dim_node : NodeRevision) (nodes : list NodeRevision) :
  first_lacking dim_node nodes = None ->
  forall tn col, In tn nodes -> In col (node_columns tn) ->
                 lacks_join_key dim_node col = false.
Proof.
  induction nodes as [|n nodes IH]; simpl; [contradiction|].
  destruct (List.find _ (node_columns n)) as [c|] eqn:E; [discriminate|].
  intros H tn col [<-|Hin] Hc.
  - eapply find_none; eauto.
  - eapply IH; eauto.
Qed.

(** The condition in words: the column is tagged with the dimension, names
    no join column, and the dimension declares no column [id]. *)
Definition without_usable_key (dim_node : NodeRevision) (col : ColumnDecl)
  : Prop :=
  column_dimension col = Some (revision_id dim_node)
  /\ column_dimension_column col = None
  /\ Forall (fun dim_col => column_name dim_col <> "id")
       (node_columns dim_node).

Lemma lacks_join_key_spec (dim_node : NodeRevision) (col : ColumnDecl) :
  lacks_join_key dim_node col = true <-> without_usable_key dim_node col.
Proof.
  unfold lacks_join_key, without_usable_key, references, has_default_key.
  split.
  - intros [[H1 H2]%andb_true_iff H3]%andb_true_iff.
    destruct (column_dimension col) as [d|]; [|discriminate].
    apply Nat.eqb_eq in H1. subst d.
    destruct (column_dimension_column col); [discriminate|].
    repeat split. apply negb_true_iff in H3.
    apply Forall_forall. intros dc Hin Hn.
    assert (Hx : existsb (fun dim_col => String.eqb (column_name dim_col) "id")
                   (node_columns dim_node) = true).
    { apply existsb_exists. exists dc. split; [exact Hin|].
      now apply String.eqb_eq. }
    congruence.
  - intros (H1 & H2 & H3). rewrite H1, H2, Nat.eqb_refl. simpl.
    apply negb_true_iff. apply not_true_is_false. intros Hx.
    apply existsb_exists in Hx as (dc & Hin & Hn).
    apply String.eqb_eq in Hn. rewrite Forall_forall in H3.
    exact (H3 dc Hin Hn).
Qed.

Section DimensionKeys.
Context (amenable_name : string -> string).
Context (Query_build :
  loc -> BuildPlan -> Z -> Database -> option string -> M unit).

(** C8: while a dimension that is not among the joined tables is being
    resolved, the metadata check raises exactly when some joined table
    node declares a column tagged with that dimension, without join
    column, while the dimension has no column [id]; the exception is a
    DJException whose message names the node, the dimension and the
    column; and it leaves [_build_dimensions_on_select] before the select
    is touched. *)
Theorem missing_join_key_is_fatal (dim_node : NodeRevision)
  (tables : dict (list loc)) :
  ((exists e, join_info dim_node tables = Throw e)
   <-> exists tn col,
        In tn (map fst tables) /\ In col (node_columns tn)
        /\ without_usable_key dim_node col)
  /\ (forall e,
         join_info dim_node tables = Throw e ->
         exists tn col,
           In tn (map fst tables) /\ In col (node_columns tn)
           /\ without_usable_key dim_node col
           /\ e = DJException (missing_key_message tn dim_node col))
  /\ (forall e select dim_cols rest lookup depth database dialect h,
         join_info dim_node tables = Throw e ->
         dict_mem tables dim_node = false ->
         _build_dimensions_on_select amenable_name Query_build select
           ((dim_node, dim_cols) :: rest) tables lookup depth database
           dialect h
         = (Throw e, h)).
Proof.
  pose proof (join_info_first_lacking dim_node tables) as H.
  destruct (first_lacking dim_node (map fst tables)) as [[tn col]|] eqn:E.
  - apply first_lacking_Some in E as (Ht & Hc & Hl).
    apply lacks_join_key_spec in Hl.
    split; [|split].
    + split; [intros _; eauto|intros _; eauto].
    + intros e He. rewrite H in He. injection He as <-.
      exists tn, col. auto.
    + intros e select dim_cols rest lookup depth database dialect h He Hm.
      unfold _build_dimensions_on_select. cbn [for_each fst snd].
      rewrite Hm. cbn [negb]. unfold join_dimension.
      rewrite (bind_Throw _ _ h h e); [reflexivity|].
      rewrite (bind_Throw _ _ h h e); [reflexivity|].
      unfold lift. now rewrite He.
  - destruct H as [info Hinfo].
    split; [|split].
    + split.
      * intros [e He]. congruence.
      * intros (tn & col & Ht & Hc & Hl). apply lacks_join_key_spec in Hl.
        rewrite (first_lacking_None _ _ E tn col Ht Hc) in Hl. discriminate.
    + intros e He. congruence.
    + intros e select dim_cols rest lookup depth database dialect h He.
      congruence.
Qed.

End DimensionKeys.

(** *** Dimension joins on the scenario of the specification *)

Definition warehouse : Database := mk_database 1.

(** The dimension node [users] with the columns [id] and [country]. *)
Definition users : NodeRevision :=
  mk_revision 2 "users" DIMENSION
    [mk_column "id" None None; mk_column "country" None None]
    [mk_table warehouse "users" None None].

(** The node [orders], whose [user_id] refers to [users] through [id]. *)
Definition orders : NodeRevision :=
  mk_revision 1 "orders" SOURCE
    [mk_column "user_id" (Some 2) (Some "id")]
    [mk_table warehouse "orders" None None].

(** [SELECT user_id, country FROM orders] after the columns were bound:
    [user_id] to the table [orders] (1), [country] to a placeholder table
    for [users] (5) that is not in the FROM clause; followed by the query
    that defines [users] (13). *)
Definition orders_by_country : heap :=
  [mk_obj Name [VStr "orders"; VStr ""] [] false;
   mk_obj Table [VRef 0; VNone; VList [VRef 3]] [] false;
   mk_obj Name [VStr "user_id"; VStr ""] [] false;
   mk_obj Column [VRef 2; VNone; VRef 1] [] false;
   mk_obj Name [VStr "users"; VStr ""] [] false;
   mk_obj Table [VRef 4; VNone; VList [VRef 7]] [] false;
   mk_obj Name [VStr "country"; VStr ""] [] false;
   mk_obj Column [VRef 6; VNone; VRef 5] [] false;
   mk_obj From [VRef 1; VList []] [] false;
   mk_obj Select
     [VBool false; VRef 8; VList []; VNone; VList [VRef 3; VRef 7]; VNone;
      VNone] [] false;
   mk_obj Name [VStr "dim_users"; VStr ""] [] false;
   mk_obj Table [VRef 10; VNone; VList []] [] false;
   mk_obj From [VRef 11; VList []] [] false;
   mk_obj Wildcard [VNone] [] false;
   mk_obj Select
     [VBool false; VRef 12; VList []; VNone; VList [VRef 13]; VNone; VNone]
     [] false;
   mk_obj Query [VRef 14; VList []] [] false].

Definition dj_node_of (t : loc) : option NodeRevision :=
  match t with
  | 1 => Some orders
  | 5 => Some users
  | _ => None
  end.

(** A [Query.build] that leaves the dimension's query as it is. *)
Definition built (_ : loc) (_ : BuildPlan) (_ : Z) (_ : Database)
  (_ : option string) : M unit := ret tt.

Definition users_plan : dict (list Database * BuildPlan) :=
  [(users, ([warehouse], Plan 15 []))].

(** A column that already has a table. *)
Definition bound (h : heap) (col : loc) : Prop :=
  exists t, table h col = Some t /\ t <> VNone.

(** The loop that is meant to re-bind the dimension's columns (lines
    111-114) changes nothing when they are bound. *)
Lemma rebinding_changes_nothing (dim_cols : list loc) (dim_ast : loc)
  (h : heap) :
  Forall (bound h) dim_cols ->
  for_each dim_cols
    (fun dim_col => add_table dim_col (VRef dim_ast) ;;; ret tt) h
  = (Return tt, h).
Proof.
  induction 1 as [|col cols [t [Ht Hne]] _ IH]; simpl; [reflexivity|].
  unfold bind at 1 2. rewrite (add_table_bound h col t _ Ht Hne). exact IH.
Qed.

Lemma dict_set_values {V} (P : V -> Prop) (d : dict V) (k : NodeRevision)
  (v : V) :
  Forall (fun kv => P (snd kv)) d -> P v ->
  Forall (fun kv => P (snd kv)) (dict_set d k v).
Proof.
  intros Hd Hv. induction Hd as [|[k' v'] d Hk Hd IH]; simpl.
  - constructor; [exact Hv|constructor].
  - destruct (same_revision k' k); constructor; auto.
Qed.

Lemma dict_get_values {V} (P : V -> Prop) (d : dict V) (k : NodeRevision)
  (v : V) :
  Forall (fun kv => P (snd kv)) d -> dict_get d k = Some v -> P v.
Proof.
  intros Hd. induction Hd as [|[k' v'] d Hk Hd IH]; simpl; [discriminate|].
  destruct (same_revision k' k); [now intros [= <-]|exact IH].
Qed.

Lemma dimension_of_bound (dj_node : loc -> option NodeRevision) (h : heap)
  (col : loc) (node : NodeRevision) :
  dimension_of dj_node h col = Some node -> bound h col.
Proof.
  unfold dimension_of, bound.
  destruct (table h col) as [[| | | | | | |t]|]; try discriminate.
  intros _. exists (VRef t). split; [reflexivity|discriminate].
Qed.

(** Every column that [_get_tables_and_dim_cols] files under a dimension
    has a table. *)
Lemma dimension_columns_are_bound (dj_node : loc -> option NodeRevision)
  (fuel : nat) (select : loc) (h h' : heap)
  (dimension_columns tables : dict (list loc)) :
  _get_tables_and_dim_cols dj_node fuel select h
  = (Return (dimension_columns, tables), h') ->
  h' = h
  /\ Forall (fun kv => Forall (bound h) (snd kv)) dimension_columns.
Proof.
  unfold _get_tables_and_dim_cols, bind, get, lift, ret.
  destruct (find_all fuel Table h select) as [ts|e]; [|discriminate].
  destruct (find_all fuel Column h select) as [cs|e]; [|discriminate].
  intros [= <- _ <-]. split; [reflexivity|].
  generalize (Forall_nil (fun kv : NodeRevision * list loc =>
                            Forall (bound h) (snd kv))).
  generalize (@nil (NodeRevision * list loc)).
  induction cs as [|c cs IH]; intros d Hd; simpl; [exact Hd|].
  apply IH. destruct (dimension_of dj_node h c) as [node|] eqn:E; [|exact Hd].
  unfold dict_append. apply dict_set_values; [exact Hd|].
  apply Forall_app. split.
  - destruct (dict_get d node) as [vs|] eqn:G; simpl; [|constructor].
    exact (dict_get_values _ _ _ _ Hd G).
  - constructor; [|constructor]. eapply dimension_of_bound; eauto.
Qed.

(** C1 on the scenario [SELECT user_id, country FROM orders], one level
    of the build plan left: the call returns, the dimension's select (14)
    is wrapped in an Alias (17) named [users], and one LEFT JOIN of that
    alias is appended to the FROM clause, but the column [country] (7) is
    still bound to the placeholder table (5), not to the alias.  With no
    level left the call raises TypeError.  In general the re-binding loop
    changes nothing on columns that have a table, which is the case of
    every column [_get_tables_and_dim_cols] files under a dimension. *)
Theorem dimension_columns_are_not_rebound :
  (let r := _build_dimensions_on_select (fun s => s) built 9
              [(users, [7])] [(orders, [1])] users_plan 1 warehouse None
              orders_by_country in
   _get_tables_and_dim_cols dj_node_of 10 9 orders_by_country
   = (Return ([(users, [7])], [(orders, [1])]), orders_by_country)
   /\ fst r = Return tt
   /\ snd r !! 17 = Some (mk_obj Alias [VRef 16; VNone; VRef 14] [] false)
   /\ snd r !! 16 = Some (mk_obj Name [VStr "users"; VStr ""] [] false)
   /\ snd r !! 8 = Some (mk_obj From [VRef 1; VList [VRef 23]] [] false)
   /\ snd r !! 23
      = Some (mk_obj Join
                [VEnum (EJoin JoinKind.LeftOuter); VRef 17; VRef 22] []
                false)
   /\ table orders_by_country 7 = Some (VRef 5)
   /\ table (snd r) 7 = Some (VRef 5))
  /\ fst (_build_dimensions_on_select (fun s => s) built 9
            [(users, [7])] [(orders, [1])] users_plan 0 warehouse None
            orders_by_country)
     = Throw TypeError
  /\ (forall dim_cols dim_ast h,
         Forall (bound h) dim_cols ->
         for_each dim_cols
           (fun dim_col => add_table dim_col (VRef dim_ast) ;;; ret tt) h
         = (Return tt, h))
  /\ (forall dj_node fuel select h h' dimension_columns tables,
         _get_tables_and_dim_cols dj_node fuel select h
         = (Return (dimension_columns, tables), h') ->
         Forall (fun kv => Forall (bound h) (snd kv)) dimension_columns).
Proof.
  split; [|split; [|split]].
  - vm_compute. repeat split.
  - vm_compute. reflexivity.
  - exact rebinding_changes_nothing.
  - intros dj_node fuel select h h' dcs ts H.
    exact (proj2 (dimension_columns_are_bound _ _ _ _ _ _ _ H)).
Qed.

(** *** Filter splicing *)

(** [l.n] in the store [h]. *)
Definition field (h : heap) (l : loc) (n : string) : option value :=
  o ← h !! l; getfield o n.

Lemma getattr_field (h : heap) (l : loc) (n : string) (v : value) :
  field h l n = Some v -> getattr l n h = (Return v, h).
Proof.
  unfold field, getattr. destruct (h !! l) as [o|]; simpl; [|discriminate].
  now intros ->.
Qed.

Lemma getnode_field (h : heap) (l : loc) (n : string) (r : loc) :
  field h l n = Some (VRef r) -> getnode l n h = (Return r, h).
Proof.
  intros H. unfold getnode. now rewrite (bind_Return _ _ _ _ _ (getattr_field _ _ _ _ H)).
Qed.

Lemma index_of_inj (names : list string) (n n' : string) (i : nat) :
  index_of n names = Some i -> index_of n' names = Some i -> n = n'.
Proof.
  revert i. induction names as [|x names IH]; intros i; simpl; [discriminate|].
  destruct (String.eqb x n) eqn:E1, (String.eqb x n') eqn:E2.
  - apply String.eqb_eq in E1, E2. congruence.
  - intros [= <-]. destruct (index_of n' names); discriminate.
  - destruct (index_of n names); [|discriminate]. intros [= <-]. discriminate.
  - destruct (index_of n names) as [j|] eqn:E; [|discriminate].
    destruct (index_of n' names) as [j'|] eqn:E'; [|discriminate].
    simpl. intros [= <-] [= ->]. eapply IH; eauto.
Qed.

Lemma getfield_setfield_other (o : obj) (n n' : string) (v : value) :
  n' <> n -> getfield (setfield o n v) n' = getfield o n'.
Proof.
  intros Hne. unfold getfield. rewrite ocls_setfield. unfold setfield.
  destruct (index_of n (field_names (ocls o))) as [i|] eqn:E; [|reflexivity].
  destruct (index_of n' (field_names (ocls o))) as [j|] eqn:E'; [|reflexivity].
  simpl. apply list_lookup_insert_ne. intros ->.
  apply Hne. symmetry. eapply index_of_inj; eauto.
Qed.

(** How the store may change while the function runs: objects stay, keep
    their class and a set API flag; all but [sel] keep their fields, and
    [sel] keeps the fields not listed in [changed]. *)
Definition evolves (sel : loc) (changed : list string) (h h' : heap) : Prop :=
  forall l o,
    h !! l = Some o ->
    exists o',
      h' !! l = Some o' /\ ocls o' = ocls o
      /\ (oapi_column o = true -> oapi_column o' = true)
      /\ (l <> sel -> ofields o' = ofields o)
      /\ (forall n, n ∉ changed -> getfield o' n = getfield o n).

Lemma evolves_refl (sel : loc) (changed : list string) (h : heap) :
  evolves sel changed h h.
Proof. intros l o Ho. exists o. auto. Qed.

Lemma evolves_trans (sel : loc) (changed : list string) (h1 h2 h3 : heap) :
  evolves sel changed h1 h2 -> evolves sel changed h2 h3 ->
  evolves sel changed h1 h3.
Proof.
  intros E1 E2 l o Ho. destruct (E1 l o Ho) as (o2 & Ho2 & C2 & A2 & F2 & G2).
  destruct (E2 l o2 Ho2) as (o3 & Ho3 & C3 & A3 & F3 & G3).
  exists o3. split; [exact Ho3|]. split; [congruence|]. split; [auto|].
  split.
  - intros Hne. rewrite F3, F2; auto.
  - intros n Hn. rewrite G3, G2; auto.
Qed.

Lemma evolves_weaken (sel : loc) (changed changed' : list string)
  (h h' : heap) :
  changed ⊆ changed' -> evolves sel changed h h' -> evolves sel changed' h h'.
Proof.
  intros Hsub E l o Ho. destruct (E l o Ho) as (o' & ? & ? & ? & ? & G).
  exists o'. split; [assumption|]. split; [assumption|].
  split; [assumption|]. split; [assumption|].
  intros n Hn. apply G. intros Hin. apply Hn, Hsub, Hin.
Qed.

Lemma evolves_prefix (sel : loc) (h h' : heap) :
  h `prefix_of` h' -> evolves sel [] h h'.
Proof.
  intros [k ->] l o Ho. exists o. split; [|auto].
  rewrite lookup_app_l; [exact Ho|]. eapply lookup_lt_Some; eauto.
Qed.

Lemma evolves_setfield (sel : loc) (n : string) (v : value) (h : heap)
  (o : obj) :
  h !! sel = Some o -> evolves sel [n] h (<[sel:=setfield o n v]> h).
Proof.
  intros Hs l o' Ho'. destruct (decide (l = sel)) as [->|Hne].
  - rewrite Hs in Ho'. injection Ho' as <-.
    exists (setfield o n v). rewrite (lookup_update _ _ _ _ Hs).
    split; [reflexivity|]. split; [apply ocls_setfield|].
    split; [unfold setfield; destruct (index_of _ _); auto|].
    split; [congruence|].
    intros n' Hn'. apply getfield_setfield_other. intros ->.
    apply Hn'. constructor.
  - exists o'. rewrite list_lookup_insert_ne by congruence. auto.
Qed.

Lemma evolves_field (sel : loc) (changed : list string) (h h' : heap)
  (l : loc) (n : string) (v : value) :
  evolves sel changed h h' -> n ∉ changed ->
  field h l n = Some v -> field h' l n = Some v.
Proof.
  intros E Hn. unfold field. destruct (h !! l) as [o|] eqn:Ho; simpl;
    [|discriminate].
  destruct (E l o Ho) as (o' & -> & _ & _ & _ & G). simpl.
  now rewrite (G n Hn).
Qed.

Lemma evolves_length (sel : loc) (changed : list string) (h h' : heap) :
  evolves sel changed h h' -> length h <= length h'.
Proof.
  intros E. destruct (decide (length h <= length h')) as [|Hgt]; [assumption|].
  assert (Hl : length h' < length h) by lia.
  destruct (lookup_lt_is_Some_2 h (length h') Hl) as [o Ho].
  destruct (E _ _ Ho) as (o' & Ho' & _). apply lookup_lt_Some in Ho'. lia.
Qed.

(** The class of an object that has a given field. *)
Lemma field_where_Select (o : obj) (v : value) :
  getfield o "where" = Some v -> ocls o = Select.
Proof. unfold getfield. destruct (ocls o); simpl; intros; congruence. Qed.

Lemma field_select_Query (o : obj) (v : value) :
  getfield o "select" = Some v -> ocls o = Query.
Proof. unfold getfield. destruct (ocls o); simpl; intros; congruence. Qed.

(** [w] is what [reduce] makes of [vs] with the lambda of build.py: a
    single operand, or a BinaryOp whose fields hold, in the order of the
    dataclass (left, op, right), the three positional arguments of the
    call: the member And, what was made of all operands but the last,
    and the last operand.  The member And is thus the field [left] and the
    chain so far the field [op]. *)
Inductive reduce_chain (h : heap) : value -> list value -> Prop :=
| reduce_chain_one (v : value) : reduce_chain h v [v]
| reduce_chain_more (l : loc) (o : obj) (left right : value) (vs : list value) :
    h !! l = Some o ->
    ocls o = BinaryOp ->
    ofields o = [VEnum (EBinaryOp BinaryOpKind.And); left; right] ->
    reduce_chain h left vs ->
    reduce_chain h (VRef l) (vs ++ [right]).

(** The result of [reduce(and_, rest, acc)] and the store it leaves. *)
Fixpoint and_from (rest : list value) (acc : value) (h : heap)
  : value * heap :=
  match rest with
  | [] => (acc, h)
  | x :: rest' =>
      and_from rest' (VRef (length h))
        (h ++ [mk_obj BinaryOp [VEnum (EBinaryOp BinaryOpKind.And); acc; x]
                 [] false])
  end.

Definition and_all (vs : list value) (h : heap) : value * heap :=
  match vs with
  | [] => (VNone, h)
  | x :: rest => and_from rest x h
  end.

Lemma reduce_from_and (rest : list value) (acc : value) (h : heap) :
  reduce_from and_ rest acc h
  = (Return (fst (and_from rest acc h)), snd (and_from rest acc h)).
Proof.
  revert acc h. induction rest as [|x rest IH]; intros acc h; simpl;
    [reflexivity|].
  unfold bind at 1. unfold and_ at 1. unfold bind at 1. simpl.
  apply IH.
Qed.

Lemma reduce_and_all (x : value) (rest : list value) (h : heap) :
  reduce and_ (x :: rest) h
  = (Return (fst (and_all (x :: rest) h)), snd (and_all (x :: rest) h)).
Proof. apply reduce_from_and. Qed.

Lemma and_from_prefix (rest : list value) (acc : value) (h : heap) :
  h `prefix_of` snd (and_from rest acc h).
Proof.
  revert acc h. induction rest as [|x rest IH]; intros acc h; simpl;
    [reflexivity|].
  etransitivity; [|apply IH]. now eexists.
Qed.

Lemma reduce_chain_prefix (h h' : heap) (v : value) (vs : list value) :
  h `prefix_of` h' -> reduce_chain h v vs -> reduce_chain h' v vs.
Proof.
  intros [k ->]. induction 1 as [v|l o left right vs Ho Hc Hf _ IH].
  - constructor.
  - econstructor; eauto. rewrite lookup_app_l; [exact Ho|].
    eapply lookup_lt_Some; eauto.
Qed.

Lemma and_from_chain (rest : list value) (acc : value) (h : heap)
  (vs : list value) :
  reduce_chain h acc vs ->
  reduce_chain (snd (and_from rest acc h)) (fst (and_from rest acc h))
    (vs ++ rest).
Proof.
  revert acc h vs. induction rest as [|x rest IH]; intros acc h vs Hc; simpl.
  - now rewrite app_nil_r.
  - replace (vs ++ x :: rest) with ((vs ++ [x]) ++ rest)
      by (now rewrite <- app_assoc).
    apply IH. econstructor.
    + now apply list_lookup_middle.
    + reflexivity.
    + reflexivity.
    + eapply reduce_chain_prefix; [|exact Hc]. now eexists.
Qed.

Lemma reduce_chain_evolves (sel : loc) (changed : list string) (h h' : heap)
  (os : obj) (v : value) (vs : list value) :
  evolves sel changed h h' -> h !! sel = Some os -> ocls os = Select ->
  reduce_chain h v vs -> reduce_chain h' v vs.
Proof.
  intros E Hs Hc. induction 1 as [v|l o left right vs Ho Hco Hf _ IH].
  - constructor.
  - destruct (E l o Ho) as (o' & Ho' & C' & _ & F' & _).
    assert (Hne : l <> sel) by (intros ->; congruence).
    econstructor; eauto; [congruence|]. now rewrite F'.
Qed.

(** A Column named by a Name node that holds two strings. *)
Definition typed_column (h : heap) (c : loc) : Prop :=
  exists oc n on nm q,
    h !! c = Some oc /\ ocls oc = Column
    /\ getfield oc "name" = Some (VRef n)
    /\ h !! n = Some on /\ ocls on = Name /\ ofields on = [VStr nm; VStr q].

Lemma getfield_skel (o o' : obj) (n : string) :
  ocls o' = ocls o -> ofields o' = ofields o -> getfield o' n = getfield o n.
Proof. intros Hc Hf. unfold getfield. now rewrite Hc, Hf. Qed.

Lemma typed_column_evolves (sel : loc) (changed : list string) (h h' : heap)
  (os : obj) (c : loc) :
  evolves sel changed h h' -> h !! sel = Some os -> ocls os = Select ->
  typed_column h c -> typed_column h' c.
Proof.
  intros E Hs Hc (oc & n & on & nm & q & Ho & Hcc & Hn & Hon & Hcn & Hfn).
  destruct (E c oc Ho) as (oc' & Ho' & C' & _ & F' & _).
  destruct (E n on Hon) as (on' & Hon' & Cn' & _ & Fn' & _).
  assert (c <> sel) by (intros ->; congruence).
  assert (n <> sel) by (intros ->; congruence).
  exists oc', n, on', nm, q.
  split; [exact Ho'|]. split; [congruence|].
  split; [rewrite (getfield_skel oc oc'); auto|].
  split; [exact Hon'|]. split; [congruence|]. rewrite Fn'; auto.
Qed.

Lemma typed_column_is_Column (h : heap) (c : loc) :
  typed_column h c -> exists o, h !! c = Some o /\ ocls o = Column.
Proof. intros (oc & _ & _ & _ & _ & Ho & Hc & _). eauto. Qed.

(** The copy of a column that was flagged as added by the API. *)
Definition api_copy (h : heap) (a c : loc) : Prop :=
  exists oa oc,
    h !! a = Some oa /\ h !! c = Some oc
    /\ ocls oa = Column /\ ocls oc = Column /\ oapi_column oa = true
    /\ ofields oa = ofields oc.

(** Objects stay as they are but for API flags that are set. *)
Definition flags_set (h h' : heap) : Prop :=
  forall l o,
    h !! l = Some o ->
    exists o', h' !! l = Some o' /\ skel o' = skel o
               /\ (oapi_column o = true -> oapi_column o' = true).

Lemma flags_set_refl (h : heap) : flags_set h h.
Proof. intros l o Ho. exists o. auto. Qed.

Lemma flags_set_trans (h1 h2 h3 : heap) :
  flags_set h1 h2 -> flags_set h2 h3 -> flags_set h1 h3.
Proof.
  intros E1 E2 l o Ho. destruct (E1 l o Ho) as (o2 & Ho2 & S2 & A2).
  destruct (E2 l o2 Ho2) as (o3 & Ho3 & S3 & A3).
  exists o3. split; [exact Ho3|]. split; [congruence|auto].
Qed.

Lemma flags_set_evolves (sel : loc) (h h' : heap) :
  flags_set h h' -> evolves sel [] h h'.
Proof.
  intros E l o Ho. destruct (E l o Ho) as (o' & Ho' & S & A).
  unfold skel in S. injection S as Hc Hf.
  exists o'. split; [exact Ho'|]. split; [exact Hc|]. split; [exact A|].
  split; [auto|]. intros n _. now apply getfield_skel.
Qed.

Lemma api_copy_flags_set (h h' : heap) (a c : loc) :
  flags_set h h' -> api_copy h a c -> api_copy h' a c.
Proof.
  intros E (oa & oc & Ha & Hc & Hcl & Hcc & Hfl & Hf).
  destruct (E a oa Ha) as (oa' & Ha' & Sa & Aa).
  destruct (E c oc Hc) as (oc' & Hc' & Sc & _).
  unfold skel in Sa, Sc. injection Sa as Ca Fa. injection Sc as Cc Fc.
  exists oa', oc'. split; [exact Ha'|]. split; [exact Hc'|].
  split; [congruence|]. split; [congruence|]. split; [auto|]. congruence.
Qed.

(** The comprehension [col.set_api_column(True).copy() for col in ...]. *)
Definition copies (xs : list loc) : M (list loc) :=
  mapM (fun col => c <- set_api_column col true ;; copy c) xs.

Lemma copies_total (xs : list loc) (h : heap) :
  Forall (fun c => exists o, h !! c = Some o /\ ocls o = Column) xs ->
  exists added h',
    copies xs h = (Return added, h')
    /\ flags_set h h'
    /\ Forall2 (api_copy h') added xs.
Proof.
  revert h. induction xs as [|x xs IH]; intros h Hx.
  - exists [], h. split; [reflexivity|]. split; [apply flags_set_refl|constructor].
  - inversion Hx as [|? ? (o & Ho & Hc) Hxs]; subst.
    set (o1 := mk_obj (ocls o) (ofields o) (oparents o) true).
    set (h1 := <[x:=o1]> h).
    assert (Hs : set_api_column x true h = (Return x, h1)).
    { unfold set_api_column. rewrite Ho, Hc. unfold h1, o1. now rewrite Hc. }
    assert (Ho1 : h1 !! x = Some o1) by (unfold h1; eapply lookup_update; eauto).
    assert (Hcp : copy x h1 = (Return (length h1), h1 ++ [o1])).
    { unfold copy. now rewrite Ho1. }
    assert (F1 : flags_set h (h1 ++ [o1])).
    { intros l ol Hl. destruct (decide (l = x)) as [->|Hne].
      - rewrite Ho in Hl. injection Hl as <-. exists o1.
        rewrite lookup_app_l by (eapply lookup_lt_Some; eauto).
        split; [exact Ho1|]. split; [reflexivity|auto].
      - exists ol. rewrite lookup_app_l.
        + unfold h1. rewrite list_lookup_insert_ne by congruence. auto.
        + unfold h1. rewrite length_insert. eapply lookup_lt_Some; eauto. }
    destruct (IH (h1 ++ [o1])) as (added & h' & Hrun & F2 & Hall).
    { eapply Forall_impl; [|exact Hxs]. intros c (oc & Hoc & Hcc).
      destruct (F1 c oc Hoc) as (oc' & Hoc' & S & _).
      unfold skel in S. injection S as Cc _. exists oc'. split; congruence. }
    exists (length h1 :: added), h'. split; [|split].
    + unfold copies in *. cbn [mapM]. unfold bind at 1. unfold bind at 1.
      rewrite Hs, Hcp. unfold bind at 1. rewrite Hrun. reflexivity.
    + eapply flags_set_trans; eauto.
    + constructor; [|exact Hall].
      apply (api_copy_flags_set (h1 ++ [o1]) h' _ _ F2).
      exists o1, o1. rewrite list_lookup_middle by reflexivity.
      rewrite lookup_app_l by (eapply lookup_lt_Some; eauto).
      split; [reflexivity|]. split; [exact Ho1|]. split; [exact Hc|].
      split; [exact Hc|]. split; reflexivity.
Qed.

Lemma typed_column_prefix (h h' : heap) (c : loc) :
  h `prefix_of` h' -> typed_column h c -> typed_column h' c.
Proof.
  intros [k ->] (oc & n & on & nm & q & Ho & Hcc & Hn & Hon & Hcn & Hfn).
  exists oc, n, on, nm, q.
  rewrite !lookup_app_l by (eapply lookup_lt_Some; eauto). auto 10.
Qed.

Lemma field_group_by_Select (o : obj) (v : value) :
  getfield o "group_by" = Some v -> ocls o = Select.
Proof. unfold getfield. destruct (ocls o); simpl; intros; congruence. Qed.

Lemma field_update (h : heap) (l : loc) (o : obj) (n : string) (v v0 : value) :
  h !! l = Some o -> getfield o n = Some v0 ->
  field (<[l:=setfield o n v]> h) l n = Some v.
Proof.
  intros Ho Hf. unfold field. rewrite (lookup_update _ _ _ _ Ho). simpl.
  eapply getfield_setfield; eauto.
Qed.

Lemma field_inv (h : heap) (l : loc) (n : string) (v : value) :
  field h l n = Some v -> exists o, h !! l = Some o /\ getfield o n = Some v.
Proof.
  unfold field. destruct (h !! l) as [o|]; simpl; [eauto|discriminate].
Qed.

(** No entry of the set is equal, for the set, to an earlier one. *)
Definition deduplicated (h : heap) (s : pyset) : Prop :=
  forall s1 e s2, s = s1 ++ e :: s2 -> set_contains h s1 (fst e) (snd e) = false.

Section FilterSplicing.
Context (builtin_hash : hkey -> Z).
Context (parse : string -> option string -> M loc).
Context (set_iter : pyset -> list loc).

(** The parser builds its result in new objects and leaves the others
    alone. *)
Hypothesis parse_allocates :
  forall text dialect h, h `prefix_of` snd (parse text dialect h).

(** A set yields each of its elements once. *)
Hypothesis set_iter_permutes : forall s, set_iter s ≡ₚ map snd s.

Lemma typed_column_hash (fuel : nat) (h : heap) (c : loc) :
  typed_column h c -> 2 <= fuel ->
  exists z, __hash__ builtin_hash fuel h c = Return z.
Proof.
  intros (oc & n & on & nm & q & Ho & Hcc & Hn & Hon & Hcn & Hfn) Hfuel.
  destruct fuel as [|[|k]]; try lia. cbn [__hash__]. rewrite Ho.
  destruct oc as [cc fs ps api], on as [cn fn pn apin]. simpl in *. subst.
  rewrite Hn. cbn. rewrite Hon. cbn. eauto.
Qed.

(** The loop of [set(xs)], from a set that is already there. *)
Definition set_from (fuel : nat) (h : heap) (xs : list loc) (s : pyset)
  : outcome pyset :=
  ofold (fun s x => hx <-? __hash__ builtin_hash fuel h x ;;
                    Return (set_insert h s hx x)) xs s.

Lemma set_contains_app (h : heap) (s k : pyset) (hx : Z) (x : loc) :
  set_contains h s hx x = true -> set_contains h (s ++ k) hx x = true.
Proof.
  unfold set_contains. rewrite existsb_app. intros ->. reflexivity.
Qed.

Lemma set_insert_spec (h : heap) (s : pyset) (hx : Z) (x : loc) :
  s `prefix_of` set_insert h s hx x
  /\ set_contains h (set_insert h s hx x) hx x = true
  /\ (deduplicated h s -> deduplicated h (set_insert h s hx x))
  /\ (forall y, y ∈ map snd (set_insert h s hx x) -> y ∈ map snd s \/ y = x).
Proof.
  unfold set_insert. destruct (set_contains h s hx x) eqn:Hc.
  - split; [reflexivity|]. split; [exact Hc|]. split; [auto|]. auto.
  - split; [now exists [(hx, x)]|]. split; [|split].
    + unfold set_contains. rewrite existsb_app. simpl.
      rewrite Z.eqb_refl, Nat.eqb_refl. simpl. now rewrite orb_true_r.
    + intros Hd s1 e s2 Heq.
      induction s2 as [|e' s2' _] using rev_ind.
      * apply app_inj_tail in Heq as [-> <-]. exact Hc.
      * rewrite app_comm_cons, app_assoc in Heq.
        apply app_inj_tail in Heq as [-> _]. eapply Hd. reflexivity.
    + intros y. rewrite map_app. rewrite elem_of_app. simpl.
      rewrite list_elem_of_singleton. tauto.
Qed.

Lemma set_from_spec (fuel : nat) (h : heap) (xs : list loc) (s s' : pyset) :
  set_from fuel h xs s = Return s' ->
  s `prefix_of` s'
  /\ (deduplicated h s -> deduplicated h s')
  /\ (forall y, y ∈ map snd s' -> y ∈ map snd s \/ y ∈ xs)
  /\ (forall x, x ∈ xs ->
        exists hx, __hash__ builtin_hash fuel h x = Return hx
                   /\ set_contains h s' hx x = true).
Proof.
  unfold set_from. revert s. induction xs as [|x xs IH]; intros s; simpl.
  - intros [= <-]. split; [reflexivity|]. split; [auto|]. split; [auto|].
    intros x Hx. inversion Hx.
  - destruct (__hash__ builtin_hash fuel h x) as [hx|e] eqn:Hh; simpl;
      [|discriminate].
    intros Hrest. destruct (IH _ Hrest) as (P & D & El & Cov).
    destruct (set_insert_spec h s hx x) as (P0 & C0 & D0 & El0).
    split; [etransitivity; eauto|]. split; [auto|]. split.
    + intros y Hy. destruct (El y Hy) as [Hin|Hin]; [|right; now right].
      destruct (El0 y Hin) as [?| ->]; [now left|right; now left].
    + intros y Hy. apply elem_of_cons in Hy as [->|Hy]; [|now apply Cov].
      exists hx. split; [exact Hh|]. destruct P as [k ->].
      now apply set_contains_app.
Qed.

Lemma set_from_total (fuel : nat) (h : heap) (xs : list loc) (s : pyset) :
  Forall (fun x => exists z, __hash__ builtin_hash fuel h x = Return z) xs ->
  exists s', set_from fuel h xs s = Return s'.
Proof.
  unfold set_from. intros Hx. revert s.
  induction Hx as [|x xs [z Hz] _ IH]; intros s; simpl; [eauto|].
  rewrite Hz. simpl. apply IH.
Qed.

(** The fragments of the filters parse, one after the other: [ws] are
    their WHERE conditions and [cols] the columns found in them, each a
    Column named by a Name. *)
Inductive parsed_filters (fuel : nat) (dialect : option string)
  : heap -> list string -> heap -> list value -> list loc -> Prop :=
| parsed_filters_nil (h : heap) : parsed_filters fuel dialect h [] h [] []
| parsed_filters_cons (h h1 h2 : heap) (filter_ : string)
    (rest : list string) (q temp_select : loc) (w : value)
    (cols cs : list loc) (ws : list value) :
    parse ("select * where " ++ filter_) dialect h = (Return q, h1) ->
    field h1 q "select" = Some (VRef temp_select) ->
    field h1 temp_select "where" = Some w ->
    find_all fuel Column h1 temp_select = Return cols ->
    Forall (typed_column h1) cols ->
    parsed_filters fuel dialect h1 rest h2 ws cs ->
    parsed_filters fuel dialect h (filter_ :: rest) h2 (w :: ws) (cols ++ cs).

(** The fragments of the aggregations parse, each GROUP BY list being
    appended to the one of [select]. *)
Inductive parsed_aggs (fuel : nat) (dialect : option string) (select : loc)
  : heap -> list string -> heap -> list loc -> Prop :=
| parsed_aggs_nil (h : heap) : parsed_aggs fuel dialect select h [] h []
| parsed_aggs_cons (h h1 h3 : heap) (agg : string) (rest : list string)
    (q temp_select : loc) (os : obj) (old gb : list value)
    (cols cs : list loc) :
    parse ("select * group by " ++ agg) dialect h = (Return q, h1) ->
    field h1 q "select" = Some (VRef temp_select) ->
    field h1 temp_select "group_by" = Some (VList gb) ->
    h1 !! select = Some os ->
    getfield os "group_by" = Some (VList old) ->
    find_all fuel Column
      (<[select:=setfield os "group_by" (VList (old ++ gb))]> h1) temp_select
    = Return cols ->
    Forall (typed_column
              (<[select:=setfield os "group_by" (VList (old ++ gb))]> h1))
      cols ->
    parsed_aggs fuel dialect select
      (<[select:=setfield os "group_by" (VList (old ++ gb))]> h1) rest h3 cs ->
    parsed_aggs fuel dialect select h (agg :: rest) h3 (cols ++ cs).

Lemma parsed_filters_spec (fuel : nat) (dialect : option string)
  (h h1 : heap) (filters : list string) (ws : list value) (cols : list loc) :
  parsed_filters fuel dialect h filters h1 ws cols ->
  h `prefix_of` h1
  /\ length ws = length filters
  /\ Forall (typed_column h1) cols
  /\ forall filter_asts projection_addition,
       filters_loop parse fuel filters dialect filter_asts
         projection_addition h
       = (Return (filter_asts ++ ws, projection_addition ++ cols), h1).
Proof.
  induction 1 as [h|h h1 h2 f rest q ts w cols cs ws Hp Hq Hw Hf Ht _ IH].
  - split; [reflexivity|]. split; [reflexivity|]. split; [constructor|].
    intros fa pa. simpl. now rewrite !app_nil_r.
  - destruct IH as (P & L & T & Run).
    assert (P0 : h `prefix_of` h1).
    { pose proof (parse_allocates ("select * where " ++ f) dialect h) as X.
      now rewrite Hp in X. }
    split; [etransitivity; eauto|]. split; [simpl; now rewrite L|].
    split.
    { apply Forall_app. split; [|exact T].
      eapply Forall_impl; [|exact Ht]. intros c. now apply typed_column_prefix. }
    intros fa pa. cbn [filters_loop].
    step Hp. rewrite (bind_Return _ _ _ _ _ (getnode_field _ _ _ _ Hq)).
    rewrite (bind_Return _ _ _ _ _ (getattr_field _ _ _ _ Hw)).
    unfold bind at 1. unfold get. unfold bind at 1. unfold lift. rewrite Hf.
    rewrite Run. now rewrite <- !app_assoc.
Qed.

Lemma parsed_aggs_spec (fuel : nat) (dialect : option string)
  (query select : loc) (h h2 : heap) (aggs : list string) (cols : list loc) :
  parsed_aggs fuel dialect select h aggs h2 cols ->
  field h query "select" = Some (VRef select) ->
  query <> select ->
  evolves select ["group_by"] h h2
  /\ Forall (typed_column h2) cols
  /\ forall projection_addition,
       aggs_loop parse fuel query aggs dialect projection_addition h
       = (Return (projection_addition ++ cols), h2).
Proof.
  induction 1 as [h|h h1 h3 agg rest q ts os old gb cols cs
                    Hp Hq Hg Hs Ho Hf Ht _ IH]; intros Hsel Hne.
  - split; [apply evolves_refl|]. split; [constructor|].
    intros pa. simpl. now rewrite app_nil_r.
  - set (h2 := <[select:=setfield os "group_by" (VList (old ++ gb))]> h1) in *.
    assert (P0 : h `prefix_of` h1).
    { pose proof (parse_allocates ("select * group by " ++ agg) dialect h) as X.
      now rewrite Hp in X. }
    assert (E1 : evolves select ["group_by"] h h1).
    { eapply evolves_weaken; [|apply evolves_prefix; exact P0].
      intros x Hx. inversion Hx. }
    assert (E2 : evolves select ["group_by"] h1 h2)
      by (apply evolves_setfield; exact Hs).
    assert (Hsel1 : field h1 query "select" = Some (VRef select)).
    { eapply evolves_field; [exact E1| |exact Hsel].
      intros Hin. apply list_elem_of_singleton in Hin. discriminate. }
    assert (Hsel2 : field h2 query "select" = Some (VRef select)).
    { eapply evolves_field; [exact E2| |exact Hsel1].
      intros Hin. apply list_elem_of_singleton in Hin. discriminate. }
    destruct (IH Hsel2 Hne) as (E3 & T & Run).
    split; [eapply evolves_trans; [exact E1|eapply evolves_trans; eauto]|].
    split.
    { apply Forall_app. split; [|exact T].
      eapply Forall_impl; [|exact Ht]. intros c.
      eapply typed_column_evolves; [exact E3| |].
      - unfold h2. eapply lookup_update; eauto.
      - rewrite ocls_setfield. eapply field_group_by_Select; eauto. }
    intros pa. cbn [aggs_loop].
    step Hp. rewrite (bind_Return _ _ _ _ _ (getnode_field _ _ _ _ Hq)).
    rewrite (bind_Return _ _ _ _ _ (getnode_field _ _ _ _ Hsel1)).
    rewrite (bind_Return _ _ _ _ _ (getattr_field _ _ _ _ Hg)).
    assert (Hext : extend select "group_by" (VList gb) h1 = (Return tt, h2)).
    { unfold extend.
      assert (Hgo : getattr select "group_by" h1 = (Return (VList old), h1))
        by (apply getattr_field; unfold field; now rewrite Hs).
      step Hgo. unfold setattr. now rewrite Hs. }
    step Hext. unfold bind at 1. unfold get. unfold bind at 1. unfold lift.
    rewrite Hf. rewrite Run. now rewrite <- app_assoc.
Qed.

(** The list given to [reduce]: the old condition, if there is one, then
    the conditions of the filters. *)
Definition operands (where_ : value) (ws : list value) : list value :=
  (if truthy where_ then [where_] else []) ++ ws.

(** The store once the chain of [vs] is built and stored as the WHERE of
    [select]. *)
Definition with_where (select : loc) (vs : list value) (h : heap) : heap :=
  let r := and_all vs h in
  match snd r !! select with
  | Some os => <[select:=setfield os "where" (fst r)]> (snd r)
  | None => snd r
  end.

Lemma field_projection_Select (o : obj) (v : value) :
  getfield o "projection" = Some v -> ocls o = Select.
Proof. unfold getfield. destruct (ocls o); simpl; intros; congruence. Qed.

Lemma not_in_1 (a b : string) : a <> b -> a ∉ [b].
Proof. intros H Hin. apply list_elem_of_singleton in Hin. contradiction. Qed.

Lemma not_in_2 (a b c : string) : a <> b -> a <> c -> a ∉ [b; c].
Proof.
  intros H1 H2 Hin. apply elem_of_cons in Hin as [->|Hin]; [contradiction|].
  apply list_elem_of_singleton in Hin. contradiction.
Qed.

(** What the call must have done to the query: it returned, leaving the
    store [h']; the WHERE of [select] is the chain [w] that [reduce]
    builds from the operands; the set [unique] was built from the columns of the
    fragments, holds each of them up to the set's equality and none twice;
    and the projection has grown by flagged copies of its elements, in the
    order the set yields them. *)
Definition spliced (fuel : nat) (query select : loc)
  (dialect : option string) (filters : list string)
  (aggs : option (list string)) (h h2 : heap) (projection vs : list value)
  (found : list loc) : Prop :=
  exists h' w unique added,
    add_filters_and_aggs_to_query_ast builtin_hash parse set_iter fuel query
      dialect (Some filters) aggs h
    = (Return tt, h')
    /\ field h' query "select" = Some (VRef select)
    /\ field h' select "where" = Some w
    /\ reduce_chain h' w vs
    /\ set_of_list builtin_hash fuel h2 found = Return unique
    /\ deduplicated h2 unique
    /\ (forall c, c ∈ found ->
          exists hc, __hash__ builtin_hash fuel h2 c = Return hc
                     /\ set_contains h2 unique hc c = true)
    /\ Forall2 (api_copy h') added (set_iter unique)
    /\ field h' select "projection"
       = Some (VList (projection ++ map VRef added)).

(** When the fragments parse, the call returns; the WHERE of the query's
    select is then the chain that [reduce] builds, from the left, of the
    old condition (if any) and the conditions of the filters in the order
    given, each link a BinaryOp with the member And as its field [left]
    and the chain so far as its field [op]; and the projection has grown
    by flagged copies of the columns of the fragments, one for each
    element of the set built from them. *)
Theorem filters_are_spliced (fuel : nat) (query select : loc)
  (dialect : option string) (filters : list string)
  (aggs : option (list string)) (h h1 h2 : heap) (where_ : value)
  (projection ws : list value) (cols agg_cols : list loc) :
  field h query "select" = Some (VRef select) ->
  field h select "where" = Some where_ ->
  field h select "projection" = Some (VList projection) ->
  filters <> [] ->
  parsed_filters fuel dialect h filters h1 ws cols ->
  parsed_aggs fuel dialect select
    (with_where select (operands where_ ws) h1) (default [] aggs) h2
    agg_cols ->
  2 <= fuel ->
  spliced fuel query select dialect filters aggs h h2 projection
    (operands where_ ws) (cols ++ agg_cols).
Proof.
  intros Hsel Hwh Hpr Hne Hpf Hpa Hfuel.
  destruct (field_inv _ _ _ _ Hsel) as (oq & Hq & Hqf).
  destruct (field_inv _ _ _ _ Hwh) as (os & Hs & Hsf).
  assert (Hqs : query <> select).
  { intros ->. rewrite Hq in Hs. injection Hs as ->.
    apply field_select_Query in Hqf. apply field_where_Select in Hsf.
    congruence. }
  assert (Hcls : ocls os = Select) by (eapply field_where_Select; eauto).
  destruct (parsed_filters_spec _ _ _ _ _ _ _ Hpf) as (P1 & Lw & T1 & Run1).
  (* the conjunction *)
  assert (Hops : exists x rest, operands where_ ws = x :: rest).
  { unfold operands. destruct (truthy where_); simpl; [eauto|].
    destruct ws; [|eauto]. destruct filters; [contradiction|discriminate]. }
  destruct Hops as (x & rest & Hops).
  set (hc := snd (and_all (operands where_ ws) h1)) in *.
  set (w := fst (and_all (operands where_ ws) h1)) in *.
  assert (P2 : h1 `prefix_of` hc).
  { unfold hc. rewrite Hops. apply and_from_prefix. }
  assert (Hchain : reduce_chain hc w (operands where_ ws)).
  { unfold hc, w. rewrite Hops.
    apply (and_from_chain rest x h1 [x]). constructor. }
  assert (Pc : h `prefix_of` hc) by (etransitivity; eauto).
  destruct Pc as [k Hk].
  assert (Hsc : hc !! select = Some os).
  { rewrite Hk. rewrite lookup_app_l; [exact Hs|]. eapply lookup_lt_Some; eauto. }
  assert (Hw : with_where select (operands where_ ws) h1
               = <[select:=setfield os "where" w]> hc).
  { unfold with_where. cbv zeta. fold hc w. now rewrite Hsc. }
  rewrite Hw in Hpa. set (hw := <[select:=setfield os "where" w]> hc) in *.
  assert (Ec : evolves select ["where"] h hc).
  { eapply evolves_weaken; [|apply evolves_prefix; now exists k].
    intros y Hy. inversion Hy. }
  assert (Ew : evolves select ["where"] hc hw)
    by (apply evolves_setfield; exact Hsc).
  assert (Hselc : field hc query "select" = Some (VRef select)).
  { eapply evolves_field; [exact Ec|apply not_in_1; discriminate|exact Hsel]. }
  assert (Hselw : field hw query "select" = Some (VRef select)).
  { eapply evolves_field; [exact Ew|apply not_in_1; discriminate|exact Hselc]. }
  assert (Hww : field hw select "where" = Some w).
  { unfold hw. eapply field_update; eauto. }
  (* the aggregations *)
  destruct (parsed_aggs_spec _ _ query _ _ _ _ _ Hpa Hselw Hqs)
    as (Ea & T2 & Run2).
  assert (Hsw : hw !! select = Some (setfield os "where" w))
    by (unfold hw; eapply lookup_update; eauto).
  assert (Hclw : ocls (setfield os "where" w) = Select)
    by (now rewrite ocls_setfield).
  assert (Ehw2 : evolves select ["where"; "group_by"] h hw).
  { eapply evolves_weaken; [|eapply evolves_trans; [exact Ec|exact Ew]].
    intros y Hy. apply list_elem_of_singleton in Hy. subst. constructor. }
  assert (E2 : evolves select ["where"; "group_by"] h h2).
  { eapply evolves_trans; [exact Ehw2|].
    eapply evolves_weaken; [|exact Ea].
    intros y Hy. apply list_elem_of_singleton in Hy. subst.
    constructor. constructor. }
  assert (Hsel2 : field h2 query "select" = Some (VRef select)).
  { eapply evolves_field; [exact E2|apply not_in_2; discriminate|exact Hsel]. }
  assert (Hpr2 : field h2 select "projection" = Some (VList projection)).
  { eapply evolves_field; [exact E2|apply not_in_2; discriminate|exact Hpr]. }
  assert (Hw2 : field h2 select "where" = Some w).
  { eapply evolves_field; [exact Ea|apply not_in_1; discriminate|exact Hww]. }
  (* the set of columns *)
  assert (T : Forall (typed_column h2) (cols ++ agg_cols)).
  { apply Forall_app. split; [|exact T2].
    eapply Forall_impl; [|exact T1]. intros c Hc.
    eapply typed_column_evolves; [exact Ea|exact Hsw|exact Hclw|].
    eapply typed_column_evolves; [exact Ew|exact Hsc|exact Hcls|].
    eapply typed_column_prefix; eauto. }
  destruct (set_from_total fuel h2 (cols ++ agg_cols) [])
    as [unique Hset].
  { eapply Forall_impl; [|exact T]. intros c Hc.
    now apply typed_column_hash. }
  destruct (set_from_spec fuel h2 _ _ _ Hset)
    as (_ & Dd & El & Cov).
  (* the copies *)
  destruct (copies_total (set_iter unique) h2) as (added & h3 & Hcp & F3 & A3).
  { apply Forall_forall. intros c Hc. apply list_elem_of_In in Hc.
    rewrite (set_iter_permutes unique) in Hc.
    destruct (El c Hc) as [Hin|Hin]; [inversion Hin|].
    apply typed_column_is_Column. rewrite Forall_forall in T.
    apply T. now apply list_elem_of_In. }
  destruct (field_inv _ _ _ _ Hpr2) as (os2 & Hs2 & Hp2).
  destruct (F3 select os2 Hs2) as (os3 & Hs3 & Sk3 & _).
  unfold skel in Sk3. injection Sk3 as Hc3 Hf3.
  assert (Hp3 : getfield os3 "projection" = Some (VList projection))
    by (rewrite (getfield_skel os2 os3); auto).
  set (h' := <[select:=setfield os3 "projection"
                         (VList (projection ++ map VRef added))]> h3).
  assert (E3 : evolves select ["projection"] h2 h3).
  { eapply evolves_weaken; [|apply flags_set_evolves; exact F3].
    intros y Hy. inversion Hy. }
  assert (E4 : evolves select ["projection"] h3 h')
    by (apply evolves_setfield; exact Hs3).
  assert (E' : evolves select ["projection"] h2 h')
    by (eapply evolves_trans; eauto).
  unfold spliced. exists h', w, unique, added.
  split.
  { unfold add_filters_and_aggs_to_query_ast.
    destruct filters as [|f0 filters']; [contradiction|].
    rewrite (bind_Return _ _ h hw cols).
    2:{ rewrite (bind_Return _ _ _ _ _ (getnode_field _ _ _ _ Hsel)).
        rewrite (bind_Return _ _ _ _ _ (getattr_field _ _ _ _ Hwh)).
        cbv zeta. rewrite (bind_Return _ _ _ _ _ (Run1 _ _)).
        cbn [fst snd app]. fold (operands where_ ws). rewrite Hops.
        rewrite (bind_Return _ _ _ _ _ (reduce_and_all x rest h1)).
        rewrite <- Hops. fold hc w.
        rewrite (bind_Return _ _ _ _ _ (getnode_field _ _ _ _ Hselc)).
        rewrite (bind_Return _ _ _ _ _ (setattr_at _ _ _ _ _ Hsc)).
        reflexivity. }
    rewrite (bind_Return _ _ hw h2 (cols ++ agg_cols)).
    2:{ destruct aggs as [[|a0 aggs']|]; simpl in Hpa, Run2 |- *.
        - inversion Hpa; subst. now rewrite app_nil_r.
        - apply (Run2 cols).
        - inversion Hpa; subst. now rewrite app_nil_r. }
    rewrite (bind_Return _ _ _ _ _ (getnode_field _ _ _ _ Hsel2)).
    rewrite (bind_Return _ _ _ _ _ (getattr_field _ _ _ _ Hpr2)).
    unfold bind at 1. unfold get. unfold bind at 1. unfold lift.
    change (set_of_list builtin_hash fuel h2 (cols ++ agg_cols))
      with (set_from fuel h2 (cols ++ agg_cols) []).
    rewrite Hset. fold (copies (set_iter unique)).
    rewrite (bind_Return _ _ _ _ _ Hcp).
    unfold extend.
    assert (Hg3 : getattr select "projection" h3 = (Return (VList projection), h3))
      by (apply getattr_field; unfold field; now rewrite Hs3).
    rewrite (bind_Return _ _ _ _ _ Hg3). unfold setattr. now rewrite Hs3. }
  split.
  { eapply evolves_field; [exact E'|apply not_in_1; discriminate|exact Hsel2]. }
  split.
  { eapply evolves_field; [exact E'|apply not_in_1; discriminate|exact Hw2]. }
  split.
  { assert (Eall : evolves select ["where"; "group_by"; "projection"] hc h').
    { eapply evolves_trans.
      - eapply evolves_weaken; [|exact Ew].
        intros y Hy. apply list_elem_of_singleton in Hy. subst. constructor.
      - eapply evolves_trans.
        + eapply evolves_weaken; [|exact Ea].
          intros y Hy. apply list_elem_of_singleton in Hy. subst.
          constructor. constructor.
        + eapply evolves_weaken; [|exact E'].
          intros y Hy. apply list_elem_of_singleton in Hy. subst.
          constructor. constructor. constructor. }
    eapply reduce_chain_evolves; [exact Eall|exact Hsc|exact Hcls|exact Hchain]. }
  split; [exact Hset|]. split.
  { apply Dd. intros s1 e s2 Heq. destruct s1; discriminate. }
  split; [exact Cov|]. split.
  { eapply Forall2_impl; [|exact A3]. intros a c Hac.
    destruct Hac as (oa & oc & Ha & Hc & Hcl & Hcc & Hfl & Hf).
    destruct (E4 a oa Ha) as (oa' & Ha' & Ca' & Fa' & Fd' & _).
    destruct (E4 c oc Hc) as (oc' & Hc' & Cc' & _ & Fcd' & _).
    assert (Hsel3 : ocls os3 = Select).
    { rewrite Hc3. eapply (field_projection_Select os2); eauto. }
    assert (Hna : a <> select) by (intros ->; congruence).
    assert (Hnc : c <> select) by (intros ->; congruence).
    exists oa', oc'. split; [exact Ha'|]. split; [exact Hc'|].
    split; [congruence|]. split; [congruence|]. split; [auto|].
    rewrite (Fd' Hna), (Fcd' Hnc). exact Hf. }
  unfold h'. eapply field_update; eauto.
Qed.

End FilterSplicing.

(** A parser that knows one fragment, [region = 'EU'], and builds it in
    seven new objects. *)
Definition parse_region (text : string) (dialect : option string) : M loc :=
  fun h =>
    let n := length h in
    (Return (n + 6),
     h ++ [mk_obj Name [VStr "region"; VStr ""] [] false;
           mk_obj Column [VRef n; VNone; VNone] [] false;
           mk_obj String [VStr "EU"] [] false;
           mk_obj BinaryOp
             [VRef (n + 1); VEnum (EBinaryOp BinaryOpKind.Eq); VRef (n + 2)]
             [] false;
           mk_obj Wildcard [VNone] [] false;
           mk_obj Select
             [VBool false; VNone; VList []; VNone; VList [VRef (n + 4)];
              VRef (n + 3); VNone] [] false;
           mk_obj Query [VRef (n + 5); VList []] [] false]).

(** [SELECT amount FROM sales WHERE active] *)
Definition sales : heap :=
  [mk_obj Name [VStr "sales"; VStr ""] [] false;
   mk_obj Table [VRef 0; VNone; VList []] [] false;
   mk_obj From [VRef 1; VList []] [] false;
   mk_obj Name [VStr "amount"; VStr ""] [] false;
   mk_obj Column [VRef 3; VNone; VNone] [] false;
   mk_obj Name [VStr "active"; VStr ""] [] false;
   mk_obj Column [VRef 5; VNone; VNone] [] false;
   mk_obj Select
     [VBool false; VRef 2; VList []; VNone; VList [VRef 4]; VRef 6; VNone]
     [] false;
   mk_obj Query [VRef 7; VList []] [] false].

Definition sales_parsed : heap :=
  snd (parse_region "select * where region = 'EU'" None sales).

Lemma filters_are_spliced_witness :
  spliced (fun _ => 0%Z) parse_region (map snd) 5 8 7 None
    ["region = 'EU'"] None sales
    (with_where 7 (operands (VRef 6) [VRef 12]) sales_parsed)
    [VRef 4] (operands (VRef 6) [VRef 12]) ([10] ++ []).
Proof.
  apply (filters_are_spliced (fun _ => 0%Z) parse_region (map snd)
           (fun text dialect h => ex_intro _ _ eq_refl)
           (fun s => Permutation_refl _)
           5 8 7 None ["region = 'EU'"] None sales sales_parsed
           (with_where 7 (operands (VRef 6) [VRef 12]) sales_parsed)
           (VRef 6) [VRef 4] [VRef 12] [10] []).
  - reflexivity.
  - reflexivity.
  - reflexivity.
  - discriminate.
  - apply (parsed_filters_cons parse_region 5 None sales sales_parsed
             sales_parsed "region = 'EU'" [] 15 14 (VRef 12) [10] [] []).
    + reflexivity.
    + reflexivity.
    + reflexivity.
    + reflexivity.
    + constructor; [|constructor].
      exists (mk_obj Column [VRef 9; VNone; VNone] [] false), 9,
        (mk_obj Name [VStr "region"; VStr ""] [] false), "region", "".
      repeat split.
    + constructor.
  - constructor.
  - lia.
Defined.

(** The call on that query: the WHERE becomes object 16, the BinaryOp
    built from And, [active] and [region = 'EU'] as positional arguments,
    and a flagged copy of the column [region] (object 17) is appended to
    the projection. *)
Example filter_splicing_runs :
  let r := add_filters_and_aggs_to_query_ast (fun _ => 0%Z) parse_region
             (map snd) 5 8 None (Some ["region = 'EU'"]) None sales in
  fst r = Return tt
  /\ snd r !! 7
     = Some (mk_obj Select
               [VBool false; VRef 2; VList []; VNone;
                VList [VRef 4; VRef 17]; VRef 16; VNone] [] false)
  /\ snd r !! 16
     = Some (mk_obj BinaryOp
               [VEnum (EBinaryOp BinaryOpKind.And); VRef 6; VRef 12] []
               false)
  /\ snd r !! 17 = Some (mk_obj Column [VRef 9; VNone; VNone] [] true).
Proof. vm_compute. repeat split. Qed.

(** The query [SELECT amount FROM sales WHERE active] after the call with
    the one filter [region = 'EU']. *)
Definition sales_filtered : outcome unit * heap :=
  add_filters_and_aggs_to_query_ast (fun _ => 0%Z) parse_region (map snd) 5
    8 None (Some ["region = 'EU'"]) None sales.

(** C5, divergence: the lambda given to [reduce] passes And, left and
    right as positional arguments to a dataclass whose fields are, in
    order, left, op and right.  Every BinaryOp it builds therefore has the
    member And as its left operand, the left argument as its operator and
    the right argument as its right operand.  On the query
    [SELECT amount FROM sales WHERE active] with the filter
    [region = 'EU'] the call returns, and the new WHERE (object 16) is a
    BinaryOp whose left operand is the member And and whose operator is
    the column [active] (object 6), where an AND of [active] and
    [region = 'EU'] has [active] as left operand and And as operator. *)
Theorem filter_conjunction_is_misbound :
  (forall (left right : value) (h : heap),
     exists o,
       and_ left right h = (Return (VRef (length h)), h ++ [o])
       /\ ocls o = BinaryOp
       /\ getfield o "left" = Some (VEnum (EBinaryOp BinaryOpKind.And))
       /\ getfield o "op" = Some left
       /\ getfield o "right" = Some right)
  /\ fst sales_filtered = Return tt
  /\ field sales 7 "where" = Some (VRef 6)
  /\ field (snd sales_filtered) 7 "where" = Some (VRef 16)
  /\ type_of (snd sales_filtered) (VRef 16) = TNode BinaryOp
  /\ field (snd sales_filtered) 16 "left"
     = Some (VEnum (EBinaryOp BinaryOpKind.And))
  /\ field (snd sales_filtered) 16 "op" = Some (VRef 6)
  /\ field (snd sales_filtered) 16 "right" = Some (VRef 12)
  /\ field (snd sales_filtered) 16 "op"
     <> Some (VEnum (EBinaryOp BinaryOpKind.And))
  /\ field (snd sales_filtered) 16 "left" <> Some (VRef 6).
Proof.
  split.
  - intros left right h.
    exists (mk_obj BinaryOp [VEnum (EBinaryOp BinaryOpKind.And); left; right]
              [] false).
    repeat split.
  - vm_compute. repeat split; discriminate.
Qed.


(** *** What _get_tables_and_dim_cols collects *)

Lemma same_revision_refl (a : NodeRevision) : same_revision a a = true.
Proof. apply Nat.eqb_refl. Qed.

Lemma same_revision_trans (a b c : NodeRevision) :
  same_revision a b = true -> same_revision b c = true ->
  same_revision a c = true.
Proof. unfold same_revision. rewrite !Nat.eqb_eq. congruence. Qed.

Lemma same_revision_congr (a b c : NodeRevision) :
  same_revision a b = true -> same_revision a c = same_revision b c.
Proof.
  unfold same_revision. rewrite Nat.eqb_eq. intros ->. reflexivity.
Qed.

Lemma dict_get_set {V} (d : dict V) (k node : NodeRevision) (v : V) :
  dict_get (dict_set d k v) node
  = if same_revision k node then Some v else dict_get d node.
Proof.
  induction d as [|[k' v'] d IH]; simpl.
  - reflexivity.
  - destruct (same_revision k' k) eqn:E; simpl.
    + rewrite <- (same_revision_congr _ _ node E).
      now destruct (same_revision k' node).
    + rewrite IH. destruct (same_revision k' node) eqn:E'; [|reflexivity].
      destruct (same_revision k node) eqn:E''; [|reflexivity].
      unfold same_revision in *. rewrite Nat.eqb_eq in E', E''.
      rewrite Nat.eqb_neq in E. congruence.
Qed.

(** The loop that files [xs] in a dictionary under the node that [key]
    gives for each. *)
Definition grouped {A} (key : A -> option NodeRevision) (xs : list A)
  (d : dict (list A)) : dict (list A) :=
  fold_left
    (fun d x =>
       match key x with
       | Some node => dict_append d node x
       | None => d
       end)
    xs d.

(** The elements that [key] files under [node]. *)
Definition filed_under {A} (key : A -> option NodeRevision)
  (node : NodeRevision) (xs : list A) : list A :=
  List.filter
    (fun x =>
       match key x with
       | Some k => same_revision k node
       | None => false
       end)
    xs.

Definition entry {A} (old : option (list A)) (new : list A)
  : option (list A) :=
  match old, new with
  | None, [] => None
  | _, _ => Some (default [] old ++ new)
  end.

Lemma grouped_get {A} (key : A -> option NodeRevision) (xs : list A)
  (d : dict (list A)) (node : NodeRevision) :
  dict_get (grouped key xs d) node
  = entry (dict_get d node) (filed_under key node xs).
Proof.
  unfold grouped, filed_under. revert d.
  induction xs as [|x xs IH]; intros d; simpl.
  - destruct (dict_get d node); simpl; [now rewrite app_nil_r|reflexivity].
  - rewrite IH. destruct (key x) as [k|]; [|reflexivity].
    unfold dict_append. rewrite dict_get_set.
    destruct (same_revision k node) eqn:E; [|reflexivity].
    assert (Hk : dict_get d k = dict_get d node).
    { clear IH. induction d as [|[k' v'] d IHd]; simpl; [reflexivity|].
      rewrite IHd.
      replace (same_revision k' k) with (same_revision k' node);
        [reflexivity|].
      unfold same_revision in *. rewrite Nat.eqb_eq in E. now rewrite E. }
    rewrite Hk. unfold entry. simpl.
    destruct (dict_get d node) as [l|]; simpl;
      [now rewrite <- app_assoc|reflexivity].
Qed.

(** X23: [_get_tables_and_dim_cols] does not change the select.  Under
    each node it files exactly the tables of the select whose [dj_node]
    is that node, and under each dimension node exactly the columns of
    the select whose table is a Table of that node, both in the order of
    the traversal; a node with nothing to file has no entry; and it
    raises what the traversal raises. *)
Theorem _get_tables_and_dim_cols_groups_by_node
  (dj_node : loc -> option NodeRevision) (fuel : nat) (select : loc)
  (h : heap) :
  match find_all fuel Table h select, find_all fuel Column h select with
  | Return ts, Return cs =>
      exists dimension_columns tables,
        _get_tables_and_dim_cols dj_node fuel select h
        = (Return (dimension_columns, tables), h)
        /\ (forall node,
              dict_get tables node
              = match filed_under dj_node node ts with
                | [] => None
                | found => Some found
                end)
        /\ (forall node,
              dict_get dimension_columns node
              = match filed_under (dimension_of dj_node h) node cs with
                | [] => None
                | found => Some found
                end)
  | Throw e, _ | Return _, Throw e =>
      _get_tables_and_dim_cols dj_node fuel select h = (Throw e, h)
  end.
Proof.
  unfold _get_tables_and_dim_cols, bind, get, lift, ret.
  destruct (find_all fuel Table h select) as [ts|e]; [|reflexivity].
  destruct (find_all fuel Column h select) as [cs|e]; [|reflexivity].
  eexists _, _. split; [reflexivity|].
  split; intros node.
  - pose proof (grouped_get dj_node ts [] node) as G.
    unfold grouped in G. rewrite G. simpl.
    now destruct (filed_under dj_node node ts).
  - pose proof (grouped_get (dimension_of dj_node h) cs [] node) as G.
    unfold grouped in G. rewrite G. simpl.
    now destruct (filed_under (dimension_of dj_node h) node cs).
Qed.

(** *** Dimensions that are not joined, or cannot be *)

Section DimensionSources.
Context (amenable_name : string -> string).
Context (Query_build :
  loc -> BuildPlan -> Z -> Database -> option string -> M unit).

(** X24: [_build_dimensions_on_select] leaves the select as it is when
    every dimension of [dimension_columns] is among [tables], whatever
    the build plan and its depth; in particular when there is no
    dimension column. *)
Theorem joined_dimensions_are_skipped (select : loc)
  (dimension_columns tables : dict (list loc))
  (build_plan_lookup : dict (list Database * BuildPlan))
  (build_plan_depth : Z) (database : Database) (dialect : option string)
  (h : heap) :
  Forall (fun dc => dict_mem tables (fst dc) = true) dimension_columns ->
  _build_dimensions_on_select amenable_name Query_build select
    dimension_columns tables build_plan_lookup build_plan_depth database
    dialect h
  = (Return tt, h).
Proof.
  unfold _build_dimensions_on_select.
  induction 1 as [|dc dcs Hm _ IH]; simpl; [reflexivity|].
  rewrite Hm. simpl. unfold bind at 1. exact IH.
Qed.

(** The physical tables of a node in a database. *)
Definition tables_in (database : Database) (node : NodeRevision)
  : list PhysicalTable :=
  List.filter
    (fun t => Z.eqb (database_id (table_database t)) (database_id database))
    (node_tables node).

Lemma mapM_new_Name (names : list string) (h : heap) :
  exists vs h',
    mapM (fun s => n <- new Name [VStr s] [] ;; ret (VRef n)) names h
    = (Return vs, h').
Proof.
  revert h. induction names as [|s names IH]; intros h; [simpl; eauto|].
  assert (Hf : (n <- new Name [VStr s] [] ;; ret (VRef n)) h
               = (Return (VRef (length h)),
                  h ++ [mk_obj Name [VStr s; VStr ""] [] false]))
    by reflexivity.
  destruct (IH (h ++ [mk_obj Name [VStr s; VStr ""] [] false]))
    as (vs & h' & Hm).
  cbn [mapM]. rewrite (bind_Return _ _ _ _ _ Hf).
  rewrite (bind_Return _ _ _ _ _ Hm). unfold ret. eauto.
Qed.

(** The Table call with the keyword [namespace], which is not a field
    of Table. *)
Lemma Table_with_namespace (name ns : value) (h : heap) :
  new Table [name] [("namespace", ns)] h = (Throw TypeError, h).
Proof. reflexivity. Qed.

Lemma physical_table_source (t : PhysicalTable) (h : heap) :
  fst ((name <- new Name [VStr (table_table t)] [] ;;
        names <- mapM (fun s => n <- new Name [VStr s] [] ;; ret (VRef n))
                   (omap nonempty [table_catalog t; table_schema_ t]) ;;
        ns <- new Namespace [VList names] [] ;;
        new Table [VRef name] [("namespace", VRef ns)]) h)
  = Throw TypeError.
Proof.
  assert (Hn : new Name [VStr (table_table t)] [] h
               = (Return (length h),
                  h ++ [mk_obj Name [VStr (table_table t); VStr ""] [] false]))
    by reflexivity.
  destruct (mapM_new_Name (omap nonempty [table_catalog t; table_schema_ t])
              (h ++ [mk_obj Name [VStr (table_table t); VStr ""] [] false]))
    as (vs & h' & Hm).
  assert (Hs : new Namespace [VList vs] [] h'
               = (Return (length h'),
                  h' ++ [mk_obj Namespace [VList vs] [] false]))
    by reflexivity.
  rewrite (bind_Return _ _ _ _ _ Hn). rewrite (bind_Return _ _ _ _ _ Hm).
  rewrite (bind_Return _ _ _ _ _ Hs). reflexivity.
Qed.

(** X25: for a dimension that is not among [tables] and whose join
    keys are in order, [_build_dimensions_on_select] raises KeyError
    when the build plan is to be followed and has no entry for the
    dimension, and IndexError when the plan is not to be followed and
    the dimension has no physical table in the database, both before
    the select is touched; when the plan is not to be followed and there
    is such a table, it raises TypeError, because [Table] is called with
    the keyword [namespace] and has no such field. *)
Theorem dimension_without_source_is_fatal (select : loc)
  (dim_node : NodeRevision) (dim_cols : list loc)
  (rest tables : dict (list loc)) (info : dict (list ColumnDecl))
  (build_plan_lookup : dict (list Database * BuildPlan))
  (build_plan_depth : Z) (database : Database) (dialect : option string)
  (h : heap) :
  dict_mem tables dim_node = false ->
  join_info dim_node tables = Return info ->
  let r := _build_dimensions_on_select amenable_name Query_build select
             ((dim_node, dim_cols) :: rest) tables build_plan_lookup
             build_plan_depth database dialect h in
  ((0 < build_plan_depth)%Z ->
   dict_get build_plan_lookup dim_node = None ->
   r = (Throw KeyError, h))
  /\ ((build_plan_depth <= 0)%Z ->
      tables_in database dim_node = [] ->
      r = (Throw IndexError, h))
  /\ ((build_plan_depth <= 0)%Z ->
      tables_in database dim_node <> [] ->
      fst r = Throw TypeError).
Proof.
  intros Hm Hi r.
  assert (Hr : r = (dim_ast <- dim_source amenable_name Query_build dim_node
                                 build_plan_lookup build_plan_depth database
                                 dialect ;;
                    for_each dim_cols
                      (fun dim_col =>
                         add_table dim_col (VRef dim_ast) ;;; ret tt) ;;;
                    for_each info
                      (fun tc =>
                         match dict_get tables (fst tc) with
                         | None => raise KeyError
                         | Some ast_tables =>
                             on <- join_on ast_tables (snd tc) dim_ast ;;
                             from_ <- getnode select "from_" ;;
                             getattr from_ "joins" ;;;
                             cond <- reduce and_ on ;;
                             j <- new Join
                                    [VEnum (EJoin JoinKind.LeftOuter);
                                     VRef dim_ast; cond] [] ;;
                             append_to from_ "joins" (VRef j)
                         end) ;;;
                    for_each rest
                      (fun dc =>
                         if negb (dict_mem tables (fst dc)) then
                           join_dimension amenable_name Query_build select
                             (fst dc) (snd dc) tables build_plan_lookup
                             build_plan_depth database dialect
                         else ret tt)) h).
  { unfold r, _build_dimensions_on_select. cbn [for_each fst snd].
    rewrite Hm. cbn [negb]. unfold join_dimension, lift.
    unfold bind at 1 2. rewrite Hi. unfold bind.
    destruct (dim_source _ _ _ _ _ _ _ h) as [[dim_ast|e] h1]; [|reflexivity].
    destruct (for_each dim_cols _ h1) as [[[]|e] h2]; [|reflexivity].
    reflexivity. }
  rewrite Hr. clear Hr r. unfold dim_source, tables_in.
  split; [|split].
  - intros Hd Hk. apply Z.ltb_lt in Hd. rewrite Hd, Hk. reflexivity.
  - intros Hd Ht. apply Z.ltb_ge in Hd. rewrite Hd, Ht. reflexivity.
  - intros Hd Ht. apply Z.ltb_ge in Hd. rewrite Hd.
    destruct (List.filter _ (node_tables dim_node)) as [|t ts];
      [congruence|].
    pose proof (physical_table_source t h) as Hp.
    unfold bind at 1.
    destruct ((name <- new Name [VStr (table_table t)] [] ;; _) h)
      as [[x|e] h1]; simpl in Hp; [discriminate|].
    injection Hp as ->. reflexivity.
Qed.

End DimensionSources.

Lemma dimension_without_source_is_fatal_witness :
  ((0 < 0)%Z ->
   dict_get users_plan users = None ->
   _build_dimensions_on_select (fun s => s) built 9 [(users, [7])]
     [(orders, [1])] users_plan 0 warehouse None orders_by_country
   = (Throw KeyError, orders_by_country))
  /\ ((0 <= 0)%Z ->
      tables_in warehouse users = [] ->
      _build_dimensions_on_select (fun s => s) built 9 [(users, [7])]
        [(orders, [1])] users_plan 0 warehouse None orders_by_country
      = (Throw IndexError, orders_by_country))
  /\ ((0 <= 0)%Z ->
      tables_in warehouse users <> [] ->
      fst (_build_dimensions_on_select (fun s => s) built 9 [(users, [7])]
             [(orders, [1])] users_plan 0 warehouse None orders_by_country)
      = Throw TypeError).
Proof.
  apply (dimension_without_source_is_fatal (fun s => s) built 9 users [7] []
           [(orders, [1])]
           [(orders, [mk_column "user_id" (Some 2) (Some "id")])]
           users_plan 0 warehouse None orders_by_country);
    reflexivity.
Defined.

Lemma joined_dimensions_are_skipped_witness :
  _build_dimensions_on_select (fun s => s) built 9 [(users, [7])]
    [(orders, [1]); (users, [5])] users_plan 1 warehouse None
    orders_by_country
  = (Return tt, orders_by_country).
Proof.
  apply (joined_dimensions_are_skipped (fun s => s) built 9 [(users, [7])]
           [(orders, [1]); (users, [5])] users_plan 1 warehouse None
           orders_by_country).
  repeat constructor.
Defined.

(** *** Joined tables that do not refer to the dimension *)

Lemma join_dim_cols_unrelated (dim_node table_node : NodeRevision) :
  Forall (fun col => references col dim_node = false)
    (node_columns table_node) ->
  join_dim_cols dim_node table_node = Return [].
Proof.
  intros H. rewrite join_dim_cols_find. unfold referencing.
  induction H as [|col cols Hc _ IH]; simpl; [reflexivity|].
  unfold lacks_join_key at 1. rewrite Hc. simpl. exact IH.
Qed.

Lemma dict_set_head {V} (d : dict V) (k0 k : NodeRevision) (v0 v : V) :
  same_revision k0 k = false ->
  dict_set ((k0, v0) :: d) k v = (k0, v0) :: dict_set d k v.
Proof. intros H. simpl. now rewrite H. Qed.

Lemma join_info_head {V} (dim_node tn : NodeRevision) (cols : list ColumnDecl)
  (trest : dict V) :
  Forall (fun kv => same_revision tn (fst kv) = false) trest ->
  forall acc info,
    ofold
      (fun join_info (tn : NodeRevision * V) =>
         cols <-? join_dim_cols dim_node (fst tn) ;;
         Return (dict_set join_info (fst tn) cols))
      trest ((tn, cols) :: acc) = Return info ->
    exists irest, info = (tn, cols) :: irest.
Proof.
  induction 1 as [|[k v] trest Hk _ IH]; intros acc info; simpl.
  - intros [= <-]. eauto.
  - destruct (join_dim_cols dim_node k) as [cs|e]; simpl; [|discriminate].
    simpl in Hk. rewrite Hk. apply IH.
Qed.

Lemma no_pairs {A B} (xs : list A) :
  (x ← xs; y ← @nil B; [(x, y)]) = [].
Proof. induction xs as [|x xs IH]; simpl; [reflexivity|exact IH]. Qed.

Section UnrelatedTables.
Context (amenable_name : string -> string).
Context (Query_build :
  loc -> BuildPlan -> Z -> Database -> option string -> M unit).

(** X26: when the first of the joined table nodes declares no column
    that refers to the dimension to join, the join of that dimension has
    no condition to be made of: once the source of the dimension is
    built, [_build_dimensions_on_select] raises TypeError, from [reduce]
    on an empty list, and no join is added. *)
Theorem unrelated_table_is_fatal (select from_ : loc)
  (dim_node tn : NodeRevision) (dim_cols tbls : list loc)
  (rest trest : dict (list loc)) (info : dict (list ColumnDecl))
  (build_plan_lookup : dict (list Database * BuildPlan))
  (build_plan_depth : Z) (database : Database) (dialect : option string)
  (h h1 : heap) (dim_ast : loc) (joins : value) :
  dict_mem ((tn, tbls) :: trest) dim_node = false ->
  Forall (fun kv => same_revision tn (fst kv) = false) trest ->
  Forall (fun col => references col dim_node = false) (node_columns tn) ->
  join_info dim_node ((tn, tbls) :: trest) = Return info ->
  dim_source amenable_name Query_build dim_node build_plan_lookup
    build_plan_depth database dialect h = (Return dim_ast, h1) ->
  Forall (bound h1) dim_cols ->
  field h1 select "from_" = Some (VRef from_) ->
  field h1 from_ "joins" = Some joins ->
  _build_dimensions_on_select amenable_name Query_build select
    ((dim_node, dim_cols) :: rest) ((tn, tbls) :: trest) build_plan_lookup
    build_plan_depth database dialect h
  = (Throw TypeError, h1).
Proof.
  intros Hm Hd Hu Hi Hs Hb Hf Hj.
  assert (Hinfo : exists irest, info = (tn, []) :: irest).
  { unfold join_info in Hi. simpl in Hi.
    rewrite (join_dim_cols_unrelated _ _ Hu) in Hi. simpl in Hi.
    eapply join_info_head; eassumption. }
  destruct Hinfo as [irest ->].
  unfold _build_dimensions_on_select. cbn [for_each fst snd].
  rewrite Hm. cbn [negb].
  apply bind_Throw. unfold join_dimension.
  rewrite (bind_Return _ _ h h ((tn, []) :: irest))
    by (unfold lift; now rewrite Hi).
  step Hs.
  rewrite (bind_Return _ _ _ _ _ (rebinding_changes_nothing _ _ _ Hb)).
  cbn [for_each fst snd]. apply bind_Throw.
  cbn [dict_get]. rewrite same_revision_refl.
  unfold join_on. rewrite no_pairs. cbn [mapM].
  rewrite (bind_Return _ _ h1 h1 []) by reflexivity.
  rewrite (bind_Return _ _ _ _ _ (getnode_field _ _ _ _ Hf)).
  rewrite (bind_Return _ _ _ _ _ (getattr_field _ _ _ _ Hj)).
  reflexivity.
Qed.

End UnrelatedTables.

(** A node without any reference to a dimension, and the store of the
    scenario once the query of [users] is wrapped in its alias. *)
Definition payments : NodeRevision :=
  mk_revision 3 "payments" SOURCE [mk_column "amount" None None]
    [mk_table warehouse "payments" None None].

Definition users_aliased : heap :=
  Eval vm_compute in
    snd (dim_source (fun s => s) built users users_plan 1 warehouse None
           orders_by_country).

Lemma unrelated_table_is_fatal_witness :
  _build_dimensions_on_select (fun s => s) built 9 [(users, [7])]
    [(payments, [1])] users_plan 1 warehouse None orders_by_country
  = (Throw TypeError, users_aliased).
Proof.
  apply (unrelated_table_is_fatal (fun s => s) built 9 8 users payments [7]
           [1] [] [] [(payments, [])] users_plan 1 warehouse None
           orders_by_country users_aliased 17 (VList [])).
  - reflexivity.
  - constructor.
  - repeat constructor.
  - reflexivity.
  - reflexivity.
  - repeat constructor. exists (VRef 5). split; [reflexivity|discriminate].
  - reflexivity.
  - reflexivity.
Defined.

(** *** Calls that add nothing, and filters that do not parse *)

Lemma preserves_lift {A} (P : heap -> Prop) (x : outcome A) :
  preserves P (lift x).
Proof. intros h H; exact H. Qed.

Lemma preserves_getnode (P : heap -> Prop) (l : loc) (n : string) :
  preserves P (getnode l n).
Proof.
  unfold getnode. apply preserves_bind; [apply preserves_getattr|].
  intros v. destruct v; first [apply preserves_ret | apply preserves_raise].
Qed.

Section FilterFailures.
Context (builtin_hash : hkey -> Z).
Context (parse : string -> option string -> M loc).
Context (set_iter : pyset -> list loc).

(** The parser only allocates, also when it raises; a set yields its
    elements in some order. *)
Hypothesis parse_allocates :
  forall text dialect h, h `prefix_of` snd (parse text dialect h).
Hypothesis set_iter_permutes : forall s, set_iter s ≡ₚ map snd s.

Lemma parse_extends (h0 : heap) (text : string) (dialect : option string) :
  preserves (fun h => h0 `prefix_of` h) (parse text dialect).
Proof. intros h H. etransitivity; [exact H|apply parse_allocates]. Qed.

Lemma filters_loop_extends (fuel : nat) (dialect : option string)
  (h0 : heap) (filters : list string) :
  forall filter_asts projection_addition,
    preserves (fun h => h0 `prefix_of` h)
      (filters_loop parse fuel filters dialect filter_asts
         projection_addition).
Proof.
  induction filters as [|f filters IH]; intros fa pa; simpl.
  - apply preserves_ret.
  - apply preserves_bind; [apply parse_extends|]. intros q.
    apply preserves_bind; [apply preserves_getnode|]. intros ts.
    apply preserves_bind; [apply preserves_getattr|]. intros w.
    apply preserves_bind; [apply preserves_get|]. intros h.
    apply preserves_bind; [apply preserves_lift|]. intros cols.
    apply IH.
Qed.

(** X27: without filters and without aggs (None or the empty list)
    [add_filters_and_aggs_to_query_ast] returns and leaves the store as
    it was. *)
Theorem nothing_to_add_changes_nothing (fuel : nat) (query select : loc)
  (dialect : option string) (filters aggs : option (list string))
  (h : heap) (projection : list value) :
  default [] filters = [] -> default [] aggs = [] ->
  field h query "select" = Some (VRef select) ->
  field h select "projection" = Some (VList projection) ->
  add_filters_and_aggs_to_query_ast builtin_hash parse set_iter fuel query
    dialect filters aggs h
  = (Return tt, h).
Proof.
  intros Hf Ha Hs Hp. unfold add_filters_and_aggs_to_query_ast.
  assert (Hf' : (match filters with
                 | Some ((_ :: _) as filters) =>
                     select <- getnode query "select" ;;
                     where_ <- getattr select "where" ;;
                     let filter_asts := if truthy where_ then [where_] else [] in
                     fp <- filters_loop parse fuel filters dialect filter_asts [] ;;
                     w <- reduce and_ (fst fp) ;;
                     select <- getnode query "select" ;;
                     setattr select "where" w ;;;
                     ret (snd fp)
                 | _ => ret []
                 end) h = (Return [], h))
    by (destruct filters as [[|f fs]|]; [reflexivity|discriminate|reflexivity]).
  step Hf'.
  assert (Ha' : (match aggs with
                 | Some ((_ :: _) as aggs) =>
                     aggs_loop parse fuel query aggs dialect []
                 | _ => ret []
                 end) h = (Return [], h))
    by (destruct aggs as [[|a ags]|]; [reflexivity|discriminate|reflexivity]).
  step Ha'.
  rewrite (bind_Return _ _ _ _ _ (getnode_field _ _ _ _ Hs)).
  rewrite (bind_Return _ _ _ _ _ (getattr_field _ _ _ _ Hp)).
  unfold get at 1. unfold bind at 1. unfold lift, set_of_list.
  cbn [ofold]. unfold bind at 1.
  assert (Hi : set_iter [] = []).
  { apply Permutation_nil. symmetry. apply (set_iter_permutes []). }
  rewrite Hi. cbn [mapM map]. unfold bind at 1, ret at 1.
  unfold extend. rewrite (bind_Return _ _ _ _ _ (getattr_field _ _ _ _ Hp)).
  rewrite app_nil_r. unfold field in Hp. unfold setattr.
  destruct (h !! select) as [o|] eqn:Ho; [|discriminate]. simpl in Hp.
  rewrite (setfield_same _ _ _ Hp). now rewrite list_insert_id.
Qed.

(** X28: when the loop over the filters raises, because a filter does
    not parse or its parse has no select, the call raises the same
    exception and every object of the store is as it was before the
    call: the WHERE clause, the GROUP BY clause and the projection of
    the query are untouched. *)
Theorem failing_filter_leaves_query_untouched (fuel : nat)
  (query select : loc) (dialect : option string) (filters : list string)
  (aggs : option (list string)) (h : heap) (where_ : value) (e : exn) :
  field h query "select" = Some (VRef select) ->
  field h select "where" = Some where_ ->
  filters <> [] ->
  fst (filters_loop parse fuel filters dialect
         (if truthy where_ then [where_] else []) [] h) = Throw e ->
  let r := add_filters_and_aggs_to_query_ast builtin_hash parse set_iter
             fuel query dialect (Some filters) aggs h in
  fst r = Throw e /\ h `prefix_of` snd r.
Proof.
  intros Hs Hw Hne Hl r. unfold r, add_filters_and_aggs_to_query_ast.
  destruct filters as [|f fs]; [congruence|].
  pose proof (filters_loop_extends fuel dialect h (f :: fs)
                (if truthy where_ then [where_] else []) [] h
                (reflexivity h)) as Hx.
  destruct (filters_loop parse fuel (f :: fs) dialect
              (if truthy where_ then [where_] else []) [] h)
    as [[fp|e'] h1] eqn:E; simpl in Hl, Hx; [discriminate|].
  injection Hl as ->.
  rewrite (bind_Throw _ _ h h1 e); [split; [reflexivity|exact Hx]|].
  rewrite (bind_Return _ _ _ _ _ (getnode_field _ _ _ _ Hs)).
  rewrite (bind_Return _ _ _ _ _ (getattr_field _ _ _ _ Hw)).
  cbv zeta. now rewrite (bind_Throw _ _ _ _ _ E).
Qed.

End FilterFailures.

(** A parser that knows the fragment [region = 'EU'] only. *)
Definition parse_region_only (text : string) (dialect : option string)
  : M loc :=
  if String.eqb text "select * where region = 'EU'" then
    parse_region text dialect
  else raise (DJParseException "no parse").

Lemma parse_region_only_allocates (text : string) (dialect : option string)
  (h : heap) :
  h `prefix_of` snd (parse_region_only text dialect h).
Proof.
  unfold parse_region_only.
  destruct (String.eqb text _); [now eexists|reflexivity].
Qed.

Lemma nothing_to_add_changes_nothing_witness :
  add_filters_and_aggs_to_query_ast (fun _ => 0%Z) parse_region (map snd) 5
    8 None (Some []) None sales
  = (Return tt, sales).
Proof.
  apply (nothing_to_add_changes_nothing (fun _ => 0%Z) parse_region (map snd)
           (fun s => Permutation_refl _) 5 8 7 None (Some []) None sales
           [VRef 4]);
    reflexivity.
Defined.

Lemma failing_filter_leaves_query_untouched_witness :
  fst (add_filters_and_aggs_to_query_ast (fun _ => 0%Z) parse_region_only
         (map snd) 5 8 None (Some ["region = 'EU'"; "price >"]) None sales)
  = Throw (DJParseException "no parse")
  /\ sales `prefix_of`
     snd (add_filters_and_aggs_to_query_ast (fun _ => 0%Z) parse_region_only
            (map snd) 5 8 None (Some ["region = 'EU'"; "price >"]) None
            sales).
Proof.
  apply (failing_filter_leaves_query_untouched (fun _ => 0%Z)
           parse_region_only (map snd) parse_region_only_allocates
           5 8 7 None ["region = 'EU'"; "price >"] None sales (VRef 6)
           (DJParseException "no parse"));
    first [reflexivity | discriminate].
Defined.

(** *** _build_tables_on_select and _build_select_ast *)

Lemma get_tables_run (dj_node : loc -> option NodeRevision) (fuel : nat)
  (select : loc) (h : heap) :
  _get_tables_and_dim_cols dj_node fuel select h
  = match find_all fuel Table h select, find_all fuel Column h select with
    | Return ts, Return cs =>
        (Return (grouped (dimension_of dj_node h) cs [],
                 grouped dj_node ts []), h)
    | Throw e, _ | Return _, Throw e => (Throw e, h)
    end.
Proof.
  unfold _get_tables_and_dim_cols, bind, get, lift, ret.
  destruct (find_all fuel Table h select) as [ts|e]; [|reflexivity].
  destruct (find_all fuel Column h select) as [cs|e]; reflexivity.
Qed.

Section TableSources.
Context (amenable_name : string -> string).
Context (Query_build :
  loc -> BuildPlan -> Z -> Database -> option string -> M unit).
Context (replace : loc -> loc -> loc -> M unit).
Context (Node_type : NodeRevision -> NodeType).
Context (dj_node : loc -> option NodeRevision).

(** X29: for the first node of [tables], [_build_tables_on_select]
    raises KeyError when the node is not a source, the build plan is to
    be followed and has no entry for the node; when the node is a source
    or the plan is not to be followed, it raises IndexError if the node
    has no physical table in the database and TypeError otherwise,
    because [Table] is called with the keyword [namespace]; in the first
    two cases the store is as it was, and in none of them is a table of
    the select replaced. *)
Theorem table_without_source_is_fatal (select : loc) (node : NodeRevision)
  (tbls : list loc) (rest : dict (list loc))
  (build_plan_lookup : dict (list Database * BuildPlan))
  (build_plan_depth : Z) (database : Database) (dialect : option string)
  (h : heap) :
  let r := _build_tables_on_select amenable_name Query_build replace
             Node_type select ((node, tbls) :: rest) build_plan_lookup
             build_plan_depth database dialect h in
  (Node_type node <> SOURCE -> (0 < build_plan_depth)%Z ->
   dict_get build_plan_lookup node = None ->
   r = (Throw KeyError, h))
  /\ (Node_type node = SOURCE \/ (build_plan_depth <= 0)%Z ->
      tables_in database node = [] ->
      r = (Throw IndexError, h))
  /\ (Node_type node = SOURCE \/ (build_plan_depth <= 0)%Z ->
      tables_in database node <> [] ->
      fst r = Throw TypeError).
Proof.
  intros r. unfold r, _build_tables_on_select. cbn [for_each fst snd].
  unfold table_source, tables_in.
  split; [|split].
  - intros Hn Hd Hk. apply Z.ltb_lt in Hd.
    rewrite bool_decide_eq_false_2 by exact Hn. rewrite Hd, Hk.
    reflexivity.
  - intros Hc Ht.
    replace (negb (bool_decide (Node_type node = SOURCE))
             && (0 <? build_plan_depth)%Z) with false.
    2:{ destruct Hc as [Hc|Hc].
        - now rewrite bool_decide_eq_true_2 by exact Hc.
        - apply Z.ltb_ge in Hc. rewrite Hc. now rewrite andb_false_r. }
    rewrite Ht. reflexivity.
  - intros Hc Ht.
    replace (negb (bool_decide (Node_type node = SOURCE))
             && (0 <? build_plan_depth)%Z) with false.
    2:{ destruct Hc as [Hc|Hc].
        - now rewrite bool_decide_eq_true_2 by exact Hc.
        - apply Z.ltb_ge in Hc. rewrite Hc. now rewrite andb_false_r. }
    destruct (List.filter _ (node_tables node)) as [|t ts]; [congruence|].
    pose proof (physical_table_source t h) as Hp.
    unfold bind at 1. unfold bind at 1.
    destruct ((name <- new Name [VStr (table_table t)] [] ;; _) h)
      as [[x|e] h1]; simpl in Hp; [discriminate|].
    injection Hp as ->. reflexivity.
Qed.

(** X30: on a select none of whose tables has a [dj_node], and none
    of whose columns is bound to a Table of a dimension node,
    [_build_select_ast] returns and leaves the store as it was, whatever
    the build plan. *)
Theorem select_without_nodes_is_left_alone (fuel : nat) (select : loc)
  (build_plan : BuildPlan) (build_plan_depth : Z) (database : Database)
  (dialect : option string) (h : heap) (ts cs : list loc) :
  find_all fuel Table h select = Return ts ->
  find_all fuel Column h select = Return cs ->
  Forall (fun t => dj_node t = None) ts ->
  Forall (fun c => dimension_of dj_node h c = None) cs ->
  _build_select_ast amenable_name Query_build replace Node_type dj_node
    fuel select build_plan build_plan_depth database dialect h
  = (Return tt, h).
Proof.
  intros Hts Hcs Ht Hc.
  pose proof (get_tables_run dj_node fuel select h) as Hg.
  rewrite Hts, Hcs in Hg.
  assert (G : forall {A} (key : A -> option NodeRevision) (xs : list A),
             Forall (fun x => key x = None) xs -> grouped key xs [] = []).
  { intros A key xs H. unfold grouped.
    induction H as [|x xs Hx _ IH]; simpl; [reflexivity|]. now rewrite Hx. }
  rewrite (G _ dj_node ts Ht), (G _ (dimension_of dj_node h) cs Hc) in Hg.
  unfold _build_select_ast.
  rewrite (bind_Return _ _ _ _ _ Hg). destruct build_plan. reflexivity.
Qed.

End TableSources.

Lemma table_without_source_is_fatal_witness :
  (node_type orders <> SOURCE -> (0 < 1)%Z ->
   dict_get users_plan orders = None ->
   _build_tables_on_select (fun s => s) built (fun _ _ _ => ret tt)
     node_type 9 [(orders, [1])] users_plan 1 warehouse None
     orders_by_country
   = (Throw KeyError, orders_by_country))
  /\ (node_type orders = SOURCE \/ (1 <= 0)%Z ->
      tables_in warehouse orders = [] ->
      _build_tables_on_select (fun s => s) built (fun _ _ _ => ret tt)
        node_type 9 [(orders, [1])] users_plan 1 warehouse None
        orders_by_country
      = (Throw IndexError, orders_by_country))
  /\ (node_type orders = SOURCE \/ (1 <= 0)%Z ->
      tables_in warehouse orders <> [] ->
      fst (_build_tables_on_select (fun s => s) built (fun _ _ _ => ret tt)
             node_type 9 [(orders, [1])] users_plan 1 warehouse None
             orders_by_country)
      = Throw TypeError).
Proof.
  exact (table_without_source_is_fatal (fun s => s) built
           (fun _ _ _ => ret tt) node_type 9 orders [1] [] users_plan 1
           warehouse None orders_by_country).
Defined.

Lemma select_without_nodes_is_left_alone_witness :
  _build_select_ast (fun s => s) built (fun _ _ _ => ret tt) node_type
    (fun _ => None) 5 7 (Plan 8 []) 1 warehouse None sales
  = (Return tt, sales).
Proof.
  apply (select_without_nodes_is_left_alone (fun s => s) built
           (fun _ _ _ => ret tt) node_type (fun _ => None) 5 7 (Plan 8 []) 1
           warehouse None sales [1] [4; 6]);
    first [reflexivity | repeat constructor].
Defined.

End build_facts.
